(** * jw-news-reader: the article extraction pipeline of [app/extract.py]

    A shallow embedding of the extraction code, the properties its
    specification states about it, and further properties of the code.

    Python values are embedded as follows.
    - [str] is [string]: a sequence of 8-bit code points.  White space,
      line boundaries and the word class of regular expressions are
      Python's on that range; case mappings are the ASCII ones, other
      characters being caseless.
    - [float] is [pyfloat]: a number, an infinity or [nan].
    - [Optional[T]] is [option T].  A function of the repository that can
      end with an exception has an [outcome]: [validate_url] raises its own
      error or lets through the [ValueError] of [urlparse], and
      [_normalize_figures], with it the whole of [extract_from_html], ends
      with an exception at a figure that has a caption.
    - A parsed document is a tree of [node]s; every tag carries the identity
      of its Python object, so that [is] is equality of identities.  The
      trees are those the HTML parser builds: a void element such as [img]
      has no contents.
    - Functions of other packages (urllib, bs4's parser, markdownify,
      readability, json, float parsing) are parameters of the functions that
      call them.  Calls into bs4 are taken to return: the embedding
      describes the runs of the code in which none of them raises.  One
      does raise when [_strip_player_controls] reads an attribute of a tag
      that has gone with an ancestor; see there. *)

From Stdlib Require Import String Ascii ZArith QArith Lia Permutation Sorted.
From stdpp Require Import base list strings sorting.

Local Open Scope Z_scope.
Local Open Scope nat_scope.

(* ================================================================= *)
(** * Part I: the program *)
(* ================================================================= *)

(** ** Characters and strings *)

Module Py.

Definition LF : ascii := "010"%char.
Definition CR : ascii := "013"%char.
Definition QUOTE : ascii := "034"%char.

(** ["\n"] *)
Definition nl : string := String LF "".

(** [str.isspace] of one character. *)
Definition is_space (c : ascii) : bool :=
  match c with
  | "009" | "010" | "011" | "012" | "013"
  | "028" | "029" | "030" | "031" | " " | "133" | "160" => true
  | _ => false
  end%char.

(** The line boundaries of [str.splitlines]. *)
Definition is_linebreak (c : ascii) : bool :=
  match c with
  | "010" | "011" | "012" | "013" | "028" | "029" | "030" | "133" => true
  | _ => false
  end%char.

Definition is_upper (c : ascii) : bool :=
  let n := nat_of_ascii c in (65 <=? n) && (n <=? 90).
Definition is_lower (c : ascii) : bool :=
  let n := nat_of_ascii c in (97 <=? n) && (n <=? 122).
Definition is_digit (c : ascii) : bool :=
  let n := nat_of_ascii c in (48 <=? n) && (n <=? 57).
Definition is_alpha (c : ascii) : bool := is_upper c || is_lower c.
Definition is_alnum (c : ascii) : bool := is_alpha c || is_digit c.

(** The class [\w] of the [re] module on text: the ASCII letters and
    digits, the underscore, and the letters and numbers of the upper half of
    the range. *)
Definition is_word (c : ascii) : bool :=
  let n := nat_of_ascii c in
  is_alnum c || Ascii.eqb c "_"
  || (n =? 170) || (n =? 178) || (n =? 179) || (n =? 181) || (n =? 185)
  || (n =? 186) || ((188 <=? n) && (n <=? 190))
  || ((192 <=? n) && (n <=? 214)) || ((216 <=? n) && (n <=? 246))
  || (248 <=? n).

Definition lower_char (c : ascii) : ascii :=
  if is_upper c then ascii_of_nat (nat_of_ascii c + 32) else c.
Definition upper_char (c : ascii) : ascii :=
  if is_lower c then ascii_of_nat (nat_of_ascii c - 32) else c.

Fixpoint map_chars (f : ascii → ascii) (s : string) : string :=
  match s with
  | "" => ""
  | String c s' => String (f c) (map_chars f s')
  end.

(** [s.lower()], [s.casefold()], [s.upper()] *)
Definition lower : string → string := map_chars lower_char.
Definition casefold : string → string := map_chars lower_char.
Definition upper : string → string := map_chars upper_char.

Fixpoint all_chars (p : ascii → bool) (s : string) : bool :=
  match s with
  | "" => true
  | String c s' => p c && all_chars p s'
  end.

Fixpoint lstrip (s : string) : string :=
  match s with
  | "" => ""
  | String c s' => if is_space c then lstrip s' else s
  end.

Fixpoint rstrip (s : string) : string :=
  match s with
  | "" => ""
  | String c s' =>
      match rstrip s' with
      | "" => if is_space c then "" else String c ""
      | r => String c r
      end
  end.

(** [s.strip()] *)
Definition strip (s : string) : string := rstrip (lstrip s).

(** The truth value of a string: [bool(s)]. *)
Definition truthy (s : string) : bool := negb (String.eqb s "").

(** [s.startswith(p)] *)
Definition startswith (s p : string) : bool := String.prefix p s.

(** [s.endswith(p)]: some suffix of [s] is [p]. *)
Fixpoint endswith (s p : string) : bool :=
  String.eqb s p ||
  match s with
  | "" => false
  | String _ s' => endswith s' p
  end.

(** [sep.join(parts)] *)
Definition join (sep : string) (parts : list string) : string :=
  String.concat sep parts.

(** [s.splitlines()]: the lines of [s] without their terminators; ["\r\n"]
    is one terminator, and a terminator at the very end opens no further
    line. *)
Fixpoint splitlines (s : string) : list string :=
  match s with
  | "" => []
  | String c s' =>
      if is_linebreak c then
        "" :: (if Ascii.eqb c CR then
                 match s' with
                 | String c' s'' =>
                     if Ascii.eqb c' LF then splitlines s'' else splitlines s'
                 | "" => splitlines s'
                 end
               else splitlines s')
      else
        match splitlines s' with
        | [] => [String c ""]
        | line :: rest => String c line :: rest
        end
  end.

(** [s.split()]: the maximal runs of characters that are not white space. *)
Fixpoint split_ws (s : string) : list string :=
  match s with
  | "" => []
  | String c s' =>
      if is_space c then split_ws s'
      else
        match s' with
        | "" => [String c ""]
        | String c' _ =>
            if is_space c' then String c "" :: split_ws s'
            else
              match split_ws s' with
              | [] => [String c ""]
              | w :: ws => String c w :: ws
              end
        end
  end.

(** [needle in s] *)
Fixpoint contains (needle s : string) : bool :=
  String.prefix needle s ||
  match s with
  | "" => false
  | String _ s' => contains needle s'
  end.

(** [n] copies of a character. *)
Fixpoint replicate_char (n : nat) (c : ascii) : string :=
  match n with
  | 0 => ""
  | S k => String c (replicate_char k c)
  end.

End Py.

(** ** Markdown post-processing *)

(** A string none of whose characters ends a line. *)
Definition one_line (s : string) : Prop :=
  Py.all_chars (λ c, negb (Py.is_linebreak c)) s = true.

(** [line.strip()] used as a condition. *)
Definition nonblank (line : string) : Prop := Py.strip line ≠ "".

#[global] Instance nonblank_dec line : Decision (nonblank line).
Proof. unfold nonblank. apply _. Defined.

(** [_ensure_markdown_title]: the loop returns at the first line that is not
    blank, which [list_find] yields with its index. *)
Definition _ensure_markdown_title (markdown : string) (title : option string)
  : string :=
  match title with
  | None => markdown
  | Some t =>
      if negb (Py.truthy t) then markdown
      else
        let lines := Py.splitlines markdown in
        match list_find nonblank lines with
        | None => markdown
        | Some (idx, line) =>
            let stripped := Py.strip line in
            if String.eqb stripped ("# " +:+ t) then markdown
            else if String.eqb stripped t then
                   Py.join Py.nl (<[idx := "# " +:+ t]> lines)
                 else markdown
        end
  end.

(** [re.sub(r"\n{3,}", "\n\n", s)].  The scan keeps the number of newlines
    read and not yet written; a run is written when it ends, as two newlines
    if it has three or more. *)
Definition flush_newlines (pending : nat) : string :=
  if 3 <=? pending then Py.nl +:+ Py.nl else Py.replicate_char pending Py.LF.

Fixpoint collapse_newlines_from (pending : nat) (s : string) : string :=
  match s with
  | "" => flush_newlines pending
  | String c s' =>
      if Ascii.eqb c Py.LF then collapse_newlines_from (S pending) s'
      else flush_newlines pending +:+ String c (collapse_newlines_from 0 s')
  end.

Definition collapse_newlines (s : string) : string :=
  collapse_newlines_from 0 s.

(** Text that a run of newlines can follow: it does not end in a newline. *)
Definition no_trailing_newline (s : string) : Prop :=
  Py.endswith s Py.nl = false.

(** Text that can follow a run of newlines: it does not begin with one. *)
Definition no_leading_newline (s : string) : Prop :=
  Py.startswith s Py.nl = false.

(** ** Scoring CDN image URLs *)

(** A literal matched under [re.IGNORECASE]: the text matched and the rest. *)
Fixpoint match_ci (literal s : string) : option (string * string) :=
  match literal with
  | "" => Some ("", s)
  | String l literal' =>
      match s with
      | "" => None
      | String c s' =>
          if Ascii.eqb (Py.lower_char c) (Py.lower_char l) then
            match match_ci literal' s' with
            | Some (m, rest) => Some (String c m, rest)
            | None => None
            end
          else None
      end
  end.

(** [(?:\b|\.|_)] behind a size token, whose last character is a letter:
    the end of the string, a character outside [\w], a dot or an
    underscore. *)
Definition size_boundary (rest : string) : bool :=
  match rest with
  | "" => true
  | String c _ => negb (Py.is_word c) || Ascii.eqb c "." || Ascii.eqb c "_"
  end.

(** The alternatives of [(xs|s|m|l|xl)], tried in this order. *)
Definition size_tokens : list string := ["xs"; "s"; "m"; "l"; "xl"].

(** [{"xs": 1, "s": 2, "m": 3, "l": 4, "xl": 5}.get(size, 0)] *)
Definition size_score (size : string) : Z :=
  if String.eqb size "xs" then 1
  else if String.eqb size "s" then 2
  else if String.eqb size "m" then 3
  else if String.eqb size "l" then 4
  else if String.eqb size "xl" then 5
  else 0.

(** The first alternative that matches at [s] with the boundary behind it:
    group 1 of the match. *)
Fixpoint size_token_at (tokens : list string) (s : string) : option string :=
  match tokens with
  | [] => None
  | tok :: tokens' =>
      match match_ci tok s with
      | Some (m, rest) =>
          if size_boundary rest then Some m else size_token_at tokens' s
      | None => size_token_at tokens' s
      end
  end.

(** [re.search(r"_(xs|s|m|l|xl)(?:\b|\.|_)", url, re.IGNORECASE)]: group 1 of
    the leftmost match. *)
Fixpoint search_size (url : string) : option string :=
  match url with
  | "" => None
  | String c rest =>
      if Ascii.eqb c "_" then
        match size_token_at size_tokens rest with
        | Some m => Some m
        | None => search_size rest
        end
      else search_size rest
  end.

Definition _score_image_url (url : string) : Z :=
  match search_size url with
  | None => 0
  | Some m => size_score (Py.lower m)
  end.

(** The order of Python tuples of two integers. *)
Definition key_le (a b : Z * Z) : Prop :=
  (a.1 < b.1 ∨ (a.1 = b.1 ∧ a.2 ≤ b.2))%Z.

#[global] Instance key_le_dec a b : Decision (key_le a b).
Proof. unfold key_le. apply _. Defined.

(** [l.sort(key=key)]: the list in ascending order of the keys. *)
Definition sort_on {A} (key : A → Z * Z) (l : list A) : list A :=
  merge_sort (λ x y, key_le (key x) (key y)) l.

(** An entry of [scored]: index, score, URL. *)
Definition scored_url : Type := Z * Z * string.

Definition _pick_best_image_url (urls : list string) : option string :=
  match urls with
  | [] => None
  | _ =>
      let scored : list scored_url :=
        imap (λ idx url, (Z.of_nat idx, _score_image_url url, url)) urls in
      let sorted := sort_on (λ item : scored_url, (item.1.2, - item.1.1)%Z) scored in
      (λ item : scored_url, item.2) <$> last sorted
  end.

(** ** Outcomes of calls that can raise *)

(** [ExtractionError] is the exception class of the repository, a subclass of
    [ValueError]; [ValueError], [AttributeError] and [TypeError] stand for
    exceptions of these classes that are no [ExtractionError]. *)
Inductive exn : Type :=
| ExtractionError (message : string)
| ValueError
| AttributeError
| TypeError.

Inductive outcome (A : Type) : Type :=
| Return (value : A)
| Raise (e : exn).

Arguments Return {A} value.
Arguments Raise {A} e.

(** The rest of a function after a call that can raise. *)
Definition bind {A B} (call : outcome A) (rest : A → outcome B) : outcome B :=
  match call with
  | Return value => rest value
  | Raise e => Raise e
  end.

Notation "x ←! call ; rest" := (bind call (λ x, rest))
  (at level 20, call at level 100, rest at level 200, right associativity,
   only parsing).

(** ** URL validation *)

(** The two fields that [validate_url] reads of the result of
    [urllib.parse.urlparse]. *)
Record ParseResult : Type := mkParseResult {
  scheme : string;
  hostname : option string;
}.

Section UrlValidation.

(** [urllib.parse.urlparse], [None] standing for the [ValueError] that it
    raises on some strings. *)
Context (urlparse : string → option ParseResult).

(** [validate_url] has no handler: a [ValueError] of [urlparse] leaves it as
    it is. *)
Definition validate_url (url : string) : outcome unit :=
  match urlparse url with
  | None => Raise ValueError
  | Some parsed =>
      if negb (String.eqb (scheme parsed) "https") then
        Raise (ExtractionError "Only https URLs are allowed")
      else
        let host := Py.lower (default "" (hostname parsed)) in
        if String.eqb host "jw.org" || Py.endswith host ".jw.org" then Return tt
        else Raise (ExtractionError "Only jw.org URLs are allowed")
  end.

End UrlValidation.

(** [host] is the trusted domain or a subdomain of it: lower-cased, it is
    [jw.org] or ends in [.jw.org]. *)
Definition trusted_host (host : string) : Prop :=
  Py.lower host = "jw.org" ∨ ∃ sub, Py.lower host = sub +:+ ".jw.org".

(** The text before the first character on which [stop] holds, and the text
    from that character on. *)
Fixpoint take_until (stop : ascii → bool) (s : string) : string * string :=
  match s with
  | "" => ("", "")
  | String c s' =>
      if stop c then ("", s)
      else let '(a, b) := take_until stop s' in (String c a, b)
  end.

(** The text behind the last [sep], all of [s] when it has none. *)
Fixpoint after_last (sep : ascii) (s : string) : string :=
  match s with
  | "" => ""
  | String c s' =>
      if Py.contains (String sep "") s' then after_last sep s'
      else if Ascii.eqb c sep then s' else s
  end.

(** A plain instance of [urlparse] for URLs of the shape
    [scheme://host/path]: the scheme is the text before the first colon,
    lower-cased, and the host the text between the two slashes and the next
    slash, question mark or hash, without user information and port,
    lower-cased.  As in [urllib.parse.urlsplit], a network location with
    only one of the two square brackets is refused with [ValueError]. *)
Definition simple_urlparse (url : string) : option ParseResult :=
  let '(sch, rest) := take_until (Ascii.eqb ":") url in
  match rest with
  | String _ (String "/" (String "/" rest')) =>
      let '(netloc, _) :=
        take_until (λ c, Ascii.eqb c "/" || Ascii.eqb c "?" || Ascii.eqb c "#")
                   rest' in
      if xorb (Py.contains "[" netloc) (Py.contains "]" netloc) then None
      else
        let '(host, _) := take_until (Ascii.eqb ":") (after_last "@" netloc) in
        Some {| scheme := Py.lower sch;
                hostname :=
                  if Py.truthy host then Some (Py.lower host) else None |}
  | String _ _ => Some {| scheme := Py.lower sch; hostname := None |}
  | "" => Some {| scheme := ""; hostname := None |}
  end.

(** ** The document tree *)

(** The identity of a tag object: the parser numbers the tags it builds. *)
Inductive ident : Type :=
| Parsed (n : nat).

#[global] Instance ident_eq_dec : EqDecision ident.
Proof. solve_decision. Defined.

(** A [NavigableString] or a [Tag].  Attributes are the items of the tag's
    [attrs] dictionary; the value of [class] is kept as text and read as a
    list of classes by [classes]. *)
#[local] Unset Elimination Schemes.
Inductive node : Type :=
| Text (s : string)
| Tag (uid : ident) (name : string) (attrs : list (string * string))
      (contents : list node).
#[local] Set Elimination Schemes.

(** A reference to a tag object. *)
Definition node_ref (n : node) : option ident :=
  match n with
  | Text _ => None
  | Tag u _ _ _ => Some u
  end.

Definition is_tag (n : node) : bool :=
  match n with
  | Text _ => false
  | Tag _ _ _ _ => true
  end.

(** [tag.name == name] *)
Definition named (name : string) (n : node) : bool :=
  match n with
  | Text _ => false
  | Tag _ name' _ _ => String.eqb name' name
  end.

Definition named_any (names : list string) (n : node) : bool :=
  existsb (λ name, named name n) names.

Definition contents_of (n : node) : list node :=
  match n with
  | Text _ => []
  | Tag _ _ _ cs => cs
  end.

(** ** Dictionaries of attributes *)

Fixpoint dict_get (d : list (string * string)) (key : string) : option string :=
  match d with
  | [] => None
  | (k, v) :: d' => if String.eqb k key then Some v else dict_get d' key
  end.

(** [d[key] = value] *)
Fixpoint dict_set (d : list (string * string)) (key value : string)
  : list (string * string) :=
  match d with
  | [] => [(key, value)]
  | (k, v) :: d' =>
      if String.eqb k key then (k, value) :: d'
      else (k, v) :: dict_set d' key value
  end.

(** [del d[key]] for a key that may be absent *)
Definition dict_del (d : list (string * string)) (key : string)
  : list (string * string) :=
  List.filter (λ kv, negb (String.eqb kv.1 key)) d.

(** [tag.get(key)] *)
Definition get (n : node) (key : string) : option string :=
  match n with
  | Text _ => None
  | Tag _ _ attrs _ => dict_get attrs key
  end.

(** [tag.get(key, "")] *)
Definition get_or_empty (n : node) (key : string) : string :=
  default "" (get n key).

(** The truth value of an optional string. *)
Definition truthy_opt (v : option string) : bool :=
  match v with
  | Some s => Py.truthy s
  | None => false
  end.

(** [a or b] on optional strings *)
Definition or_else (a b : option string) : option string :=
  if truthy_opt a then a else b.

(** [tag.get("class", [])] *)
Definition classes (n : node) : list string :=
  Py.split_ws (get_or_empty n "class").

(** [" ".join(filter(None, [tag.get("id", ""), " ".join(tag.get("class", []))]))] *)
Definition id_and_classes (n : node) : string :=
  Py.join " " (List.filter Py.truthy
                 [get_or_empty n "id"; Py.join " " (classes n)]).

(** ** Searching the tree *)

(** [tag.descendants]: everything below the tag, in document order. *)
Fixpoint descendants (n : node) : list node :=
  match n with
  | Text _ => []
  | Tag _ _ _ cs => flat_map (λ c, c :: descendants c) cs
  end.

(** [tag.find_all(names)] *)
Definition find_all (names : list string) (n : node) : list node :=
  List.filter (named_any names) (descendants n).

(** [tag.find(name)] *)
Definition find (name : string) (n : node) : option node :=
  head (find_all [name] n).

(** [tag.find_all(name, attrs={key: value})] *)
Definition find_all_with (name key value : string) (n : node) : list node :=
  List.filter (λ d, match get d key with
                    | Some v => String.eqb v value
                    | None => false
                    end)
              (find_all [name] n).

(** The strings below a tag, in document order. *)
Definition strings_of (n : node) : list string :=
  omap (λ d, match d with Text s => Some s | Tag _ _ _ _ => None end)
       (descendants n).

(** [tag.get_text(" ", strip=True)]: the stripped strings that are not
    empty, joined by blanks. *)
Definition get_text (n : node) : string :=
  Py.join " " (List.filter Py.truthy (Py.strip <$> strings_of n)).

(** [tag.string]: the single string below a chain of only children. *)
Fixpoint tag_string (n : node) : option string :=
  match n with
  | Text s => Some s
  | Tag _ _ _ [c] => tag_string c
  | Tag _ _ _ _ => None
  end.

(** A regular expression that is an alternation of lower-case words, searched
    with [re.IGNORECASE]. *)
Definition search_words (words : list string) (s : string) : bool :=
  existsb (λ w, Py.contains w (Py.lower s)) words.

Definition MIN_TEXT_LEN : nat := 200.
Definition KEYWORD_RE : list string := ["article"; "content"; "pub"; "body"].
Definition PLAYER_CLASS_RE : list string :=
  ["player"; "audio"; "video"; "jwplayer"; "vjs"; "media"; "play"].
Definition METADATA_CLASS_RE : list string :=
  ["publication"; "issue"; "magazine"; "context"; "related"; "footer";
   "language"; "promo"; "share"].

(** ** Removing tags

    Each loop of the code lists its candidates with [find_all] before it
    removes any of them, in document order, so a tag is met before its
    descendants and, when met, has the subtree it had when the loop began;
    a tag met again after it went with an ancestor has nothing left to
    remove.  [prune doomed] is that loop: it walks down from the root and
    drops every tag on which [doomed] holds, with all below it. *)
Fixpoint prune (doomed : node → bool) (n : node) : node :=
  match n with
  | Text _ => n
  | Tag u name attrs cs =>
      Tag u name attrs
          (omap (λ c, if is_tag c && doomed c then None
                      else Some (prune doomed c)) cs)
  end.

(** The second loop of [_remove_unwanted_tags]: [inside] tells whether an
    ancestor is an [article] or a [main]. *)
Fixpoint remove_outer_headers (inside : bool) (n : node) : node :=
  match n with
  | Text _ => n
  | Tag u name attrs cs =>
      let inside' := inside || named_any ["article"; "main"] n in
      Tag u name attrs
          (omap (λ c, if named "header" c && negb inside' then None
                      else Some (remove_outer_headers inside' c)) cs)
  end.

Definition _remove_unwanted_tags (soup : node) : node :=
  let soup := prune (named_any ["script"; "style"; "noscript"; "nav";
                                "footer"; "aside"; "svg"; "form"; "button"])
                    soup in
  remove_outer_headers false soup.

(** ** Selecting the container *)

(** One round of the loop over the [div]s: the state is [(best, best_len)]. *)
Definition select_step (state : option node * nat) (div : node)
  : option node * nat :=
  let '(best, best_len) := state in
  if negb (search_words KEYWORD_RE (id_and_classes div)) then state
  else
    let text_len := String.length (get_text div) in
    if best_len <? text_len then (Some div, text_len) else state.

Definition _select_container (soup : node) : option node :=
  match find "article" soup with
  | Some article => Some article
  | None =>
      match find "main" soup with
      | Some main => Some main
      | None =>
          let '(best, best_len) :=
            foldl select_step (None, 0) (find_all ["div"] soup) in
          match best with
          | Some div => if MIN_TEXT_LEN <=? best_len then Some div else None
          | None => None
          end
      end
  end.

(** The visible-text length of a tag. *)
Definition text_len (n : node) : nat := String.length (get_text n).

(** The [div]s whose id and class text matches the keyword pattern. *)
Definition keyword_divs (soup : node) : list node :=
  List.filter (λ div, search_words KEYWORD_RE (id_and_classes div))
              (find_all ["div"] soup).

(** ** The title *)

Definition _extract_title (container soup : node) (fallback : option string)
  : option string :=
  let from_h1 :=
    match find "h1" container with
    | Some h1 => let text := get_text h1 in
                 if Py.truthy text then Some text else None
    | None => None
    end in
  let from_title :=
    match find "title" soup with
    | Some title =>
        match tag_string title with
        | Some s => if Py.truthy s && Py.truthy (Py.strip s)
                    then Some (Py.strip s) else None
        | None => None
        end
    | None => None
    end in
  let from_fallback :=
    match fallback with
    | Some f => if Py.truthy f && Py.truthy (Py.strip f)
                then Some (Py.strip f) else None
    | None => None
    end in
  match from_h1 with
  | Some text => Some text
  | None =>
      match from_title with
      | Some text => Some text
      | None => from_fallback
      end
  end.

Definition _find_title_node (container : node) (title : option string)
  : option ident :=
  match title with
  | None => None
  | Some t =>
      if negb (Py.truthy t) then None
      else
        head (omap node_ref
                (List.filter (λ tag, String.eqb (get_text tag) t)
                   (find_all ["h1"; "h2"; "h3"; "h4"; "h5"; "h6"; "p"; "div";
                              "span"] container)))
  end.

(** [parent is node] *)
Definition is_node (parent : node) (r : ident) : bool :=
  match node_ref parent with
  | Some u => bool_decide (u = r)
  | None => false
  end.

Definition _contains_node (parent : node) (node : option ident) : bool :=
  match node with
  | None => false
  | Some r => is_node parent r || existsb (λ d, is_node d r) (descendants parent)
  end.

(** ** Player controls *)

Definition _attr_contains (tag : node) (attr : string) (needles : list string)
  : bool :=
  match get tag attr with
  | None => false
  | Some value =>
      Py.truthy value
      && existsb (λ needle, Py.contains needle (Py.casefold value)) needles
  end.

Definition _text_is_play (tag : node) : bool :=
  String.eqb (Py.casefold (get_text tag)) "play".

Definition control_needles : list string := ["play"; "audio"; "video"].

(** The condition under which the last loop of [_strip_player_controls]
    removes a tag. *)
Definition is_player_block (tag : node) : bool :=
  let class_text := Py.join " " (classes tag) in
  let id_text := get_or_empty tag "id" in
  (search_words PLAYER_CLASS_RE class_text
   || search_words PLAYER_CLASS_RE id_text)
  && negb (bool_decide (is_Some (find "img" tag))
           || bool_decide (is_Some (find "picture" tag)))
  && (String.length (get_text tag) <=? 20).

(** [_strip_player_controls]: five loops, each over the tags listed before
    it starts.  The loops over the tags with an [aria-label], a [title] and
    a [role] read an attribute of every tag listed, also of one that has
    gone with an ancestor removed earlier in the same loop, and [Tag.get]
    raises on such a tag; the last loop skips them.  The embedding gives
    what the loops leave when that does not happen. *)
Definition _strip_player_controls (container : node) : node :=
  let container :=
    prune (named_any ["audio"; "video"; "source"; "track"]) container in
  let container :=
    prune (λ tag, _attr_contains tag "aria-label" control_needles) container in
  let container :=
    prune (λ tag, _attr_contains tag "title" control_needles) container in
  let container :=
    prune (λ tag,
             match get tag "role" with
             | Some role =>
                 (String.eqb (Py.casefold role) "button"
                  || String.eqb (Py.casefold role) "link")
                 && _text_is_play tag
             | None => false
             end) container in
  prune is_player_block container.

(** ** Metadata blocks *)

(** [wp\d{2}\b] at the head of [s] *)
Definition issue_code_here (s : string) : bool :=
  match s with
  | String w (String p (String d1 (String d2 rest))) =>
      Ascii.eqb (Py.lower_char w) "w" && Ascii.eqb (Py.lower_char p) "p"
      && Py.is_digit d1 && Py.is_digit d2
      && match rest with
         | "" => true
         | String c _ => negb (Py.is_word c)
         end
  | _ => false
  end.

(** [ISSUE_RE.search(s)], with [\bwp\d{2}\b] under [re.IGNORECASE];
    [after_word] tells whether the character before [s] is in [\w]. *)
Fixpoint search_issue_code (after_word : bool) (s : string) : bool :=
  match s with
  | "" => false
  | String c s' =>
      (negb after_word && issue_code_here s)
      || search_issue_code (Py.is_word c) s'
  end.

Definition ISSUE_RE_search (s : string) : bool := search_issue_code false s.

Definition metadata_candidates : list string :=
  ["section"; "div"; "p"; "ul"; "ol"; "li"; "footer"; "aside";
   "h2"; "h3"; "h4"; "h5"; "h6"].

(** The rules of [_strip_metadata_blocks] on the text and attributes of one
    candidate whose text is not empty. *)
Definition metadata_rules (tag : node) (title : option string) : bool :=
  let text := get_text tag in
  let normalized := Py.join " " (Py.split_ws text) in
  let lowered := Py.casefold normalized in
  let is_short := String.length normalized <=? 250 in
  let class_id := id_and_classes tag in
  let upper := Py.upper normalized in
  (Py.truthy class_id && search_words METADATA_CLASS_RE class_id && is_short)
  || ((Py.contains "THE WATCHTOWER" upper || Py.contains "AWAKE!" upper)
      && is_short)
  || (ISSUE_RE_search normalized
      && (Py.contains "No." normalized || Py.contains "pp." normalized
          || Py.contains "pp " normalized)
      && is_short)
  || (truthy_opt title && Py.contains "english" lowered
      && Py.contains (Py.casefold (default "" title)) lowered && is_short).

(** The candidate is removed: it does not hold the title node, it has text,
    and a rule applies. *)
Definition is_metadata_block (title : option string) (title_node : option ident)
    (tag : node) : bool :=
  named_any metadata_candidates tag
  && negb (_contains_node tag title_node)
  && Py.truthy (get_text tag)
  && metadata_rules tag title.

Definition _strip_metadata_blocks (container : node) (title : option string)
    (title_node : option ident) : node :=
  prune (is_metadata_block title title_node) container.

(** ** Images and figures *)

(** An entry of the image list. *)
Record Image : Type := mkImage {
  url : string;
  alt : option string;
  caption : option string;
}.

(** [s.split(sep)] for a separator of one character *)
Fixpoint split_on (sep : ascii) (s : string) : list string :=
  match s with
  | "" => [""]
  | String c s' =>
      if Ascii.eqb c sep then "" :: split_on sep s'
      else
        match split_on sep s' with
        | [] => [String c ""]
        | part :: parts => String c part :: parts
        end
  end.

(** [s[:-1]] *)
Fixpoint drop_last (s : string) : string :=
  match s with
  | "" => ""
  | String c "" => ""
  | String c s' => String c (drop_last s')
  end.

(** A Python [float]: a number, an infinity or [nan]. *)
Inductive pyfloat : Type :=
| Finite (value : Q)
| PosInf
| NegInf
| NaN.

(** [a < b] on floats: false whenever one of them is [nan]. *)
Definition float_lt (a b : pyfloat) : bool :=
  match a, b with
  | NaN, _ | _, NaN => false
  | _, NegInf | PosInf, _ => false
  | NegInf, _ | _, PosInf => true
  | Finite p, Finite q => negb (Qle_bool q p)
  end.

(** [a == b] on floats: [nan] equals nothing, itself included. *)
Definition float_eq (a b : pyfloat) : bool :=
  match a, b with
  | Finite p, Finite q => Qeq_bool p q
  | PosInf, PosInf | NegInf, NegInf => true
  | _, _ => false
  end.

(** [a <= b] on the keys [(score, index)] of the source-set candidates, as
    Python compares tuples.  On keys without [nan] it is a total order, and
    sorting by it is what [list.sort] does.  With a [nan] among the scores
    it is no order, and what [list.sort] returns then depends on its
    algorithm. *)
Definition srcset_key_le (a b : pyfloat * nat) : Prop :=
  Is_true (float_lt a.1 b.1 || (float_eq a.1 b.1 && (a.2 <=? b.2))).

(** A candidate of a source set: score, index, URL. *)
Definition srcset_candidate : Type := pyfloat * nat * string.

Section Media.

(** [float(text)], [None] standing for [ValueError] *)
Context (float_of_str : string → option pyfloat).

(** [urllib.parse.urljoin] *)
Context (urljoin : string → string → string).

(** One round of the loop of [_best_src_from_srcset]: the candidate that the
    part at [index] adds, if any. *)
Definition srcset_candidate_of (index : nat) (part : string)
  : option srcset_candidate :=
  let part := Py.strip part in
  match Py.split_ws part with
  | [] => None
  | url :: rest =>
      let score :=
        match rest with
        | descriptor :: _ =>
            if Py.endswith descriptor "w" || Py.endswith descriptor "x" then
              default (Finite 0) (float_of_str (drop_last descriptor))
            else Finite 0
        | [] => Finite 0
        end in
      Some (score, index, url)
  end.

(** The candidates are sorted by their keys and the last one is taken.  The
    sort is a merge sort: it gives what [list.sort] gives whenever no score
    is [nan]. *)
Definition _best_src_from_srcset (srcset : string) : option string :=
  let candidates :=
    omap id (imap srcset_candidate_of (split_on "," srcset)) in
  let sorted :=
    merge_sort (λ a b : srcset_candidate,
                  srcset_key_le (a.1.1, a.1.2) (b.1.1, b.1.2)) candidates in
  (λ item : srcset_candidate, item.2) <$> last sorted.

(** The value left in [src] by a loop [for attr in ...: src = img.get(attr);
    if src: break], as far as its truth value goes. *)
Definition first_truthy (img : node) (attrs : list string) : option string :=
  head (List.filter Py.truthy (omap (get img) attrs)).

Definition lazy_attrs : list string :=
  ["data-original"; "data-largest"; "data-large"; "data-medium";
   "data-small"; "data-smallest"].

Definition redundant_attrs : list string :=
  ["data-src"; "data-srcset"; "data-original"; "data-largest"; "data-large";
   "data-medium"; "data-small"; "data-smallest"; "srcset"].

(** The source that [_normalize_img_tag] settles on, [None] when it finds
    none. *)
Definition img_source (img : node) : option string :=
  let src := or_else (get img "data-src") (get img "src") in
  let src := if truthy_opt src then src else first_truthy img lazy_attrs in
  let src :=
    if truthy_opt src then src
    else
      let srcset := or_else (get img "srcset") (get img "data-srcset") in
      if truthy_opt srcset then _best_src_from_srcset (default "" srcset)
      else src in
  if truthy_opt src then src else None.

(** The tag with the attributes [attrs]. *)
Definition with_attrs (n : node) (attrs : list (string * string)) : node :=
  match n with
  | Text _ => n
  | Tag u name _ cs => Tag u name attrs cs
  end.

Definition attrs_of (n : node) : list (string * string) :=
  match n with
  | Text _ => []
  | Tag _ _ attrs _ => attrs
  end.

(** The image once its source is settled: [src] is set and the attributes
    that are of no more use are deleted. *)
Definition normalized_img (img : node) (abs_src : string) : node :=
  let attrs := dict_set (attrs_of img) "src" abs_src in
  let attrs := foldl dict_del attrs redundant_attrs in
  with_attrs img attrs.

(** [_normalize_img_tag]: [None] when the image is removed, else the image as
    the call leaves it together with the value returned. *)
Definition _normalize_img_tag (img : node) (base_url : string)
  : option (node * string) :=
  match img_source img with
  | None => None
  | Some src =>
      let abs_src := urljoin base_url src in
      Some (normalized_img img abs_src, abs_src)
  end.

(** A loop over [find_all] that rewrites or removes tags by their own
    attributes: [f] is applied to every tag below the root. *)
Fixpoint update_descendants (f : node → option node) (n : node) : node :=
  match n with
  | Text _ => n
  | Tag u name attrs cs =>
      Tag u name attrs
          (omap (λ c, if is_tag c then f (update_descendants f c)
                      else Some c) cs)
  end.

Definition _normalize_links (container : node) (base_url : string) : node :=
  update_descendants
    (λ anchor,
       if named "a" anchor && truthy_opt (get anchor "href") then
         Some (with_attrs anchor
                 (dict_set (attrs_of anchor) "href"
                    (urljoin base_url (get_or_empty anchor "href"))))
       else Some anchor)
    container.

Definition _normalize_images (container : node) (base_url : string) : node :=
  update_descendants
    (λ img, if named "img" img then fst <$> _normalize_img_tag img base_url
            else Some img)
    container.

(** What one figure leaves in its place when the loop of
    [_normalize_figures] gets through it: nothing, or its first image,
    normalized.  For a caption with text the code calls
    [_get_soup(figure).new_tag].  A figure is a [Tag] and no
    [BeautifulSoup] object, and a [Tag] has no attribute [soup], so that
    [figure.soup] is [figure.find("soup")]: [None] in a figure without a
    tag of that name, and the call raises [AttributeError].  With such a tag
    [new_tag] is looked for as a tag below it in the same way: the call then
    is a call of [None], or it yields a list of tags that cannot be
    inserted. *)
Definition flatten_figure (base_url : string) (figure : node)
  : outcome (list node) :=
  match find "img" figure with
  | None => Return []
  | Some img =>
      match _normalize_img_tag img base_url with
      | None => Return []
      | Some (img', _) =>
          let caption_text :=
            match find "figcaption" figure with
            | Some figcaption =>
                let text := get_text figcaption in
                if Py.truthy text then Some text else None
            | None => None
            end in
          match caption_text with
          | Some _ =>
              match find "soup" figure with
              | None => Raise AttributeError
              | Some soup =>
                  match find "new_tag" soup with
                  | None => Raise TypeError
                  | Some _ => Raise AttributeError
                  end
              end
          | None => Return [img']
          end
      end
  end.

(** [_normalize_figures].  The figures are met in document order; one that
    lies in another has gone with it when its turn comes.  The first figure
    that raises ends the loop. *)
Fixpoint _normalize_figures (container : node) (base_url : string)
  : outcome node :=
  match container with
  | Text _ => Return container
  | Tag u name attrs cs =>
      contents ←!
        (fix each (siblings : list node) : outcome (list node) :=
           match siblings with
           | [] => Return []
           | c :: following =>
               left ←! (if named "figure" c then flatten_figure base_url c
                        else c' ←! _normalize_figures c base_url;
                             Return [c']);
               rest ←! each following;
               Return (left ++ rest)
           end) cs;
      Return (Tag u name attrs contents)
  end.

End Media.

(** The tags below [n] that are in no figure: those whose contents the loop of
    [_normalize_figures] reaches. *)
Fixpoint outside_figures (n : node) : list node :=
  match n with
  | Text _ => []
  | Tag _ _ _ cs =>
      flat_map (λ c, if named "figure" c || negb (is_tag c) then []
                     else c :: outside_figures c) cs
  end.

(** [img.find_next_sibling()]: the next sibling that is a tag. *)
Definition next_tag (following : list node) : option node :=
  head (List.filter is_tag following).

(** [alt = img.get("alt")], stripped, and [None] when nothing is left. *)
Definition image_alt (img : node) : option string :=
  match get img "alt" with
  | Some a => if Py.truthy (Py.strip a) then Some (Py.strip a) else None
  | None => None
  end.

(** One round of the loop of [_collect_images] for the image [img], whose
    later siblings are [following]. *)
Definition image_entry (img : node) (following : list node) : option Image :=
  match get img "src" with
  | None => None
  | Some src =>
      if negb (Py.truthy src) then None
      else
        let alt := image_alt img in
        let caption :=
          match next_tag following with
          | Some next_sibling =>
              if named "p" next_sibling then
                match find "em" next_sibling with
                | Some em =>
                    let em_text := get_text em in
                    let p_text := get_text next_sibling in
                    if Py.truthy em_text && String.eqb em_text p_text
                    then Some em_text else None
                | None => None
                end
              else None
          | None => None
          end in
        Some {| url := src; alt := alt; caption := caption |}
  end.

(** The entries of the images below [n], in document order. *)
Fixpoint images_below (n : node) : list Image :=
  match n with
  | Text _ => []
  | Tag _ _ _ cs =>
      (fix scan (siblings : list node) : list Image :=
         match siblings with
         | [] => []
         | c :: following =>
             (if named "img" c then option_list (image_entry c following)
              else [])
             ++ images_below c ++ scan following
         end) cs
  end.

Definition _collect_images (container : node) : list Image :=
  images_below container.

(** ** The fallback image *)

(** A value decoded by [json.loads]; an object keeps its members in order. *)
#[local] Unset Elimination Schemes.
Inductive json : Type :=
| JNull
| JBool (b : bool)
| JNumber (literal : string)
| JString (s : string)
| JArray (items : list json)
| JObject (members : list (string * json)).
#[local] Set Elimination Schemes.

Fixpoint json_get (members : list (string * json)) (key : string)
  : option json :=
  match members with
  | [] => None
  | (k, v) :: members' =>
      if String.eqb k key then Some v else json_get members' key
  end.

(** The string under ["url"] of an object that has one. *)
Definition url_member (j : json) : option string :=
  match j with
  | JObject members =>
      match json_get members "url" with
      | Some (JString s) => Some s
      | _ => None
      end
  | _ => None
  end.

(** What the value under ["image"] or ["thumbnailUrl"] returns at once. *)
Definition image_of_value (value : json) : option string :=
  match value with
  | JString s => Some s
  | JArray items =>
      head (omap (λ item, match item with
                          | JString s => Some s
                          | _ => url_member item
                          end) items)
  | JObject _ => url_member value
  | _ => None
  end.

Definition image_of_members (members : list (string * json)) : option string :=
  match json_get members "image" ≫= image_of_value with
  | Some s => Some s
  | None => json_get members "thumbnailUrl" ≫= image_of_value
  end.

Fixpoint _extract_jsonld_image_value (payload : json) : option string :=
  match payload with
  | JObject members =>
      match image_of_members members with
      | Some s => Some s
      | None =>
          (fix scan (ms : list (string * json)) : option string :=
             match ms with
             | [] => None
             | (_, nested) :: ms' =>
                 let url := _extract_jsonld_image_value nested in
                 if truthy_opt url then url else scan ms'
             end) members
      end
  | JArray items =>
      (fix scan (l : list json) : option string :=
         match l with
         | [] => None
         | item :: l' =>
             let url := _extract_jsonld_image_value item in
             if truthy_opt url then url else scan l'
         end) items
  | _ => None
  end.

Definition meta_keys : list (string * string) :=
  [("property", "og:image"); ("property", "og:image:secure_url");
   ("name", "twitter:image"); ("name", "twitter:image:src");
   ("itemprop", "image")].

Definition _extract_meta_image (soup : node) : option string :=
  head (omap (λ '(attr, key),
                match head (find_all_with "meta" attr key soup) with
                | Some tag =>
                    if truthy_opt (get tag "content")
                    then Some (Py.strip (get_or_empty tag "content"))
                    else None
                | None => None
                end) meta_keys).

(** [s[n:]] *)
Fixpoint drop_chars (n : nat) (s : string) : string :=
  match n, s with
  | S k, String _ s' => drop_chars k s'
  | _, _ => s
  end.

Definition _extract_image_link (soup : node)
  : option string * option string :=
  match
    head (omap (λ anchor,
                  let text := get_text anchor in
                  if Py.truthy text && Py.startswith text "Image:"
                     && truthy_opt (get anchor "href")
                  then
                    let rest := Py.strip (drop_chars 6 text) in
                    Some (get anchor "href",
                          if Py.truthy rest then Some rest else None)
                  else None)
               (find_all ["a"] soup))
  with
  | Some found => found
  | None => (None, None)
  end.

(** The characters that the class at the end of the CDN patterns admits:
    no white space, no quotation mark, no apostrophe, no angle bracket. *)
Definition cdn_url_char (c : ascii) : bool :=
  negb (Py.is_space c || Ascii.eqb c Py.QUOTE || Ascii.eqb c "'"
        || Ascii.eqb c "<" || Ascii.eqb c ">").

(** A match of [https?://], [host_path] and one or more admitted characters,
    under [re.IGNORECASE], at the head of [s]. *)
Definition match_cdn_at (host_path : string) (s : string) : option string :=
  let with_literal (literal : string) :=
    match match_ci literal s with
    | Some (m, rest) =>
        let '(run, _) := take_until (λ c, negb (cdn_url_char c)) rest in
        if Py.truthy run then Some (m +:+ run) else None
    | None => None
    end in
  match with_literal ("https://" +:+ host_path) with
  | Some m => Some m
  | None => with_literal ("http://" +:+ host_path)
  end.

(** [pattern.findall(html)]: the matches from left to right, none
    overlapping; [skip] characters belong to the match before. *)
Fixpoint findall_cdn (host_path : string) (skip : nat) (html : string)
  : list string :=
  match html with
  | "" => []
  | String _ html' =>
      match skip with
      | S k => findall_cdn host_path k html'
      | 0 =>
          match match_cdn_at host_path html with
          | Some m => m :: findall_cdn host_path (String.length m - 1) html'
          | None => findall_cdn host_path 0 html'
          end
      end
  end.

Definition CMS_IMAGE_RE_findall (html : string) : list string :=
  findall_cdn "cms-imgp.jw-cdn.org/img/p/" 0 html.

Definition AKAMAI_IMAGE_RE_findall (html : string) : list string :=
  findall_cdn "assetsnffrgf-a.akamaihd.net/assets/" 0 html.

(** The image that a list of CDN matches gives, if any. *)
Definition best_cdn_image (urls : list string) : option Image :=
  match urls with
  | [] => None
  | _ =>
      match _pick_best_image_url urls with
      | Some best =>
          if Py.truthy best
          then Some {| url := best; alt := None; caption := None |}
          else None
      | None => None
      end
  end.

(** ** The pipeline *)

Record ExtractionResult : Type := mkExtractionResult {
  markdown : string;
  title : option string;
  source_url : string;
  images : list Image;
}.

Definition _insert_fallback_image (markdown : string) (image : Image)
  : string :=
  let alt := if truthy_opt (alt image) then default "" (alt image) else "" in
  let image_md := "![" +:+ alt +:+ "](" +:+ url image +:+ ")" in
  if negb (Py.truthy (Py.strip markdown)) then image_md
  else
    let lines := Py.splitlines markdown in
    match list_find nonblank lines with
    | Some (idx, line) =>
        if Py.startswith line "# " then
          let head := Py.join Py.nl (take (idx + 1) lines) in
          let tail := Py.strip (Py.join Py.nl (drop (idx + 1) lines)) in
          if Py.truthy tail then
            head +:+ Py.nl +:+ Py.nl +:+ image_md +:+ Py.nl +:+ Py.nl +:+ tail
          else head +:+ Py.nl +:+ Py.nl +:+ image_md
        else image_md +:+ Py.nl +:+ Py.nl +:+ markdown
    | None => image_md +:+ Py.nl +:+ Py.nl +:+ markdown
    end.

(** The last step of [extract_from_html]: the fallback image comes in when
    the container gave no image. *)
Definition with_fallback_image (images : list Image) (markdown : string)
    (title : option string) (fallback_image : option Image)
  : list Image * string :=
  match images, fallback_image with
  | [], Some image =>
      let image :=
        if negb (truthy_opt (alt image))
        then {| url := url image; alt := title; caption := caption image |}
        else image in
      ([image], _insert_fallback_image markdown image)
  | _, _ => (images, markdown)
  end.

Section Pipeline.

Context (float_of_str : string → option pyfloat).
Context (urljoin : string → string → string).

(** [BeautifulSoup(html, "lxml")]: the root of the parsed document. *)
Context (BeautifulSoup : string → node).

(** [markdownify(str(container), heading_style="ATX", bullets="-")] *)
Context (markdownify : node → string).

(** [Document(html).summary(html_partial=True)] and [Document(html).title()]
    of the readability package. *)
Context (readability_summary : string → string).
Context (readability_title : string → option string).

(** [json.loads], [None] standing for [JSONDecodeError]. *)
Context (json_loads : string → option json).

Definition _extract_jsonld_image (soup : node) : option string :=
  head (omap (λ script,
                match tag_string script with
                | Some text =>
                    if Py.truthy text then
                      match json_loads text with
                      | Some payload =>
                          let url := _extract_jsonld_image_value payload in
                          if truthy_opt url then url else None
                      | None => None
                      end
                    else None
                | None => None
                end)
             (find_all_with "script" "type" "application/ld+json" soup)).

Definition _extract_fallback_image (html : string) (soup : node)
    (base_url : string) : option Image :=
  let resolved (src : string) (alt : option string) :=
    Some {| url := urljoin base_url src; alt := alt; caption := None |} in
  let meta_image := _extract_meta_image soup in
  if truthy_opt meta_image then resolved (default "" meta_image) None
  else
    let jsonld_image := _extract_jsonld_image soup in
    if truthy_opt jsonld_image then resolved (default "" jsonld_image) None
    else
      let '(link_url, link_alt) := _extract_image_link soup in
      if truthy_opt link_url then resolved (default "" link_url) link_alt
      else
        match best_cdn_image (CMS_IMAGE_RE_findall html) with
        | Some image => Some image
        | None => best_cdn_image (AKAMAI_IMAGE_RE_findall html)
        end.

Definition _readability_fallback (html : string) : node * option string :=
  let summary_soup := BeautifulSoup (readability_summary html) in
  let container := default summary_soup (find "body" summary_soup) in
  (container, readability_title html).

Definition _html_to_markdown (container : node) : string :=
  Py.strip (collapse_newlines (markdownify container)).

(** The container after all the clean-up of [extract_from_html], with the
    title. *)
Definition cleaned_container (html base_url : string)
  : outcome (node * option string) :=
  let soup := _remove_unwanted_tags (BeautifulSoup html) in
  let '(container, fallback_title) :=
    match _select_container soup with
    | Some container => (container, None)
    | None => _readability_fallback html
    end in
  let title := _extract_title container soup fallback_title in
  let title_node := _find_title_node container title in
  let container := _strip_player_controls container in
  let container := _strip_metadata_blocks container title title_node in
  let container := _normalize_links urljoin container base_url in
  container ←! _normalize_figures float_of_str urljoin container base_url;
  let container := _normalize_images float_of_str urljoin container base_url in
  Return (container, title).

Definition extract_from_html (html base_url : string)
  : outcome ExtractionResult :=
  let fallback_image :=
    _extract_fallback_image html (BeautifulSoup html) base_url in
  cleaned ←! cleaned_container html base_url;
  let '(container, title) := cleaned in
  let images := _collect_images container in
  let markdown := _html_to_markdown container in
  let markdown := _ensure_markdown_title markdown title in
  let '(images, markdown) :=
    with_fallback_image images markdown title fallback_image in
  Return {| markdown := markdown;
            title := title;
            source_url := base_url;
            images := images |}.

End Pipeline.

(** ** Absolute URLs *)

(** The characters of a URI scheme after its first letter. *)
Definition scheme_char (c : ascii) : bool :=
  Py.is_alnum c || Ascii.eqb c "+" || Ascii.eqb c "-" || Ascii.eqb c ".".

(** [s] is scheme characters up to a colon. *)
Fixpoint scheme_tail (s : string) : bool :=
  match s with
  | "" => false
  | String c s' => Ascii.eqb c ":" || (scheme_char c && scheme_tail s')
  end.

(** A URL is absolute when it begins with a scheme: a letter, scheme
    characters, a colon. *)
Definition is_absolute_url (u : string) : bool :=
  match u with
  | "" => false
  | String c s => Py.is_alpha c && scheme_tail s
  end.

(** The URL was resolved against the base URL. *)
Definition resolved (urljoin : string → string → string) (base_url u : string)
  : Prop :=
  ∃ ref, u = urljoin base_url ref.

(** Text that [strip] leaves as it is and that is not empty. *)
Definition solid (s : string) : Prop :=
  s ≠ "" ∧ Py.lstrip s = s ∧ Py.rstrip s = s.

(** ** Plain instances of the collaborators

    They stand in for the packages where a property is evaluated on an
    example. *)

(** The schemes that [urllib.parse.urljoin] resolves references against:
    [urllib.parse.uses_relative], the empty scheme apart. *)
Definition uses_relative : list string :=
  ["ftp"; "http"; "gopher"; "nntp"; "imap"; "wais"; "file"; "https"; "shttp";
   "mms"; "prospero"; "rtsp"; "rtspu"; "sftp"; "svn"; "svn+ssh"; "ws"; "wss"].

(** The path up to its last [/], that slash included. *)
Fixpoint up_to_last_slash (path : string) : string :=
  match path with
  | "" => ""
  | String c path' =>
      if Py.contains "/" path' then String c (up_to_last_slash path')
      else if Ascii.eqb c "/" then "/" else ""
  end.

(** Reference resolution for a base of the shape [scheme://host/path] and a
    reference written without white space or control characters: a
    reference with a scheme stands for itself; against a base whose scheme
    is not in [uses_relative] every reference stands for itself, as in
    [urllib.parse.urljoin]; else [//host/path] takes the scheme of the base,
    [/path] its scheme and host, and any other reference replaces what
    follows the last [/] of the base path.  Dot segments are left as
    written. *)
Definition simple_urljoin (base ref : string) : string :=
  if negb (Py.truthy base) then ref
  else if negb (Py.truthy ref) then base
  else if is_absolute_url ref then ref
  else if negb (is_absolute_url base) then ref
  else
    let '(sch, rest) := take_until (Ascii.eqb ":") base in
    if negb (bool_decide (Py.lower sch ∈ uses_relative)) then ref
    else
      let after_colon := drop_chars 1 rest in
      let '(netloc, path) :=
        if Py.startswith after_colon "//" then
          take_until
            (λ c, Ascii.eqb c "/" || Ascii.eqb c "?" || Ascii.eqb c "#")
            (drop_chars 2 after_colon)
        else ("", after_colon) in
      let '(path, _) :=
        take_until (λ c, Ascii.eqb c "?" || Ascii.eqb c "#") path in
      if Py.startswith ref "//" then sch +:+ ":" +:+ ref
      else if Py.startswith ref "/" then sch +:+ "://" +:+ netloc +:+ ref
      else sch +:+ "://" +:+ netloc +:+ up_to_last_slash path +:+ ref.

(** A renderer that writes an image as [![alt](src)], emphasis between
    asterisks, a heading of level 1 behind ["# "], and sets paragraphs and
    images apart by blank lines. *)
Fixpoint simple_markdownify (n : node) : string :=
  match n with
  | Text s => s
  | Tag _ name attrs cs =>
      let inner := Py.join "" (simple_markdownify <$> cs) in
      if String.eqb name "img" then
        "![" +:+ default "" (dict_get attrs "alt") +:+ "]("
        +:+ default "" (dict_get attrs "src") +:+ ")" +:+ Py.nl +:+ Py.nl
      else if String.eqb name "em" then "*" +:+ inner +:+ "*"
      else if String.eqb name "h1" then
        Py.nl +:+ Py.nl +:+ "# " +:+ inner +:+ Py.nl +:+ Py.nl
      else if String.eqb name "p" then
        Py.nl +:+ Py.nl +:+ inner +:+ Py.nl +:+ Py.nl
      else inner
  end.

(** A decoder of numbers written with digits only. *)
Fixpoint digits_value (acc : Z) (s : string) : option Z :=
  match s with
  | "" => Some acc
  | String c s' =>
      if Py.is_digit c
      then digits_value (10 * acc + Z.of_nat (nat_of_ascii c - 48)) s'
      else None
  end.

Definition simple_float (s : string) : option pyfloat :=
  if Py.truthy s then (λ value, Finite (inject_Z value)) <$> digits_value 0 s
  else None.


(** [extract_from_html] with the plain collaborators and a parser that
    yields [document]. *)
Definition extract_example (document : node) (html base_url : string)
  : outcome ExtractionResult :=
  extract_from_html simple_float simple_urljoin (λ _, document)
    simple_markdownify (λ _, "") (λ _, None) (λ _, None) html base_url.

(** ** Example documents *)

(** A title paragraph that the rules would remove, in a [div] that the class
    rule would remove: both stay, and the byline next to them goes. *)
Definition title_block_example : node :=
  Tag (Parsed 0) "main" []
    [Tag (Parsed 1) "div" [("class", "publication")]
       [Tag (Parsed 2) "p" [("class", "issue")] [Text "THE WATCHTOWER"];
        Text " wp24"];
     Tag (Parsed 3) "p" [("class", "share")] [Text "THE WATCHTOWER English"]].

(** The first test of the repository: a figure with a caption between two
    paragraphs. *)
Definition captioned_figure_example : node :=
  Tag (Parsed 8) "figure" []
    [Tag (Parsed 9) "img" [("src", "/images/cover.jpg"); ("alt", "Cover")] [];
     Tag (Parsed 10) "figcaption" [] [Text "Cover caption"]].

(** The document of the test of order and captions. *)
Definition captioned_document_example : node :=
  Tag (Parsed 0) "[document]" []
    [Tag (Parsed 1) "html" []
       [Tag (Parsed 2) "head" []
          [Tag (Parsed 3) "title" [] [Text "Sample Title"]];
        Tag (Parsed 4) "body" []
          [Tag (Parsed 5) "main" []
             [Tag (Parsed 6) "h1" [] [Text "Headline"];
              Tag (Parsed 7) "p" [] [Text "First paragraph."];
              captioned_figure_example;
              Tag (Parsed 11) "p" [] [Text "Second paragraph."];
              Tag (Parsed 12) "img"
                [("data-src", "/images/inline.jpg"); ("alt", "Inline")] []]]]].

(** The document of the test of the CDN fallback, and the URL in its text. *)
Definition cdn_url_example : string :=
  "https://cms-imgp.jw-cdn.org/img/p/504000002/univ/art/504000002_univ_sqr_xl.jpg".

Definition cdn_document_example : node :=
  Tag (Parsed 0) "[document]" []
    [Tag (Parsed 1) "html" []
       [Tag (Parsed 2) "head" []
          [Tag (Parsed 3) "title" [] [Text "Sample Title"]];
        Tag (Parsed 4) "body" []
          [Tag (Parsed 5) "main" []
             [Tag (Parsed 6) "p" [] [Text "Body content."]];
           Tag (Parsed 7) "div" [("class", "context")]
             [Text (" " +:+ cdn_url_example +:+ " ")]]]].

(** A figure in a figure: the inner figure holds an image whose source is
    resolved, yet it is not replaced by that image; it goes with the rest of
    the outer figure, and its image is in neither tree nor image list. *)
Definition nested_figure_example : node :=
  Tag (Parsed 0) "main" []
    [Tag (Parsed 1) "figure" []
       [Tag (Parsed 2) "img" [("src", "/a.jpg")] [];
        Tag (Parsed 3) "figure" []
          [Tag (Parsed 4) "img" [("src", "/b.jpg")] []]]].

(** The names that [_find_title_node] looks among. *)
Definition title_node_names : list string :=
  ["h1"; "h2"; "h3"; "h4"; "h5"; "h6"; "p"; "div"; "span"].

(** A document with chrome around its article. *)
Definition chrome_example : node :=
  Tag (Parsed 0) "[document]" []
    [Tag (Parsed 1) "html" []
       [Tag (Parsed 2) "head" []
          [Tag (Parsed 3) "script" [] [Text "var x;"]];
        Tag (Parsed 4) "body" []
          [Tag (Parsed 5) "nav" [] [Tag (Parsed 6) "p" [] [Text "Menu"]];
           Tag (Parsed 7) "header" [] [Text "Site"];
           Tag (Parsed 8) "article" []
             [Tag (Parsed 9) "header" [] [Text "Lead"];
              Tag (Parsed 10) "audio" [] [];
              Tag (Parsed 11) "p" [] [Text "Body."]]]]].

(** The strings in a decoded value, as they come. *)
Fixpoint json_strings (j : json) : list string :=
  match j with
  | JString s => [s]
  | JArray items => flat_map json_strings items
  | JObject members => flat_map (λ member, json_strings member.2) members
  | _ => []
  end.

(** A document whose only image is named by a link. *)
Definition image_link_example : node :=
  Tag (Parsed 0) "[document]" []
    [Tag (Parsed 1) "html" []
       [Tag (Parsed 2) "body" []
          [Tag (Parsed 3) "main" []
             [Tag (Parsed 4) "p" [] [Text "Body content."]];
           Tag (Parsed 5) "a" [("href", "/img/hero_xl.jpg")]
             [Text " Image: Hero image alt text "]]]].

(** A payload of structured data with its image in a nested object. *)
Definition jsonld_example : json :=
  JObject
    [("@type", JString "");
     ("mainEntity",
      JObject [("image", JArray [JNumber "1";
                                 JObject [("url", JString "/img/a.jpg")]])])].

(* ================================================================= *)
(** * Part II: properties *)
(* ================================================================= *)

(** ** Strings *)

Section StringFacts.

Lemma app_cons c (s t : string) : String c s +:+ t = String c (s +:+ t).
Proof. reflexivity. Qed.

Lemma app_empty_l (t : string) : "" +:+ t = t.
Proof. reflexivity. Qed.

Lemma app_empty_r (s : string) : s +:+ "" = s.
Proof. induction s as [|c s IH]; [done|]. by rewrite app_cons, IH. Qed.

Lemma app_assoc_str (a b c : string) : (a +:+ b) +:+ c = a +:+ (b +:+ c).
Proof. induction a as [|x a IH]; [done|]. by rewrite !app_cons, IH. Qed.

Lemma eqb_true_iff (a b : string) : String.eqb a b = true ↔ a = b.
Proof. apply String.eqb_eq. Qed.

Lemma eqb_false_iff (a b : string) : String.eqb a b = false ↔ a ≠ b.
Proof. apply String.eqb_neq. Qed.

Lemma one_line_cons c s :
  one_line (String c s) ↔ Py.is_linebreak c = false ∧ one_line s.
Proof.
  unfold one_line; simpl. rewrite andb_true_iff, negb_true_iff. done.
Qed.

Lemma one_line_app a b : one_line a → one_line b → one_line (a +:+ b).
Proof.
  induction a as [|c a IH]; [done|].
  rewrite app_cons, !one_line_cons. intros [Hc Ha] Hb. by split; [|apply IH].
Qed.

Lemma one_line_lstrip s : one_line s → one_line (Py.lstrip s).
Proof.
  induction s as [|c s IH]; [done|]. simpl.
  destruct (Py.is_space c); [|done].
  rewrite one_line_cons. intros [_ Hs]. by apply IH.
Qed.

Lemma one_line_rstrip s : one_line s → one_line (Py.rstrip s).
Proof.
  induction s as [|c s IH]; [done|]. simpl.
  rewrite one_line_cons. intros [Hc Hs]. specialize (IH Hs).
  destruct (Py.rstrip s) as [|d r].
  - destruct (Py.is_space c); [done|]. by apply one_line_cons.
  - by apply one_line_cons.
Qed.

Lemma one_line_strip s : one_line s → one_line (Py.strip s).
Proof. intros. by apply one_line_rstrip, one_line_lstrip. Qed.

Lemma rstrip_idem s : Py.rstrip (Py.rstrip s) = Py.rstrip s.
Proof.
  induction s as [|c s IH]; [done|]. simpl.
  destruct (Py.rstrip s) as [|d r] eqn:E.
  - destruct (Py.is_space c) eqn:Ec; [done|]. simpl. by rewrite Ec.
  - simpl in *. by rewrite IH.
Qed.

(** Text that is already stripped on the right stays so behind any
    prefix. *)
Lemma rstrip_app_stripped a t :
  t ≠ "" → Py.rstrip t = t → Py.rstrip (a +:+ t) = a +:+ t.
Proof.
  intros Ht Hr. induction a as [|c a IH]; [done|].
  rewrite app_cons. simpl. rewrite IH.
  destruct (a +:+ t) eqn:E; [|done].
  destruct a; [|done]. simpl in E. done.
Qed.

Lemma strip_heading t :
  t ≠ "" → Py.rstrip t = t → Py.strip ("# " +:+ t) = "# " +:+ t.
Proof. intros. unfold Py.strip. by apply (rstrip_app_stripped "# "). Qed.

Lemma strip_rstrip_fixed s : Py.rstrip (Py.strip s) = Py.strip s.
Proof. apply rstrip_idem. Qed.

(** Every line of [splitlines] is free of line boundaries. *)
Lemma splitlines_one_line_bounded n s :
  String.length s ≤ n → Forall one_line (Py.splitlines s).
Proof.
  revert s. induction n as [|n IH]; intros [|c s] Hn; simpl in *;
    try by constructor.
  { lia. }
  assert (Forall one_line (Py.splitlines s)) as Hs by (apply IH; lia).
  destruct (Py.is_linebreak c) eqn:Ec.
  - constructor; [done|].
    destruct (Ascii.eqb c Py.CR); [|done].
    destruct s as [|c' s']; [done|].
    destruct (Ascii.eqb c' Py.LF); [|done].
    apply IH. simpl in Hn. lia.
  - destruct (Py.splitlines s) as [|l rest].
    + constructor; [|done]. apply one_line_cons. done.
    + inversion Hs; subst. constructor; [|done]. by apply one_line_cons.
Qed.

Lemma splitlines_one_line s : Forall one_line (Py.splitlines s).
Proof. by apply (splitlines_one_line_bounded (String.length s)). Qed.

Lemma splitlines_line_nl l s :
  one_line l → Py.splitlines (l +:+ String Py.LF s) = l :: Py.splitlines s.
Proof.
  induction l as [|c l IH]; [done|].
  rewrite one_line_cons, app_cons. intros [Hc Hl]. simpl.
  by rewrite Hc, IH.
Qed.

Lemma splitlines_single l : one_line l → l ≠ "" → Py.splitlines l = [l].
Proof.
  induction l as [|c l IH]; [done|].
  rewrite one_line_cons. intros [Hc Hl] _. simpl. rewrite Hc.
  destruct l as [|d l]; [done|]. by rewrite IH.
Qed.

Lemma join_cons_cons sep a b l :
  Py.join sep (a :: b :: l) = a +:+ sep +:+ Py.join sep (b :: l).
Proof. reflexivity. Qed.

Lemma join_singleton sep a : Py.join sep [a] = a.
Proof. reflexivity. Qed.

(** Joining lines and splitting them again finds the same first non-blank
    line at the same index. *)
Lemma list_find_splitlines_join (ls : list string) idx h :
  Forall one_line ls →
  ls !! idx = Some h → nonblank h →
  (∀ j y, ls !! j = Some y → j < idx → ¬ nonblank y) →
  list_find nonblank (Py.splitlines (Py.join Py.nl ls)) = Some (idx, h).
Proof.
  revert idx. induction ls as [|l ls IH]; intros idx Hall Hidx Hh Hbefore;
    [done|].
  inversion Hall as [|? ? Hl Hls]; subst.
  assert (∃ rest, Py.splitlines (Py.join Py.nl (l :: ls)) = l :: rest
            ∧ (ls ≠ [] → rest = Py.splitlines (Py.join Py.nl ls)))
    as (rest & Hsplit & Hrest).
  { destruct ls as [|l2 ls].
    - destruct idx; [|done]. simpl in Hidx. simplify_eq.
      exists []. split; [|done]. rewrite join_singleton.
      apply splitlines_single; [done|]. intros ->. by apply Hh.
    - eexists. rewrite join_cons_cons. unfold Py.nl at 1.
      rewrite app_cons, app_empty_l.
      rewrite splitlines_line_nl by done. done. }
  rewrite Hsplit. destruct idx as [|idx]; simpl in Hidx.
  - simplify_eq. simpl. by rewrite decide_True.
  - simpl. rewrite decide_False by (apply (Hbefore 0); [done|lia]).
    rewrite Hrest by (intros ->; done).
    rewrite (IH idx); [done|done|done|done|].
    intros j y Hj Hlt. apply (Hbefore (S j)); [done|lia].
Qed.

Lemma heading_neq t : "# " +:+ t ≠ t.
Proof.
  intros E. apply (f_equal String.length) in E.
  rewrite !app_cons, app_empty_l in E. simpl in E. lia.
Qed.

End StringFacts.

(** ** The title heading *)

Section TitleHeading.

Implicit Types markdown title line : string.

Lemma ensure_title_unfold markdown title :
  title ≠ "" →
  _ensure_markdown_title markdown (Some title) =
    match list_find nonblank (Py.splitlines markdown) with
    | None => markdown
    | Some (idx, line) =>
        if String.eqb (Py.strip line) ("# " +:+ title) then markdown
        else if String.eqb (Py.strip line) title then
               Py.join Py.nl (<[idx := "# " +:+ title]> (Py.splitlines markdown))
             else markdown
    end.
Proof.
  intros Ht. unfold _ensure_markdown_title, Py.truthy.
  apply eqb_false_iff in Ht. by rewrite Ht.
Qed.

(** C7: with a title detected, the first non-blank line of the markdown
    decides the result.  If, stripped, it equals the title, the markdown
    becomes its lines joined by newlines with that line replaced by the
    level-1 heading ["# " + title]; if it is anything else, the heading
    itself included, or if every line is blank, the markdown is returned
    as it is. *)
Theorem ensure_markdown_title_first_line markdown title :
  title ≠ "" →
  let lines := Py.splitlines markdown in
  (∀ idx line,
      lines !! idx = Some line → nonblank line →
      (∀ j l, lines !! j = Some l → j < idx → ¬ nonblank l) →
      (Py.strip line = title →
         _ensure_markdown_title markdown (Some title)
         = Py.join Py.nl (<[idx := "# " +:+ title]> lines))
      ∧ (Py.strip line ≠ title →
         _ensure_markdown_title markdown (Some title) = markdown)
      ∧ (Py.strip line = "# " +:+ title →
         _ensure_markdown_title markdown (Some title) = markdown))
  ∧ ((∀ l, l ∈ lines → ¬ nonblank l) →
       _ensure_markdown_title markdown (Some title) = markdown).
Proof.
  intros Ht lines. rewrite ensure_title_unfold by done. fold lines. split.
  - intros idx line Hidx Hline Hbefore.
    assert (list_find nonblank lines = Some (idx, line)) as ->
      by (by apply list_find_Some).
    split; [|split].
    + intros Heq. rewrite Heq.
      rewrite (proj2 (eqb_false_iff _ _)) by (intros E; by apply (heading_neq title)).
      by rewrite String.eqb_refl.
    + intros Hne. apply eqb_false_iff in Hne. rewrite Hne.
      by destruct (String.eqb (Py.strip line) ("# " +:+ title)).
    + intros Heq. by rewrite Heq, String.eqb_refl.
  - intros Hblank. destruct (list_find nonblank lines) as [[idx line]|] eqn:E;
      [|done].
    apply list_find_Some in E as (Hidx & Hline & _).
    exfalso. eapply Hblank; [|done]. by eapply list_elem_of_lookup_2.
Qed.

Lemma ensure_markdown_title_first_line_witness :
  _ensure_markdown_title (Py.nl +:+ "  Good News " +:+ Py.nl +:+ "Body")
    (Some "Good News")
  = Py.nl +:+ "# Good News" +:+ Py.nl +:+ "Body".
Proof.
  pose proof (ensure_markdown_title_first_line
                (Py.nl +:+ "  Good News " +:+ Py.nl +:+ "Body") "Good News") as H.
  destruct H as [H _]; [done|].
  destruct (H 1 "  Good News ") as [H1 _]; [done|by vm_compute| |].
  - intros [|j] l Hj Hlt; [|lia]. vm_compute in Hj. simplify_eq. by vm_compute.
  - by rewrite H1.
Defined.

(** C10: rewriting the title heading is idempotent. *)
Theorem ensure_markdown_title_idempotent markdown (title : option string) :
  _ensure_markdown_title (_ensure_markdown_title markdown title) title
  = _ensure_markdown_title markdown title.
Proof.
  destruct title as [t|]; [|done].
  destruct (decide (t = "")) as [->|Ht]; [done|].
  rewrite (ensure_title_unfold markdown) by done.
  destruct (list_find nonblank (Py.splitlines markdown)) as [[idx line]|] eqn:E.
  2:{ rewrite ensure_title_unfold, E; done. }
  destruct (String.eqb (Py.strip line) ("# " +:+ t)) eqn:E1.
  { rewrite ensure_title_unfold, E, E1; done. }
  destruct (String.eqb (Py.strip line) t) eqn:E2.
  2:{ rewrite ensure_title_unfold, E, E1, E2; done. }
  apply eqb_true_iff in E2.
  apply list_find_Some in E as (Hidx & Hline & Hbefore).
  pose proof (splitlines_one_line markdown) as Hall.
  set (lines := Py.splitlines markdown) in *.
  set (h := "# " +:+ t).
  assert (Py.strip h = h) as Hh.
  { apply strip_heading; [done|]. rewrite <- E2. apply strip_rstrip_fixed. }
  assert (one_line h) as Hh1.
  { apply (one_line_app "# "); [done|]. rewrite <- E2. apply one_line_strip.
    by eapply Forall_lookup_1. }
  rewrite ensure_title_unfold by done.
  rewrite (list_find_splitlines_join (<[idx := h]> lines) idx h).
  - by rewrite Hh, String.eqb_refl.
  - by apply Forall_insert.
  - apply list_lookup_insert_eq. by eapply lookup_lt_Some.
  - unfold nonblank. rewrite Hh. unfold h. by rewrite app_cons.
  - intros j y Hj Hlt. rewrite list_lookup_insert_ne in Hj by lia. eauto.
Qed.

End TitleHeading.

(** ** Collapsing newlines *)

Section CollapseNewlines.

Lemma flush_newlines_0 : flush_newlines 0 = "".
Proof. reflexivity. Qed.

Lemma collapse_from_run p n s :
  collapse_newlines_from p (Py.replicate_char n Py.LF +:+ s)
  = collapse_newlines_from (p + n) s.
Proof.
  revert p. induction n as [|n IH]; intros p; simpl.
  - by rewrite app_empty_l, Nat.add_0_r.
  - rewrite IH. f_equal. lia.
Qed.

Lemma collapse_from_no_leading p b :
  no_leading_newline b →
  collapse_newlines_from p b = flush_newlines p +:+ collapse_newlines b.
Proof.
  unfold no_leading_newline, Py.startswith, collapse_newlines.
  destruct b as [|c b]; simpl.
  - by rewrite app_empty_r.
  - destruct (Ascii.eqb_spec c Py.LF) as [->|Hc].
    + destruct (ascii_dec Py.LF Py.LF); [|done]. by destruct b.
    + by rewrite flush_newlines_0, app_empty_l.
Qed.

Lemma no_trailing_newline_cons c a :
  a ≠ "" → no_trailing_newline (String c a) → no_trailing_newline a.
Proof.
  unfold no_trailing_newline. simpl. by intros _ [_ ?]%orb_false_iff.
Qed.

Lemma collapse_from_app a p t :
  a ≠ "" → no_trailing_newline a →
  collapse_newlines_from p (a +:+ t)
  = collapse_newlines_from p a +:+ collapse_newlines t.
Proof.
  revert p. induction a as [|c a IH]; intros p Hne Ha; [done|].
  rewrite app_cons. simpl.
  destruct (Ascii.eqb_spec c Py.LF) as [->|Hc].
  - destruct (decide (a = "")) as [->|Hne']; [done|].
    apply IH; [done|]. by eapply no_trailing_newline_cons.
  - rewrite app_assoc_str, app_cons. do 2 f_equal.
    destruct (decide (a = "")) as [->|Hne'].
    + by rewrite app_empty_l.
    + apply IH; [done|]. by eapply no_trailing_newline_cons.
Qed.

(** C6, as the code has it: a run of [n] newline characters between text that
    does not end in a newline and text that does not begin with one comes out
    as two newlines, one blank line, when [n] is three or more, and as it is
    when [n] is at most two.  A run of [k] blank lines between two lines of
    text is [k + 1] newlines, so runs of two or more blank lines collapse to
    one blank line and a single blank line is left as it is. *)
Theorem collapse_newlines_run a b n :
  no_trailing_newline a → no_leading_newline b →
  collapse_newlines (a +:+ Py.replicate_char n Py.LF +:+ b)
  = collapse_newlines a
    +:+ Py.replicate_char (if decide (3 ≤ n) then 2 else n) Py.LF
    +:+ collapse_newlines b.
Proof.
  intros Ha Hb.
  assert (collapse_newlines (Py.replicate_char n Py.LF +:+ b)
          = Py.replicate_char (if decide (3 ≤ n) then 2 else n) Py.LF
            +:+ collapse_newlines b) as Hrun.
  { unfold collapse_newlines at 1. rewrite collapse_from_run. simpl.
    rewrite collapse_from_no_leading by done. f_equal.
    unfold flush_newlines. case_decide.
    - by rewrite (proj2 (Nat.leb_le 3 n)).
    - by rewrite (proj2 (Nat.leb_gt 3 n)) by lia. }
  destruct (decide (a = "")) as [->|Hne].
  - by rewrite !app_empty_l.
  - unfold collapse_newlines at 1. rewrite collapse_from_app by done.
    by rewrite Hrun.
Qed.

Lemma collapse_newlines_run_witness :
  collapse_newlines ("a" +:+ Py.replicate_char 4 Py.LF +:+ "b")
  = collapse_newlines "a" +:+ Py.replicate_char 2 Py.LF +:+ collapse_newlines "b".
Proof. apply (collapse_newlines_run "a" "b" 4); reflexivity. Defined.

(** Two blank lines between two lines of text, a run of fewer than three
    blank lines, are not left as they are: one blank line remains. *)
Lemma collapse_newlines_two_blank_lines :
  let markdown := "a" +:+ Py.nl +:+ Py.nl +:+ Py.nl +:+ "b" in
  Py.splitlines markdown = ["a"; ""; ""; "b"]
  ∧ Py.splitlines (collapse_newlines markdown) = ["a"; ""; "b"]
  ∧ collapse_newlines markdown ≠ markdown.
Proof. vm_compute. by repeat split. Qed.

End CollapseNewlines.

(** ** The best CDN image *)

Section PickBest.

#[local] Instance key_le_total : Total key_le.
Proof. intros [a1 a2] [b1 b2]. unfold key_le; simpl. lia. Qed.

#[local] Instance key_le_trans : Transitive key_le.
Proof. intros [a1 a2] [b1 b2] [c1 c2]. unfold key_le; simpl. lia. Qed.

Lemma StronglySorted_last {A} (R : relation A) (l : list A) m :
  StronglySorted R l → last l = Some m → ∀ x, x ∈ l → x = m ∨ R x m.
Proof.
  induction 1 as [|y l Hl IH Hy]; intros Hlast x Hx; [by inversion Hx|].
  destruct l as [|z l].
  - simpl in Hlast. simplify_eq. apply list_elem_of_singleton in Hx. by left.
  - change (last (z :: l) = Some m) in Hlast.
    apply elem_of_cons in Hx as [->|Hx].
    + right. eapply Forall_forall; [exact Hy|]. by apply last_Some_elem_of.
    + by apply IH.
Qed.

Lemma sort_on_last {A} (key : A → Z * Z) (l : list A) m :
  last (sort_on key l) = Some m →
  m ∈ l ∧ ∀ x, x ∈ l → x = m ∨ key_le (key x) (key m).
Proof.
  intros Hlast. unfold sort_on in *.
  set (R := λ x y : A, key_le (key x) (key y)) in *.
  assert (Transitive R) by (intros x y z; apply key_le_trans).
  assert (Total R) by (intros x y; apply key_le_total).
  split.
  - rewrite <- (merge_sort_Permutation R l). by apply last_Some_elem_of.
  - intros x Hx. eapply (StronglySorted_last R); [|done|].
    + by apply StronglySorted_merge_sort.
    + by rewrite (merge_sort_Permutation R l).
Qed.

Lemma sort_on_nonempty {A} (key : A → Z * Z) (l : list A) :
  l ≠ [] → is_Some (last (sort_on key l)).
Proof.
  intros Hl. destruct (last (sort_on key l)) eqn:E; [done|].
  apply last_None in E. exfalso. apply Hl.
  apply Permutation_nil_r. rewrite <- E. unfold sort_on.
  by rewrite merge_sort_Permutation.
Qed.

(** C5, as the code has it: of several matches the one chosen has the
    highest size score, and among those with the highest score it is the one
    that comes first; the tokens score 1 to 5 and a URL without one scores
    0. *)
Theorem pick_best_image_url_highest_earliest (urls : list string) :
  urls ≠ [] →
  (∃ i u,
      _pick_best_image_url urls = Some u
      ∧ urls !! i = Some u
      ∧ (∀ j v, urls !! j = Some v → (_score_image_url v ≤ _score_image_url u)%Z)
      ∧ (∀ j v, urls !! j = Some v →
                _score_image_url v = _score_image_url u → i ≤ j))
  ∧ (_score_image_url <$> ["p_xs.jpg"; "p_s.jpg"; "p_m.jpg"; "p_l.jpg";
                            "p_xl.jpg"; "p.jpg"])
    = [1; 2; 3; 4; 5; 0]%Z.
Proof.
  intros Hne. split; [|by vm_compute].
  unfold _pick_best_image_url. destruct urls as [|u0 urls']; [done|].
  set (urls := u0 :: urls') in *.
  set (scored := imap _ urls).
  set (key := λ item : scored_url, (item.1.2, - item.1.1)%Z).
  destruct (sort_on_nonempty key scored) as [m Hm].
  { intros E. apply (f_equal length) in E. subst scored.
    rewrite length_imap in E. done. }
  rewrite Hm. simpl.
  apply sort_on_last in Hm as [Hin Hmax].
  apply elem_of_lookup_imap in Hin as (i & u & -> & Hi).
  exists i, u. split; [done|]. split; [done|].
  assert (∀ j v, urls !! j = Some v →
            (j = i ∧ v = u) ∨
            (_score_image_url v < _score_image_url u)%Z ∨
            (_score_image_url v = _score_image_url u ∧ i ≤ j)) as Hall.
  { intros j v Hj.
    destruct (Hmax (Z.of_nat j, _score_image_url v, v)) as [E|Hle].
    - apply elem_of_lookup_imap. eauto.
    - left. simplify_eq. split; [lia|done].
    - right. unfold key, key_le in Hle. simpl in Hle. lia. }
  split.
  - intros j v Hj. destruct (Hall j v Hj) as [[_ ->]|[?|[? _]]]; lia.
  - intros j v Hj Heq. destruct (Hall j v Hj) as [[-> _]|[?|[_ ?]]]; lia.
Qed.

Lemma pick_best_image_url_highest_earliest_witness :
  _pick_best_image_url ["a_m.jpg"; "b_xl.jpg"; "c_xl.jpg"] = Some "b_xl.jpg".
Proof.
  destruct (pick_best_image_url_highest_earliest
              ["a_m.jpg"; "b_xl.jpg"; "c_xl.jpg"]) as [(i & u & H & _) _];
    [done|].
  rewrite H. vm_compute in H. by inversion H.
Defined.

(** Two matches tie on the highest score: the earlier one is chosen, not the
    later one. *)
Lemma pick_best_image_url_tie_is_earliest :
  let urls := ["https://cms-imgp.jw-cdn.org/img/p/1/a_xl.jpg";
               "https://cms-imgp.jw-cdn.org/img/p/1/b_xl.jpg"] in
  _score_image_url <$> urls = [5; 5]%Z
  ∧ _pick_best_image_url urls = urls !! 0
  ∧ _pick_best_image_url urls ≠ urls !! 1.
Proof. vm_compute. by repeat split. Qed.

End PickBest.

(** ** URL validation *)

Section UrlValidationFacts.

Context (urlparse : string → option ParseResult).

Lemma endswith_spec s p : Py.endswith s p = true ↔ ∃ pre, s = pre +:+ p.
Proof.
  induction s as [|c s IH]; cbn [Py.endswith].
  - rewrite orb_false_r, eqb_true_iff. split.
    + intros <-. by exists "".
    + intros [[|d pre] E]; [done|]. by rewrite app_cons in E.
  - rewrite orb_true_iff, eqb_true_iff, IH. split.
    + intros [<-|[pre ->]]; [by exists ""|]. by exists (String c pre).
    + intros [[|d pre] E]; [by left|]. right. rewrite app_cons in E.
      exists pre. congruence.
Qed.

Lemma trusted_host_spec host :
  String.eqb (Py.lower host) "jw.org" || Py.endswith (Py.lower host) ".jw.org"
  = true ↔ trusted_host host.
Proof.
  unfold trusted_host. by rewrite orb_true_iff, eqb_true_iff, endswith_spec.
Qed.

(** C1, as the code has it: of a URL that [urlparse] parses, [validate_url]
    accepts it exactly when its scheme is [https] and its host is [jw.org]
    or a subdomain of it, compared without regard to case and as a suffix at
    a label boundary, and refuses it otherwise with the error that the code
    raises for invalid URLs, [ExtractionError].  URLs whose scheme is
    [http] and the lookalike host [evil-jw.org] are among the refused. *)
Theorem validate_url_accepts_iff (url : string) (parsed : ParseResult) :
  urlparse url = Some parsed →
  (validate_url urlparse url = Return tt
   ↔ scheme parsed = "https" ∧ trusted_host (default "" (hostname parsed)))
  ∧ (validate_url urlparse url = Return tt
     ∨ ∃ message, validate_url urlparse url = Raise (ExtractionError message))
  ∧ (scheme parsed = "http" → validate_url urlparse url ≠ Return tt)
  ∧ (hostname parsed = Some "evil-jw.org" →
     validate_url urlparse url ≠ Return tt).
Proof.
  intros Hparsed.
  assert (validate_url urlparse url = Return tt
          ↔ scheme parsed = "https"
            ∧ trusted_host (default "" (hostname parsed))) as Hiff.
  { unfold validate_url. rewrite Hparsed, <- trusted_host_spec.
    destruct (String.eqb_spec (scheme parsed) "https") as [E|E]; simpl.
    - destruct (_ || _); split; try done; by intros [_ ?].
    - split; [done|]. by intros [? _]. }
  split; [done|]. split; [|split].
  - unfold validate_url. rewrite Hparsed.
    destruct (negb _); [right; eauto|].
    destruct (_ || _); [by left|right; eauto].
  - intros Hs [Hs' _]%Hiff. congruence.
  - intros Hh [_ Ht]%Hiff. rewrite Hh in Ht. simpl in Ht.
    apply trusted_host_spec in Ht. by vm_compute in Ht.
Qed.

Example validate_url_accepts :
  validate_url simple_urlparse <$>
    ["https://www.jw.org/en/"; "https://wol.jw.org/en/"; "https://JW.org/"]
  = [Return tt; Return tt; Return tt].
Proof. by vm_compute. Qed.

Example validate_url_rejects :
  validate_url simple_urlparse <$>
    ["http://www.jw.org/en/"; "https://example.com/"; "https://evil-jw.org/";
     "https://jw.org.example.com/"]
  = [Raise (ExtractionError "Only https URLs are allowed");
     Raise (ExtractionError "Only jw.org URLs are allowed");
     Raise (ExtractionError "Only jw.org URLs are allowed");
     Raise (ExtractionError "Only jw.org URLs are allowed")].
Proof. by vm_compute. Qed.

End UrlValidationFacts.

Lemma validate_url_accepts_iff_witness :
  let parsed := {| scheme := "https"; hostname := Some "www.jw.org" |} in
  simple_urlparse "https://www.JW.org/en/" = Some parsed
  ∧ (validate_url simple_urlparse "https://www.JW.org/en/" = Return tt
     ↔ scheme parsed = "https" ∧ trusted_host (default "" (hostname parsed))).
Proof.
  intros parsed. split; [by vm_compute|].
  by destruct (validate_url_accepts_iff simple_urlparse
                 "https://www.JW.org/en/" parsed) as [? _];
    [by vm_compute|].
Defined.

(** A URL with an unbalanced bracket in its host: [urlparse] raises
    [ValueError], which [validate_url] does not handle.  The URL is not
    accepted, and the error is no [ExtractionError]. *)
Lemma validate_url_unparsed_url_raises_value_error :
  let url' := "https://[jw.org" in
  simple_urlparse url' = None
  ∧ validate_url simple_urlparse url' = Raise ValueError
  ∧ validate_url simple_urlparse url' ≠ Return tt
  ∧ ∀ message,
      validate_url simple_urlparse url' ≠ Raise (ExtractionError message).
Proof. vm_compute. by repeat split. Qed.

(** ** Trees *)

Section TreeFacts.

Lemma node_induction (P : node → Prop) :
  (∀ s, P (Text s)) →
  (∀ u name attrs cs, Forall P cs → P (Tag u name attrs cs)) →
  ∀ n, P n.
Proof.
  intros HText HTag. fix IH 1. intros [s|u name attrs cs]; [apply HText|].
  apply HTag. induction cs as [|c cs IHcs]; constructor; [apply IH|apply IHcs].
Qed.

Lemma descendants_Tag u name attrs cs d :
  d ∈ descendants (Tag u name attrs cs)
  ↔ ∃ c, c ∈ cs ∧ (d = c ∨ d ∈ descendants c).
Proof.
  simpl. rewrite list_elem_of_In, in_flat_map. split.
  - intros (c & Hc & Hd). exists c. rewrite list_elem_of_In. split; [done|].
    destruct Hd as [->|Hd]; [by left|right; by apply list_elem_of_In].
  - intros (c & Hc & Hd). exists c. rewrite <- list_elem_of_In. split; [done|].
    destruct Hd as [->|Hd]; [by left|right; by apply list_elem_of_In].
Qed.

Lemma descendants_trans n d e :
  d ∈ descendants n → e ∈ descendants d → e ∈ descendants n.
Proof.
  induction n as [s|u name attrs cs IH] using node_induction; [by inversion 1|].
  rewrite !descendants_Tag. intros (c & Hc & Hd) He. exists c. split; [done|].
  right. destruct Hd as [->|Hd]; [done|].
  rewrite Forall_forall in IH. by apply (IH c).
Qed.

End TreeFacts.

(** ** The container *)

Section SelectContainer.

Lemma select_step_cases best0 len0 div best1 len1 :
  select_step (best0, len0) div = (best1, len1) →
  (best1 = best0 ∧ len1 = len0
   ∧ (search_words KEYWORD_RE (id_and_classes div) = true →
      text_len div ≤ len0))
  ∨ (best1 = Some div ∧ len1 = text_len div
     ∧ search_words KEYWORD_RE (id_and_classes div) = true
     ∧ len0 < text_len div).
Proof.
  unfold select_step. fold (text_len div).
  destruct (search_words KEYWORD_RE (id_and_classes div)); simpl.
  - destruct (len0 <? text_len div) eqn:Hlt; intros [= <- <-].
    + right. by apply Nat.ltb_lt in Hlt.
    + left. by apply Nat.ltb_ge in Hlt.
  - intros [= <- <-]. by left.
Qed.

Lemma select_step_fold (divs : list node) best0 len0 best len :
  foldl select_step (best0, len0) divs = (best, len) →
  len0 ≤ len
  ∧ (∀ d, d ∈ divs → search_words KEYWORD_RE (id_and_classes d) = true →
          text_len d ≤ len)
  ∧ ((best = best0 ∧ len = len0)
     ∨ (∃ d, best = Some d ∧ d ∈ divs
             ∧ search_words KEYWORD_RE (id_and_classes d) = true
             ∧ text_len d = len ∧ len0 < len)).
Proof.
  revert best0 len0. induction divs as [|div divs IH]; intros best0 len0 Hfold.
  - cbn [foldl] in Hfold. simplify_eq. split; [done|]. split; [|by left].
    intros d Hd. by inversion Hd.
  - cbn [foldl] in Hfold.
    destruct (select_step (best0, len0) div) as [best1 len1] eqn:Hstep.
    apply IH in Hfold as (Hle & Hmax & Hbest).
    apply select_step_cases in Hstep
      as [(-> & -> & Hdiv)|(-> & -> & Hkw & Hlt)].
    + split; [done|]. split.
      * intros d [->|Hd]%elem_of_cons Hd'; [specialize (Hdiv Hd'); lia|].
        by apply Hmax.
      * destruct Hbest as [?|(d & -> & Hd & Hd' & Hlen & Hlt')]; [by left|].
        right. exists d. repeat split; [by right|done|done|done].
    + split; [lia|]. split.
      * intros d [->|Hd]%elem_of_cons Hd'; [lia|by apply Hmax].
      * right. destruct Hbest as [[-> ->]|(d & -> & Hd & Hd' & Hlen & Hlt')].
        -- exists div. repeat split; [by left|done|done].
        -- exists d. repeat split; [by right|done|done|lia].
Qed.

Lemma elem_of_keyword_divs soup d :
  d ∈ keyword_divs soup
  ↔ d ∈ find_all ["div"] soup
    ∧ search_words KEYWORD_RE (id_and_classes d) = true.
Proof.
  unfold keyword_divs. by rewrite !list_elem_of_In, filter_In.
Qed.

(** C3: the container is the first [article] if there is one, else the first
    [main] if there is one; else it is a [div] of greatest visible-text
    length among the [div]s whose id and class text contains a content
    keyword, provided that length is at least 200, and nothing is found
    exactly when no such [div] reaches 200 characters. *)
Theorem select_container_spec (soup : node) :
  match find "article" soup, find "main" soup with
  | Some article, _ => _select_container soup = Some article
  | None, Some main => _select_container soup = Some main
  | None, None =>
      (∀ div, _select_container soup = Some div →
              div ∈ keyword_divs soup
              ∧ MIN_TEXT_LEN ≤ text_len div
              ∧ ∀ d, d ∈ keyword_divs soup → text_len d ≤ text_len div)
      ∧ (_select_container soup = None
         ↔ ∀ d, d ∈ keyword_divs soup → text_len d < MIN_TEXT_LEN)
  end.
Proof.
  unfold _select_container.
  destruct (find "article" soup) as [article|]; [done|].
  destruct (find "main" soup) as [main|]; [done|].
  destruct (foldl select_step (None, 0) (find_all ["div"] soup))
    as [best len] eqn:Hfold.
  apply select_step_fold in Hfold as (_ & Hmax & Hbest).
  assert (∀ d, d ∈ keyword_divs soup → text_len d ≤ len) as Hmax'.
  { intros d [Hd Hkw]%elem_of_keyword_divs. by apply Hmax. }
  destruct Hbest as [[-> ->]|(d0 & -> & Hd0 & Hkw0 & Hlen0 & Hpos)].
  - split; [done|]. split; [|done].
    intros _ d Hd. specialize (Hmax' d Hd). unfold MIN_TEXT_LEN. lia.
  - assert (d0 ∈ keyword_divs soup) as Hd0' by (by apply elem_of_keyword_divs).
    destruct (MIN_TEXT_LEN <=? len) eqn:Hmin.
    + apply Nat.leb_le in Hmin. split.
      * intros div [= <-]. split; [done|]. split; [lia|].
        intros d Hd. specialize (Hmax' d Hd). lia.
      * split; [done|]. intros Hall. specialize (Hall d0 Hd0'). lia.
    + apply Nat.leb_gt in Hmin. split; [done|]. split; [|done].
      intros _ d Hd. specialize (Hmax' d Hd). lia.
Qed.

End SelectContainer.

(** ** Metadata blocks and the title node *)

Section MetadataBlocks.

Context (title_node : ident).

Lemma is_node_prune doomed n :
  is_node (prune doomed n) title_node = is_node n title_node.
Proof. by destruct n. Qed.

Lemma node_ref_prune doomed n : node_ref (prune doomed n) = node_ref n.
Proof. by destruct n. Qed.

(** What holds the title node is held by nothing that does not. *)
Lemma contains_node_descendant n d :
  d ∈ descendants n →
  _contains_node d (Some title_node) = true →
  _contains_node n (Some title_node) = true.
Proof.
  intros Hd. unfold _contains_node.
  rewrite !orb_true_iff, !existsb_exists.
  intros [Hself|(e & He & Hr)]; right.
  - exists d. by rewrite <- list_elem_of_In.
  - exists e. split; [|done]. apply list_elem_of_In.
    eapply descendants_trans; [done|]. by apply list_elem_of_In.
Qed.

(** A loop that spares every tag holding the title node keeps the tags that
    hold it, each pruned in turn. *)
Lemma prune_keeps doomed n d :
  (∀ c, doomed c = true → _contains_node c (Some title_node) = false) →
  d ∈ descendants n →
  _contains_node d (Some title_node) = true →
  prune doomed d ∈ descendants (prune doomed n).
Proof.
  intros Hdoomed.
  induction n as [s|u name attrs cs IH] using node_induction;
    [by inversion 1|].
  intros (c & Hc & Hd)%descendants_Tag Hcontains.
  assert (_contains_node c (Some title_node) = true) as Hc'.
  { destruct Hd as [->|Hd]; [done|]. by eapply contains_node_descendant. }
  assert (doomed c = false) as Hkeep.
  { destruct (doomed c) eqn:E; [|done]. apply Hdoomed in E. congruence. }
  cbn [prune]. apply descendants_Tag. exists (prune doomed c). split.
  - apply list_elem_of_omap. exists c. split; [done|].
    by rewrite Hkeep, andb_false_r.
  - destruct Hd as [->|Hd]; [by left|right].
    rewrite Forall_forall in IH. by apply IH.
Qed.

Lemma prune_contains doomed n :
  (∀ c, doomed c = true → _contains_node c (Some title_node) = false) →
  _contains_node n (Some title_node) = true →
  _contains_node (prune doomed n) (Some title_node) = true.
Proof.
  intros Hdoomed. unfold _contains_node.
  rewrite !orb_true_iff, !existsb_exists, is_node_prune.
  intros [Hself|(e & He & Hr)]; [by left|right].
  exists (prune doomed e). rewrite is_node_prune. split; [|done].
  apply list_elem_of_In. apply prune_keeps; [done|by apply list_elem_of_In|].
  unfold _contains_node. by rewrite Hr.
Qed.

Lemma is_metadata_block_spares title c :
  is_metadata_block title (Some title_node) c = true →
  _contains_node c (Some title_node) = false.
Proof.
  unfold is_metadata_block. rewrite !andb_true_iff, negb_true_iff.
  by intros [[[_ ?] _] _].
Qed.

(** C9: whatever the rules say of its text and attributes, a block of the
    container that is the recorded title node or holds it is not removed by
    the metadata stripper: it is still in the container afterwards, as the
    same tag, stripped inside like the container, and it still holds the
    title node. *)
Theorem strip_metadata_keeps_title_node (container : node)
    (title : option string) (block : node) :
  block ∈ descendants container →
  _contains_node block (Some title_node) = true →
  let block' := _strip_metadata_blocks block title (Some title_node) in
  block' ∈ descendants
             (_strip_metadata_blocks container title (Some title_node))
  ∧ node_ref block' = node_ref block
  ∧ _contains_node block' (Some title_node) = true.
Proof.
  intros Hblock Hcontains block'. unfold block', _strip_metadata_blocks.
  split; [|split].
  - apply prune_keeps; [apply is_metadata_block_spares|done|done].
  - apply node_ref_prune.
  - apply prune_contains; [apply is_metadata_block_spares|done].
Qed.

End MetadataBlocks.

Lemma strip_metadata_keeps_title_node_witness :
  _find_title_node title_block_example (Some "THE WATCHTOWER")
  = Some (Parsed 2)
  ∧ _strip_metadata_blocks title_block_example (Some "THE WATCHTOWER")
      (Some (Parsed 2))
    = Tag (Parsed 0) "main" []
        [Tag (Parsed 1) "div" [("class", "publication")]
           [Tag (Parsed 2) "p" [("class", "issue")] [Text "THE WATCHTOWER"];
            Text " wp24"]]
  ∧ Tag (Parsed 2) "p" [("class", "issue")] [Text "THE WATCHTOWER"]
    ∈ descendants
        (_strip_metadata_blocks title_block_example (Some "THE WATCHTOWER")
           (Some (Parsed 2))).
Proof.
  split; [by vm_compute|]. split; [by vm_compute|].
  apply (strip_metadata_keeps_title_node (Parsed 2) title_block_example
           (Some "THE WATCHTOWER")
           (Tag (Parsed 2) "p" [("class", "issue")] [Text "THE WATCHTOWER"])).
  - vm_compute. apply list_elem_of_further, list_elem_of_here.
  - by vm_compute.
Defined.

(** ** Stripped text *)

Section StrippedText.

Lemma lstrip_length s : String.length (Py.lstrip s) ≤ String.length s.
Proof.
  induction s as [|c s IH]; [done|]. cbn [Py.lstrip].
  destruct (Py.is_space c); cbn [String.length]; lia.
Qed.

Lemma lstrip_fixed_cons c s :
  Py.lstrip (String c s) = String c s ↔ Py.is_space c = false.
Proof.
  cbn [Py.lstrip]. destruct (Py.is_space c); [|done]. split; [|done].
  intros E. apply (f_equal String.length) in E.
  pose proof (lstrip_length s). cbn [String.length] in E. lia.
Qed.

Lemma lstrip_idem s : Py.lstrip (Py.lstrip s) = Py.lstrip s.
Proof.
  induction s as [|c s IH]; [done|]. cbn [Py.lstrip].
  destruct (Py.is_space c) eqn:E; [done|]. by apply lstrip_fixed_cons.
Qed.

Lemma lstrip_rstrip x : Py.lstrip x = x → Py.lstrip (Py.rstrip x) = Py.rstrip x.
Proof.
  destruct x as [|c x]; [done|]. intros Hc%lstrip_fixed_cons.
  cbn [Py.rstrip]. destruct (Py.rstrip x).
  - rewrite Hc. by apply lstrip_fixed_cons.
  - by apply lstrip_fixed_cons.
Qed.

Lemma lstrip_strip s : Py.lstrip (Py.strip s) = Py.strip s.
Proof. apply lstrip_rstrip, lstrip_idem. Qed.

Lemma lstrip_app a b : a ≠ "" → Py.lstrip a = a → Py.lstrip (a +:+ b) = a +:+ b.
Proof.
  destruct a as [|c a]; [done|]. intros _ Hc%lstrip_fixed_cons.
  rewrite app_cons. by apply lstrip_fixed_cons.
Qed.

Lemma solid_strip s : Py.truthy (Py.strip s) = true → solid (Py.strip s).
Proof.
  unfold Py.truthy. rewrite negb_true_iff, eqb_false_iff. intros Hne.
  split; [done|]. split; [apply lstrip_strip|apply strip_rstrip_fixed].
Qed.

Lemma solid_fixed s : solid s → Py.strip s = s.
Proof. intros (_ & Hl & Hr). unfold Py.strip. by rewrite Hl. Qed.

Lemma solid_join (parts : list string) :
  Forall solid parts → parts ≠ [] → solid (Py.join " " parts).
Proof.
  induction parts as [|x parts IH]; [done|]. intros Hall _.
  inversion Hall as [|? ? Hx Hparts]; subst.
  destruct parts as [|y parts]; [done|].
  rewrite join_cons_cons. specialize (IH Hparts ltac:(done)).
  destruct Hx as (Hx & Hxl & Hxr), IH as (Hj & Hjl & Hjr).
  split; [|split].
  - destruct x; [done|]. by rewrite app_cons.
  - by apply lstrip_app.
  - rewrite <- app_assoc_str. by apply rstrip_app_stripped.
Qed.

Lemma get_text_parts_solid n :
  Forall solid (List.filter Py.truthy (Py.strip <$> strings_of n)).
Proof.
  apply Forall_forall. intros x Hx. apply list_elem_of_In, filter_In in Hx.
  destruct Hx as [Hx Ht]. apply list_elem_of_In, list_elem_of_fmap in Hx.
  destruct Hx as (s & -> & _). by apply solid_strip.
Qed.

(** [get_text] gives stripped text. *)
Lemma strip_get_text n : Py.strip (get_text n) = get_text n.
Proof.
  unfold get_text.
  destruct (List.filter Py.truthy (Py.strip <$> strings_of n)) eqn:E; [done|].
  apply solid_fixed, solid_join; [|done]. rewrite <- E.
  apply get_text_parts_solid.
Qed.

Lemma get_text_single u name attrs t :
  Py.truthy t = true → Py.strip t = t →
  get_text (Tag u name attrs [Text t]) = t.
Proof.
  intros Ht Hs. unfold get_text, strings_of. cbn. by rewrite Hs, Ht.
Qed.

Lemma get_text_wrapped u name attrs u' name' attrs' t :
  Py.truthy t = true → Py.strip t = t →
  get_text (Tag u name attrs [Tag u' name' attrs' [Text t]]) = t.
Proof.
  intros Ht Hs. unfold get_text, strings_of. cbn. by rewrite Hs, Ht.
Qed.

End StrippedText.

(** ** Dictionaries *)

Section DictFacts.

Implicit Types d : list (string * string).

Lemma dict_get_set_eq d key value :
  dict_get (dict_set d key value) key = Some value.
Proof.
  induction d as [|[k v] d IH]; cbn [dict_set dict_get].
  - by rewrite String.eqb_refl.
  - destruct (String.eqb k key) eqn:E; cbn [dict_get]; by rewrite E.
Qed.

Lemma dict_get_set_ne d key key' value :
  key ≠ key' → dict_get (dict_set d key value) key' = dict_get d key'.
Proof.
  intros Hne. induction d as [|[k v] d IH]; cbn [dict_set dict_get].
  - by rewrite (proj2 (eqb_false_iff key key')).
  - destruct (String.eqb_spec k key) as [->|E]; cbn [dict_get].
    + by rewrite (proj2 (eqb_false_iff key key')).
    + by rewrite IH.
Qed.

Lemma dict_get_del_ne d key key' :
  key ≠ key' → dict_get (dict_del d key) key' = dict_get d key'.
Proof.
  intros Hne. unfold dict_del.
  induction d as [|[k v] d IH]; [done|]. cbn [List.filter fst dict_get].
  destruct (String.eqb_spec k key) as [->|E]; cbn [negb dict_get].
  - by rewrite IH, (proj2 (eqb_false_iff key key')).
  - by rewrite IH.
Qed.

Lemma dict_get_del_all d keys key' :
  key' ∉ keys → dict_get (foldl dict_del d keys) key' = dict_get d key'.
Proof.
  revert d. induction keys as [|k keys IH]; intros d Hnot; [done|].
  cbn [foldl]. rewrite IH by (intros ?; apply Hnot; by right).
  apply dict_get_del_ne. intros ->. apply Hnot. by left.
Qed.

End DictFacts.

(** ** Figures *)

Section Figures.

Context (float_of_str : string → option pyfloat).
Context (urljoin : string → string → string).
Context (base_url : string).

#[local] Abbreviation normalize_figures n :=
  (_normalize_figures float_of_str urljoin n base_url).
#[local] Abbreviation flatten figure :=
  (flatten_figure float_of_str urljoin base_url figure).

Lemma find_Some name n d :
  find name n = Some d → named name d = true ∧ d ∈ descendants n.
Proof.
  unfold find, find_all. intros Hhead%head_Some_elem_of.
  apply list_elem_of_In, filter_In in Hhead as [Hin Hnamed].
  split; [|by apply list_elem_of_In].
  unfold named_any in Hnamed. cbn [existsb] in Hnamed.
  by rewrite orb_false_r in Hnamed.
Qed.

Lemma named_is_tag name n : named name n = true → is_tag n = true.
Proof. by destruct n. Qed.

Lemma images_below_cons u name attrs c cs :
  images_below (Tag u name attrs (c :: cs))
  = (if named "img" c then option_list (image_entry c cs) else [])
    ++ images_below c ++ images_below (Tag u name attrs cs).
Proof. reflexivity. Qed.


Lemma get_normalized_img img abs_src key :
  is_tag img = true →
  get (normalized_img img abs_src) key
  = if String.eqb key "src" then Some abs_src
    else if bool_decide (key ∈ redundant_attrs) then None
    else get img key.
Proof.
  destruct img as [|u name attrs cs]; [done|]. intros _.
  unfold normalized_img. cbn [with_attrs attrs_of get].
  destruct (String.eqb_spec key "src") as [->|Hne].
  - rewrite dict_get_del_all; [apply dict_get_set_eq|].
    unfold redundant_attrs. intros H. by repeat (apply elem_of_cons in H as [H|H]; [done|]); inversion H.
  - case_bool_decide as Hred.
    + clear Hne. generalize (dict_set attrs "src" abs_src). intros d.
      assert (∀ keys d, key ∈ keys → dict_get (foldl dict_del d keys) key = None)
        as Hdel; [|by apply Hdel].
      clear. intros keys. induction keys as [|k keys IH]; intros d Hin;
        [by inversion Hin|].
      cbn [foldl]. destruct (decide (key ∈ keys)) as [?|Hnot]; [by apply IH|].
      apply elem_of_cons in Hin as [<-|?]; [|done].
      rewrite dict_get_del_all by done. unfold dict_del.
      induction d as [|[k v] d IHd]; [done|]. cbn [List.filter fst].
      destruct (String.eqb_spec k key) as [->|E]; cbn [negb dict_get]; [done|].
      by rewrite (proj2 (eqb_false_iff k key)).
    + rewrite dict_get_del_all by done. by apply dict_get_set_ne.
Qed.

Lemma normalized_img_named img abs_src name :
  named name (normalized_img img abs_src) = named name img.
Proof. by destruct img. Qed.

Lemma image_alt_normalized img abs_src :
  is_tag img = true → image_alt (normalized_img img abs_src) = image_alt img.
Proof.
  intros Htag. unfold image_alt. by rewrite get_normalized_img by done.
Qed.

(** One round of the loop of [_normalize_figures] at a child [c]. *)
#[local] Abbreviation figure_step c :=
  (if named "figure" c then flatten c
   else bind (normalize_figures c) (λ c', Return [c'])).

Lemma normalize_figures_cons u name attrs c cs :
  normalize_figures (Tag u name attrs (c :: cs))
  = bind (figure_step c)
      (λ left, bind (normalize_figures (Tag u name attrs cs))
                 (λ parent, Return (Tag u name attrs
                                      (left ++ contents_of parent)))).
Proof.
  cbn [_normalize_figures]. destruct (figure_step c) as [left|e]; [|done].
  cbn [bind].
  by destruct ((fix each (siblings : list node) : outcome (list node) := _) cs).
Qed.

(** The run gets through a tag when it gets through each of its children,
    and leaves what they leave, in their order. *)
Lemma normalize_figures_Return u name attrs cs result :
  normalize_figures (Tag u name attrs cs) = Return result →
  ∃ pieces,
    Forall2 (λ c piece, figure_step c = Return piece) cs pieces
    ∧ result = Tag u name attrs (concat pieces).
Proof.
  revert result. induction cs as [|c cs IH]; intros result.
  - intros [= <-]. by exists [].
  - rewrite normalize_figures_cons.
    destruct (figure_step c) as [left|e] eqn:Hstep; [|done]. cbn [bind].
    destruct (normalize_figures (Tag u name attrs cs)) as [parent|e] eqn:Hcs;
      [|done].
    cbn [bind]. intros [= <-].
    destruct (IH parent eq_refl) as (pieces & Hpieces & ->).
    exists (left :: pieces). split; [by constructor|done].
Qed.

(** Where a child of the tag that the run leaves comes from. *)
Lemma normalize_figures_child u name attrs cs result c' :
  normalize_figures (Tag u name attrs cs) = Return result →
  c' ∈ contents_of result →
  ∃ c, c ∈ cs
       ∧ ((named "figure" c = true
           ∧ ∃ piece, flatten c = Return piece ∧ c' ∈ piece)
          ∨ (named "figure" c = false ∧ normalize_figures c = Return c')).
Proof.
  intros (pieces & Hpieces & ->)%normalize_figures_Return.
  cbn [contents_of].
  induction Hpieces as [|c piece cs pieces Hstep _ IH]; [by inversion 1|].
  cbn [concat]. intros [Hc'|Hc']%elem_of_app.
  - exists c. split; [apply list_elem_of_here|].
    destruct (named "figure" c); [left; eauto|right].
    destruct (normalize_figures c) as [c0|]; [|done].
    cbn [bind] in Hstep. injection Hstep as <-.
    by apply list_elem_of_singleton in Hc' as ->.
  - destruct (IH Hc') as (c0 & Hc0 & Hcases).
    exists c0. split; [by apply list_elem_of_further|done].
Qed.

Lemma normalize_figures_root n result :
  normalize_figures n = Return result →
  match n with
  | Text _ => result = n
  | Tag u name attrs _ => result = Tag u name attrs (contents_of result)
  end.
Proof.
  destruct n as [s|u name attrs cs]; [by intros [= <-]|].
  by intros (pieces & _ & ->)%normalize_figures_Return.
Qed.

(** What a figure leaves when the run gets through it. *)
Lemma flatten_Return figure piece :
  flatten figure = Return piece →
  piece = []
  ∨ ∃ img src,
      find "img" figure = Some img
      ∧ img_source float_of_str img = Some src
      ∧ piece = [normalized_img img (urljoin base_url src)].
Proof.
  unfold flatten_figure.
  destruct (find "img" figure) as [img|] eqn:Himg;
    [|intros [= <-]; by left].
  unfold _normalize_img_tag.
  destruct (img_source float_of_str img) as [src|] eqn:Hsrc;
    [|intros [= <-]; by left].
  destruct (find "figcaption" figure) as [figcaption|].
  - destruct (Py.truthy (get_text figcaption)).
    + destruct (find "soup" figure) as [soup|]; [|done].
      by destruct (find "new_tag" soup).
    + intros [= <-]. right. by exists img, src.
  - intros [= <-]. right. by exists img, src.
Qed.

(** A figure with an image whose source resolves and a caption with text
    ends the run. *)
Lemma flatten_captioned figure img src figcaption :
  find "img" figure = Some img →
  img_source float_of_str img = Some src →
  find "figcaption" figure = Some figcaption →
  get_text figcaption ≠ "" →
  ∃ e, flatten figure = Raise e
       ∧ (find "soup" figure = None → e = AttributeError).
Proof.
  intros Himg Hsrc Hcaption Htext.
  assert (Py.truthy (get_text figcaption) = true) as Htruthy.
  { unfold Py.truthy. by rewrite negb_true_iff, eqb_false_iff. }
  unfold flatten_figure. rewrite Himg. unfold _normalize_img_tag.
  rewrite Hsrc, Hcaption, Htruthy.
  destruct (find "soup" figure) as [soup|]; [|by eexists].
  destruct (find "new_tag" soup); by eexists.
Qed.

Lemma normalize_figures_child_raises u name attrs before c after e :
  figure_step c = Raise e →
  ∃ e', normalize_figures (Tag u name attrs (before ++ c :: after)) = Raise e'.
Proof.
  intros Hstep. induction before as [|b before [e' IH]]; cbn [app];
    rewrite normalize_figures_cons.
  - rewrite Hstep. by eexists.
  - destruct (figure_step b); [|by eexists]. cbn [bind]. rewrite IH.
    by eexists.
Qed.

Lemma normalize_figures_outside_raises container parent e :
  parent ∈ outside_figures container →
  normalize_figures parent = Raise e →
  ∃ e', normalize_figures container = Raise e'.
Proof.
  revert e.
  induction container as [s|u name attrs cs IH] using node_induction;
    intros e; [by inversion 1|].
  cbn [outside_figures]. rewrite list_elem_of_In, in_flat_map.
  intros (c & Hc & Hparent) Hraise.
  destruct (named "figure" c) eqn:Hfig; [done|].
  destruct (is_tag c) eqn:Htag; [|done]. cbn [negb orb] in Hparent.
  apply list_elem_of_In in Hc.
  assert (∃ e', normalize_figures c = Raise e') as [e' Hc'].
  { destruct Hparent as [->|Hparent]; [by eexists|].
    rewrite Forall_forall in IH.
    eapply (IH c); [done|by apply list_elem_of_In|done]. }
  apply list_elem_of_split in Hc as (before & after & ->).
  apply (normalize_figures_child_raises _ _ _ _ _ _ e').
  by rewrite Hfig, Hc'.
Qed.

(** C4, as the code has it: a figure that lies in no other figure and has an
    image whose source resolves and a caption with text ends
    [_normalize_figures] with an exception, raised where the code asks the
    figure for the [soup] it was parsed by.  No paragraph is made for the
    caption and nothing is rendered or listed for the figure. *)
Theorem normalize_figures_captioned_raises (container : node) u name attrs
    (before : list node) (figure : node) (after : list node)
    (img figcaption : node) (src : string) :
  let parent := Tag u name attrs (before ++ figure :: after) in
  parent = container ∨ parent ∈ outside_figures container →
  named "figure" figure = true →
  find "img" figure = Some img →
  img_source float_of_str img = Some src →
  find "figcaption" figure = Some figcaption →
  get_text figcaption ≠ "" →
  ∃ e, normalize_figures container = Raise e.
Proof.
  intros parent Hparent Hfig Himg Hsrc Hcaption Htext.
  destruct (flatten_captioned figure img src figcaption)
    as (e & Hraise & _); [done..|].
  destruct (normalize_figures_child_raises u name attrs before figure after e)
    as [e' Hparent']; [by rewrite Hfig|].
  destruct Hparent as [<-|Hparent]; [by eexists|].
  by eapply normalize_figures_outside_raises.
Qed.

End Figures.

(** The captioned figure of the first test of the repository, between its
    two paragraphs: the run ends with [AttributeError]. *)
Lemma normalize_figures_captioned_raises_witness :
  let base := "https://www.jw.org/en/" in
  let before := [Tag (Parsed 7) "p" [] [Text "First paragraph."]] in
  let after := [Tag (Parsed 11) "p" [] [Text "Second paragraph."]] in
  let main :=
    Tag (Parsed 5) "main" [] (before ++ captioned_figure_example :: after) in
  _normalize_figures simple_float simple_urljoin main base
  = Raise AttributeError
  ∧ ∃ e, _normalize_figures simple_float simple_urljoin main base = Raise e.
Proof.
  intros base before after main. split; [by vm_compute|].
  apply (normalize_figures_captioned_raises simple_float simple_urljoin base
           main (Parsed 5) "main" [] before captioned_figure_example after
           (Tag (Parsed 9) "img"
              [("src", "/images/cover.jpg"); ("alt", "Cover")] [])
           (Tag (Parsed 10) "figcaption" [] [Text "Cover caption"])
           "/images/cover.jpg");
    [by left|by vm_compute..].
Defined.

(** A figure inside a figure holds an image whose source resolves, and is
    not replaced by it: only the image of the outer figure remains. *)
Lemma normalize_figures_nested_figure_lost :
  let base := "https://www.jw.org/en/" in
  let inner :=
    Tag (Parsed 3) "figure" [] [Tag (Parsed 4) "img" [("src", "/b.jpg")] []] in
  inner ∈ descendants nested_figure_example
  ∧ (find "img" inner ≫= img_source simple_float) = Some "/b.jpg"
  ∧ flatten_figure simple_float simple_urljoin base inner
    = Return [Tag (Parsed 4) "img" [("src", "https://www.jw.org/b.jpg")] []]
  ∧ _normalize_figures simple_float simple_urljoin nested_figure_example base
    = Return
        (Tag (Parsed 0) "main" []
           [Tag (Parsed 2) "img" [("src", "https://www.jw.org/a.jpg")] []]).
Proof.
  vm_compute. repeat split.
  apply list_elem_of_further, list_elem_of_further, list_elem_of_here.
Qed.

(** ** The image list *)

Section ImageList.

Context (float_of_str : string → option pyfloat).
Context (urljoin : string → string → string).
Context (base_url : string).




End ImageList.

(** ** Absolute URLs *)

Section AbsoluteUrls.










Lemma pick_best_image_url_elem urls best :
  _pick_best_image_url urls = Some best → best ∈ urls.
Proof.
  unfold _pick_best_image_url. destruct urls as [|u0 urls']; [done|].
  set (urls := u0 :: urls'). set (scored := imap _ urls).
  set (key := λ item : scored_url, (item.1.2, - item.1.1)%Z).
  destruct (last (sort_on key scored)) as [m|] eqn:Hlast; [|done].
  intros [= <-]. apply sort_on_last in Hlast as [Hin _].
  apply elem_of_lookup_imap in Hin as (i & u & -> & Hi).
  by eapply list_elem_of_lookup_2.
Qed.


End AbsoluteUrls.

(** ** The plain [urljoin] *)

Section SimpleUrljoin.

Lemma scheme_tail_take_until s sch rest x :
  scheme_tail s = true →
  take_until (Ascii.eqb ":") s = (sch, rest) →
  scheme_tail (sch +:+ ":" +:+ x) = true.
Proof.
  revert sch. induction s as [|c s IH]; intros sch; [done|].
  cbn [scheme_tail take_until]. rewrite (Ascii.eqb_sym ":" c).
  destruct (Ascii.eqb c ":") eqn:Hc.
  - intros _ [= <- <-]. done.
  - cbn [orb]. intros [Hc' Hs]%andb_true_iff.
    destruct (take_until (Ascii.eqb ":") s) as [a b] eqn:Htake.
    intros [= <- <-]. rewrite app_cons. cbn [scheme_tail].
    rewrite Hc, Hc'. by apply IH.
Qed.

Lemma absolute_take_until base sch rest x :
  is_absolute_url base = true →
  take_until (Ascii.eqb ":") base = (sch, rest) →
  is_absolute_url (sch +:+ ":" +:+ x) = true.
Proof.
  destruct base as [|c s]; [done|]. cbn [is_absolute_url take_until].
  intros [Hc Hs]%andb_true_iff.
  destruct (Ascii.eqb_spec ":" c) as [<-|_]; [done|].
  destruct (take_until (Ascii.eqb ":") s) as [a b] eqn:Htake.
  intros [= <- <-]. rewrite app_cons. cbn [is_absolute_url]. rewrite Hc.
  by eapply scheme_tail_take_until.
Qed.

(** Against an absolute base with a scheme that [urljoin] resolves
    references against, the plain [urljoin] gives absolute URLs. *)
Lemma simple_urljoin_absolute base ref :
  is_absolute_url base = true →
  Py.lower (take_until (Ascii.eqb ":") base).1 ∈ uses_relative →
  is_absolute_url (simple_urljoin base ref) = true.
Proof.
  intros Hbase Hscheme. unfold simple_urljoin.
  assert (Py.truthy base = true) as -> by (by destruct base). cbn [negb].
  destruct (Py.truthy ref); [|done]. cbn [negb].
  destruct (is_absolute_url ref) eqn:Href; [done|]. rewrite Hbase. cbn [negb].
  destruct (take_until (Ascii.eqb ":") base) as [sch rest] eqn:Htake.
  cbn [fst] in Hscheme. rewrite bool_decide_eq_true_2 by done. cbn [negb].
  destruct (if Py.startswith _ "//" then _ else _) as [netloc path].
  destruct (take_until _ path) as [path' ?].
  destruct (Py.startswith ref "//"); [by eapply absolute_take_until|].
  destruct (Py.startswith ref "/");
    by apply (absolute_take_until base sch rest ("//" +:+ _)).
Qed.

End SimpleUrljoin.

(** ** The result of the extraction *)

Section Extraction.

Context (float_of_str : string → option pyfloat).
Context (urljoin : string → string → string).
Context (BeautifulSoup : string → node).
Context (markdownify : node → string).
Context (readability_summary : string → string).
Context (readability_title : string → option string).
Context (json_loads : string → option json).

#[local] Abbreviation extract :=
  (extract_from_html float_of_str urljoin BeautifulSoup markdownify
     readability_summary readability_title json_loads).
#[local] Abbreviation cleaned :=
  (cleaned_container float_of_str urljoin BeautifulSoup readability_summary
     readability_title).
#[local] Abbreviation fallback_of html base_url :=
  (_extract_fallback_image urljoin json_loads html (BeautifulSoup html)
     base_url).

(** The result put together from the container and the title that the
    clean-up leaves. *)
#[local] Abbreviation assembled html base_url container title :=
  (let rendered :=
     _ensure_markdown_title (_html_to_markdown markdownify container) title in
   let final :=
     with_fallback_image (_collect_images container) rendered title
       (fallback_of html base_url) in
   {| markdown := final.2; title := title; source_url := base_url;
      images := final.1 |}).

(** After the clean-up nothing raises: the run returns when the clean-up
    does. *)
Lemma extract_of_cleaned html base_url container title :
  cleaned html base_url = Return (container, title) →
  extract html base_url = Return (assembled html base_url container title).
Proof.
  intros Hcleaned. unfold extract_from_html. rewrite Hcleaned. cbn [bind].
  by destruct (with_fallback_image _ _ _ _).
Qed.

Lemma extract_Return html base_url result :
  extract html base_url = Return result →
  ∃ container title,
    cleaned html base_url = Return (container, title)
    ∧ result = assembled html base_url container title.
Proof.
  destruct (cleaned html base_url) as [[container title]|e] eqn:Hcleaned.
  - rewrite (extract_of_cleaned _ _ _ _ Hcleaned). intros [= <-].
    by exists container, title.
  - unfold extract_from_html. by rewrite Hcleaned.
Qed.


(** C8: the fallback image is used only when the container gave no image.
    Then the result has exactly that one image, with the detected title for
    its alternative text when the fallback came without one, and the
    markdown has the image inserted; when the container gave an image, the
    list is the container's and the markdown is the rendered one, no
    fallback in either; when there is neither, the list is empty.
    [container] and [title] are what the clean-up leaves: the run returns
    when the clean-up does. *)
Theorem fallback_image_only_without_images (html base_url : string)
    (container : node) (title : option string) :
  cleaned html base_url = Return (container, title) →
  ∃ result,
    extract html base_url = Return result
    ∧ let collected := _collect_images container in
      let rendered :=
        _ensure_markdown_title (_html_to_markdown markdownify container)
          title in
      (collected ≠ [] →
         images result = collected ∧ markdown result = rendered)
      ∧ (collected = [] →
         ∀ image, fallback_of html base_url = Some image →
           let image' :=
             {| url := url image;
                alt := if truthy_opt (alt image) then alt image else title;
                caption := caption image |} in
           images result = [image']
           ∧ markdown result = _insert_fallback_image rendered image')
      ∧ (collected = [] → fallback_of html base_url = None →
         images result = [] ∧ markdown result = rendered).
Proof.
  intros Hcleaned. eexists. split; [by apply extract_of_cleaned|].
  intros collected rendered. cbn zeta. fold collected rendered.
  cbn [images markdown]. split; [|split].
  - intros Hne. unfold with_fallback_image.
    by destruct collected, (fallback_of html base_url).
  - intros -> image ->. unfold with_fallback_image.
    destruct image as [u a c]. cbn [alt url caption].
    by destruct (truthy_opt a).
  - by intros -> ->.
Qed.



End Extraction.

Lemma fallback_image_only_without_images_witness :
  let html := " " +:+ cdn_url_example +:+ " " in
  ∃ result,
    extract_example cdn_document_example html "https://www.jw.org/en/"
    = Return result
    ∧ images result
      = [{| url := cdn_url_example;
            alt := Some "Sample Title";
            caption := None |}].
Proof.
  intros html.
  destruct (fallback_image_only_without_images simple_float simple_urljoin
              (λ _, cdn_document_example) simple_markdownify (λ _, "")
              (λ _, None) (λ _, None) html "https://www.jw.org/en/"
              (Tag (Parsed 5) "main" []
                 [Tag (Parsed 6) "p" [] [Text "Body content."]])
              (Some "Sample Title"))
    as (result & Hresult & _ & Hfallback & _); [by vm_compute|].
  exists result. split; [done|].
  by destruct (Hfallback eq_refl
                 {| url := cdn_url_example; alt := None; caption := None |})
    as [-> _]; [by vm_compute|].
Defined.



(** ** The tests of the repository on the plain collaborators *)

(** The first test of the repository has a figure with a caption: the run
    ends with [AttributeError]. *)
Example extract_captioned_figure_raises :
  extract_example captioned_document_example "" "https://www.jw.org/en/"
  = Raise AttributeError.
Proof. by vm_compute. Qed.

Example extract_fallback_image_from_cms_url :
  ∃ result,
    extract_example cdn_document_example (" " +:+ cdn_url_example +:+ " ")
      "https://www.jw.org/en/" = Return result
    ∧ images result
      = [{| url := cdn_url_example;
            alt := Some "Sample Title";
            caption := None |}]
    ∧ markdown result
      = "![Sample Title](" +:+ cdn_url_example +:+ ")" +:+ Py.nl +:+ Py.nl
        +:+ "Body content.".
Proof. eexists. split; [by vm_compute|]. by vm_compute. Qed.

(* ================================================================= *)
(** * Part III: further properties of the code *)
(* ================================================================= *)

(** ** The two refusals of [validate_url] *)

Section UrlRefusals.

Context (urlparse : string → option ParseResult).

(** X1: The message of the error tells which check failed: the scheme is tested
    first, the host only for [https] URLs. *)
Theorem validate_url_error_message (url : string) :
  (validate_url urlparse url
   = Raise (ExtractionError "Only https URLs are allowed")
   ↔ ∃ parsed, urlparse url = Some parsed ∧ scheme parsed ≠ "https")
  ∧ (validate_url urlparse url
     = Raise (ExtractionError "Only jw.org URLs are allowed")
     ↔ ∃ parsed,
         urlparse url = Some parsed
         ∧ scheme parsed = "https"
         ∧ ¬ trusted_host (default "" (hostname parsed))).
Proof.
  unfold validate_url. destruct (urlparse url) as [parsed|].
  - pose proof (trusted_host_spec (default "" (hostname parsed))) as Hhost.
    cbn zeta.
    destruct (String.eqb_spec (scheme parsed) "https") as [E|E]; cbn [negb];
      [destruct (_ || _) eqn:Hh|];
      (split;
       (split;
        [intros ?; exists parsed; intuition congruence
        |intros (p & [= <-] & ?); intuition congruence])).
  - split; split; [done|by intros (? & ? & ?)|done|by intros (? & ? & ?)].
Qed.

End UrlRefusals.

(** ** The title *)

Section Title.

Lemma strip_idem s : Py.strip (Py.strip s) = Py.strip s.
Proof.
  unfold Py.strip at 1. by rewrite lstrip_strip, strip_rstrip_fixed.
Qed.

Lemma truthy_spec s : Py.truthy s = true ↔ s ≠ "".
Proof. unfold Py.truthy. by rewrite negb_true_iff, eqb_false_iff. Qed.

Lemma extract_title_Some container soup fallback t :
  _extract_title container soup fallback = Some t →
  t ≠ "" ∧ Py.strip t = t.
Proof.
  unfold _extract_title. intros Ht.
  repeat case_match; simplify_eq;
    repeat match goal with
           | H : _ && _ = true |- _ => apply andb_true_iff in H as [_ H]
           end;
    (split; [by apply truthy_spec|]);
    first [apply strip_get_text | apply strip_idem].
Qed.

(** X2: A title, when one is found, is never empty and has no white space at
    either end; the text of the first [h1] of the container, when it has
    any, wins over the [title] element and the fallback. *)
Theorem extract_title_clean (container soup : node) (fallback : option string) :
  (∀ t, _extract_title container soup fallback = Some t →
        t ≠ "" ∧ Py.strip t = t)
  ∧ (∀ h1, find "h1" container = Some h1 → get_text h1 ≠ "" →
           _extract_title container soup fallback = Some (get_text h1)).
Proof.
  split; [apply extract_title_Some|].
  intros h1 Hh1 Htext%truthy_spec. unfold _extract_title.
  by rewrite Hh1, Htext.
Qed.

(** X3: The title node, when one is recorded, is a tag of the container, of one
    of the names searched, whose visible text is the title; none is recorded
    without a title. *)
Theorem find_title_node_sound (container : node) (title : option string)
    (r : ident) :
  _find_title_node container title = Some r →
  ∃ t tag, title = Some t ∧ t ≠ ""
           ∧ tag ∈ descendants container
           ∧ named_any title_node_names tag = true
           ∧ node_ref tag = Some r
           ∧ get_text tag = t.
Proof.
  unfold _find_title_node. destruct title as [t|]; [|done].
  destruct (Py.truthy t) eqn:Ht; [|done]. cbn [negb].
  intros Hhead%head_Some_elem_of.
  apply list_elem_of_omap in Hhead as (tag & Htag & Href).
  apply list_elem_of_In, filter_In in Htag as [Htag Htext].
  apply filter_In in Htag as [Htag Hname].
  exists t, tag. split; [done|]. split; [by apply truthy_spec|].
  split; [by apply list_elem_of_In|]. split; [done|]. split; [done|].
  by apply eqb_true_iff.
Qed.

Lemma find_title_node_sound_witness :
  ∃ t tag, Some "THE WATCHTOWER" = Some t ∧ t ≠ ""
           ∧ tag ∈ descendants title_block_example
           ∧ named_any title_node_names tag = true
           ∧ node_ref tag = Some (Parsed 2)
           ∧ get_text tag = t.
Proof.
  apply (find_title_node_sound title_block_example (Some "THE WATCHTOWER")
           (Parsed 2)).
  by vm_compute.
Defined.

End Title.

(** ** The container is a tag of the document *)

Section ContainerMembership.

Lemma find_all_elem names n d :
  d ∈ find_all names n ↔ d ∈ descendants n ∧ named_any names d = true.
Proof. unfold find_all. by rewrite !list_elem_of_In, filter_In. Qed.

(** X4: The container selected is a tag of the document, an [article], a [main]
    or a [div]. *)
Theorem select_container_in_document (soup container : node) :
  _select_container soup = Some container →
  container ∈ descendants soup
  ∧ named_any ["article"; "main"; "div"] container = true.
Proof.
  unfold _select_container.
  destruct (find "article" soup) as [article|] eqn:Harticle.
  { intros [= <-]. apply find_Some in Harticle as [Hn Hd]. split; [done|].
    unfold named_any. cbn [existsb]. by rewrite Hn. }
  destruct (find "main" soup) as [main|] eqn:Hmain.
  { intros [= <-]. apply find_Some in Hmain as [Hn Hd]. split; [done|].
    unfold named_any. cbn [existsb]. by rewrite Hn, orb_true_r. }
  destruct (foldl select_step (None, 0) (find_all ["div"] soup))
    as [best len] eqn:Hfold.
  apply select_step_fold in Hfold as (_ & _ & Hbest).
  destruct Hbest as [[-> ->]|(d & -> & Hd & _)]; [done|].
  destruct (MIN_TEXT_LEN <=? len); [|done]. intros [= <-].
  apply find_all_elem in Hd as [Hd Hn]. split; [done|].
  unfold named_any in *. cbn [existsb] in *.
  rewrite orb_false_r in Hn. by rewrite Hn, !orb_true_r.
Qed.

Lemma select_container_in_document_witness :
  Tag (Parsed 8) "article" []
    [Tag (Parsed 9) "header" [] [Text "Lead"];
     Tag (Parsed 10) "audio" [] [];
     Tag (Parsed 11) "p" [] [Text "Body."]]
  ∈ descendants chrome_example.
Proof.
  eapply (select_container_in_document chrome_example). by vm_compute.
Defined.

End ContainerMembership.

(** ** What the strippers leave *)

Section Strippers.

Lemma named_prune doomed name n : named name (prune doomed n) = named name n.
Proof. by destruct n. Qed.

Lemma named_any_prune doomed names n :
  named_any names (prune doomed n) = named_any names n.
Proof.
  unfold named_any. induction names as [|x names IH]; [done|].
  cbn [existsb]. by rewrite named_prune, IH.
Qed.

Lemma named_any_remove_outer_headers inside names n :
  named_any names (remove_outer_headers inside n) = named_any names n.
Proof. by destruct n. Qed.

(** The tags of a pruned tree are the pruned tags of the tree that were not
    doomed. *)
Lemma prune_descendants doomed n d' :
  d' ∈ descendants (prune doomed n) →
  ∃ d, d ∈ descendants n ∧ d' = prune doomed d
       ∧ (is_tag d = true → doomed d = false).
Proof.
  induction n as [s|u name attrs cs IH] using node_induction;
    [by inversion 1|].
  cbn [prune]. intros (c' & Hc' & Hd')%descendants_Tag.
  apply list_elem_of_omap in Hc' as (c & Hc & Hkeep).
  destruct (is_tag c && doomed c) eqn:Hdoomed; [done|]. simplify_eq.
  destruct Hd' as [->|Hd'].
  - exists c. split; [apply descendants_Tag; eauto|]. split; [done|].
    intros Htag. by rewrite Htag in Hdoomed.
  - rewrite Forall_forall in IH.
    destruct (IH c Hc Hd') as (d & Hd & -> & Hnot).
    exists d. split; [apply descendants_Tag; eauto|]. done.
Qed.

Lemma remove_outer_headers_descendants inside n d' :
  d' ∈ descendants (remove_outer_headers inside n) →
  ∃ d inside', d ∈ descendants n ∧ d' = remove_outer_headers inside' d.
Proof.
  revert inside. induction n as [s|u name attrs cs IH] using node_induction;
    intros inside; [by inversion 1|].
  cbn [remove_outer_headers]. intros (c' & Hc' & Hd')%descendants_Tag.
  apply list_elem_of_omap in Hc' as (c & Hc & Hkeep).
  destruct (named "header" c && negb _); [done|]. simplify_eq.
  destruct Hd' as [->|Hd'].
  - eexists c, _. split; [apply descendants_Tag; eauto|done].
  - rewrite Forall_forall in IH.
    destruct (IH c Hc _ Hd') as (d & inside' & Hd & ->).
    exists d, inside'. split; [apply descendants_Tag; eauto|done].
Qed.

Lemma prune_none_named names doomed n :
  (∀ d, d ∈ descendants n → named_any names d = false) →
  ∀ d, d ∈ descendants (prune doomed n) → named_any names d = false.
Proof.
  intros Hnone d' (d & Hd & -> & _)%prune_descendants.
  rewrite named_any_prune. by apply Hnone.
Qed.

Lemma named_any_Text names s : named_any names (Text s) = false.
Proof. unfold named_any. induction names as [|x names IH]; [done|]. exact IH. Qed.

Lemma prune_named_gone names n d :
  d ∈ descendants (prune (named_any names) n) → named_any names d = false.
Proof.
  intros (d0 & Hd0 & -> & Hnot)%prune_descendants.
  rewrite named_any_prune. destruct d0; [apply named_any_Text|]. by apply Hnot.
Qed.

(** X5: After [_remove_unwanted_tags] the document holds no [script], [style],
    [noscript], [nav], [footer], [aside], [svg], [form] or [button]. *)
Theorem remove_unwanted_tags_none_left (soup d : node) :
  d ∈ descendants (_remove_unwanted_tags soup) →
  named_any ["script"; "style"; "noscript"; "nav"; "footer"; "aside"; "svg";
             "form"; "button"] d = false.
Proof.
  unfold _remove_unwanted_tags.
  intros (d0 & inside & Hd0 & ->)%remove_outer_headers_descendants.
  rewrite named_any_remove_outer_headers. by eapply prune_named_gone.
Qed.

Lemma remove_unwanted_tags_none_left_witness :
  named_any ["script"; "style"; "noscript"; "nav"; "footer"; "aside"; "svg";
             "form"; "button"]
            (Tag (Parsed 2) "head" [] []) = false
  ∧ _remove_unwanted_tags chrome_example
    = Tag (Parsed 0) "[document]" []
        [Tag (Parsed 1) "html" []
           [Tag (Parsed 2) "head" [] [];
            Tag (Parsed 4) "body" []
              [Tag (Parsed 8) "article" []
                 [Tag (Parsed 9) "header" [] [Text "Lead"];
                  Tag (Parsed 10) "audio" [] [];
                  Tag (Parsed 11) "p" [] [Text "Body."]]]]].
Proof.
  split; [|by vm_compute].
  apply (remove_unwanted_tags_none_left chrome_example).
  vm_compute. apply list_elem_of_further, list_elem_of_here.
Defined.

(** X6: After [_strip_player_controls] the container holds no [audio], [video],
    [source] or [track]. *)
Theorem strip_player_controls_no_media (container d : node) :
  d ∈ descendants (_strip_player_controls container) →
  named_any ["audio"; "video"; "source"; "track"] d = false.
Proof.
  unfold _strip_player_controls. revert d.
  do 4 apply prune_none_named. intros d. apply prune_named_gone.
Qed.

Lemma strip_player_controls_no_media_witness :
  _strip_player_controls
    (Tag (Parsed 8) "article" []
       [Tag (Parsed 10) "audio" [] []; Tag (Parsed 11) "p" [] [Text "Body."]])
  = Tag (Parsed 8) "article" [] [Tag (Parsed 11) "p" [] [Text "Body."]]
  ∧ named_any ["audio"; "video"; "source"; "track"]
      (Tag (Parsed 11) "p" [] [Text "Body."]) = false.
Proof.
  split; [by vm_compute|].
  apply (strip_player_controls_no_media
           (Tag (Parsed 8) "article" []
              [Tag (Parsed 10) "audio" [] [];
               Tag (Parsed 11) "p" [] [Text "Body."]])).
  vm_compute. apply list_elem_of_here.
Defined.

(** *** The strippers only take text away *)

Lemma strings_of_cons u name attrs c cs :
  strings_of (Tag u name attrs (c :: cs))
  = match c with
    | Text s => [s]
    | Tag _ _ _ _ => strings_of c
    end ++ strings_of (Tag u name attrs cs).
Proof.
  unfold strings_of. cbn [descendants flat_map].
  rewrite omap_app. by destruct c.
Qed.

Lemma strings_of_prune doomed n :
  strings_of (prune doomed n) `sublist_of` strings_of n.
Proof.
  induction n as [s|u name attrs cs IH] using node_induction; [done|].
  cbn [prune]. induction cs as [|c cs IHcs]; [done|].
  inversion IH as [|? ? Hc Hcs]; subst. specialize (IHcs Hcs).
  cbn [omap list_omap]. rewrite (strings_of_cons _ _ _ c).
  destruct (is_tag c && doomed c) eqn:Hdoomed.
  - by apply sublist_inserts_l.
  - rewrite strings_of_cons. apply sublist_app; [|done].
    destruct c; [done|]. exact Hc.
Qed.

Lemma strings_of_remove_outer_headers inside n :
  strings_of (remove_outer_headers inside n) `sublist_of` strings_of n.
Proof.
  revert inside. induction n as [s|u name attrs cs IH] using node_induction;
    intros inside; [done|].
  cbn [remove_outer_headers].
  set (inside' := inside || named_any ["article"; "main"] (Tag u name attrs cs)).
  clearbody inside'.
  induction cs as [|c cs IHcs]; [done|].
  inversion IH as [|? ? Hc Hcs]; subst. specialize (IHcs Hcs).
  cbn [omap list_omap]. rewrite (strings_of_cons _ _ _ c).
  destruct (named "header" c && negb inside') eqn:Hdoomed.
  - by apply sublist_inserts_l.
  - rewrite strings_of_cons. apply sublist_app; [|done].
    destruct c; [done|]. apply Hc.
Qed.

(** X7: The three strippers add no text and change no order: the strings of what
    they leave are a subsequence of the strings they were given. *)
Theorem strippers_only_remove_text (soup container : node)
    (title : option string) (title_node : option ident) :
  strings_of (_remove_unwanted_tags soup) `sublist_of` strings_of soup
  ∧ strings_of (_strip_player_controls container)
      `sublist_of` strings_of container
  ∧ strings_of (_strip_metadata_blocks container title title_node)
      `sublist_of` strings_of container.
Proof.
  split; [|split].
  - unfold _remove_unwanted_tags.
    etrans; [apply strings_of_remove_outer_headers|apply strings_of_prune].
  - unfold _strip_player_controls.
    repeat (etrans; [apply strings_of_prune|]). done.
  - apply strings_of_prune.
Qed.

End Strippers.

(** ** Links and images *)

Section LinksAndImages.

Context (float_of_str : string → option pyfloat).
Context (urljoin : string → string → string).
Context (base_url : string).

Lemma strings_of_with_attrs n attrs :
  strings_of (with_attrs n attrs) = strings_of n.
Proof. by destruct n. Qed.

Lemma descendants_with_attrs n attrs :
  descendants (with_attrs n attrs) = descendants n.
Proof. by destruct n. Qed.

(** The tags below an updated tree are the updated tags of the tree, when the
    update leaves contents alone. *)
Lemma update_descendants_descendants f n d' :
  (∀ c c', f c = Some c' → descendants c' = descendants c) →
  d' ∈ descendants (update_descendants f n) →
  ∃ d, d ∈ descendants n
       ∧ ((is_tag d = true ∧ f (update_descendants f d) = Some d')
          ∨ (is_tag d = false ∧ d' = d)).
Proof.
  intros Hf. induction n as [s|u name attrs cs IH] using node_induction;
    [by inversion 1|].
  cbn [update_descendants]. intros (c' & Hc' & Hd')%descendants_Tag.
  apply list_elem_of_omap in Hc' as (c & Hc & Hkeep).
  destruct (is_tag c) eqn:Htag.
  - destruct Hd' as [->|Hd'].
    + exists c. split; [apply descendants_Tag; eauto|]. by left.
    + rewrite (Hf _ _ Hkeep) in Hd'. rewrite Forall_forall in IH.
      destruct (IH c Hc Hd') as (d & Hd & Hcases).
      exists d. split; [apply descendants_Tag; eauto|done].
  - injection Hkeep as <-. destruct c as [s|]; [|done].
    destruct Hd' as [->|Hd']; [|by inversion Hd'].
    exists (Text s). split; [apply descendants_Tag; eauto|]. by right.
Qed.

Lemma normalize_links_step_contents anchor c' :
  (if named "a" anchor && truthy_opt (get anchor "href") then
     Some (with_attrs anchor
             (dict_set (attrs_of anchor) "href"
                (urljoin base_url (get_or_empty anchor "href"))))
   else Some anchor) = Some c' →
  descendants c' = descendants anchor.
Proof.
  destruct (named "a" anchor && _); intros [= <-]; [|done].
  apply descendants_with_attrs.
Qed.

Lemma normalize_images_step_contents img c' :
  (if named "img" img
   then fst <$> _normalize_img_tag float_of_str urljoin img base_url
   else Some img) = Some c' →
  descendants c' = descendants img.
Proof.
  destruct (named "img" img); [|by intros [= <-]].
  unfold _normalize_img_tag. destruct (img_source _ img); [|done].
  intros [= <-]. apply descendants_with_attrs.
Qed.

(** An update that only rewrites attributes keeps the strings. *)
Lemma strings_of_update_attrs f n :
  (∀ c, ∃ attrs, f c = Some (with_attrs c attrs)) →
  strings_of (update_descendants f n) = strings_of n.
Proof.
  intros Hf. induction n as [s|u name attrs cs IH] using node_induction;
    [done|].
  cbn [update_descendants]. induction cs as [|c cs IHcs]; [done|].
  inversion IH as [|? ? Hc Hcs]; subst. specialize (IHcs Hcs).
  cbn [omap list_omap]. rewrite (strings_of_cons _ _ _ c).
  destruct c as [s|cu cname cattrs ccs]; cbn [is_tag].
  - by rewrite strings_of_cons, IHcs.
  - destruct (Hf (update_descendants f (Tag cu cname cattrs ccs)))
      as [attrs' ->].
    rewrite strings_of_cons, IHcs. f_equal.
    cbn [update_descendants with_attrs]. exact Hc.
Qed.

Lemma normalize_links_step_attrs anchor :
  ∃ attrs,
    (if named "a" anchor && truthy_opt (get anchor "href") then
       Some (with_attrs anchor
               (dict_set (attrs_of anchor) "href"
                  (urljoin base_url (get_or_empty anchor "href"))))
     else Some anchor)
    = Some (with_attrs anchor attrs).
Proof.
  destruct (named "a" anchor && _); [by eexists|].
  exists (attrs_of anchor). by destruct anchor.
Qed.

(** X8: [_normalize_links] leaves the visible text of the container as it is,
    and every anchor it leaves with a non-empty [href] has one resolved
    against the base URL. *)
Theorem normalize_links_resolves (container : node) :
  let result := _normalize_links urljoin container base_url in
  get_text result = get_text container
  ∧ ∀ anchor, anchor ∈ descendants result →
              named "a" anchor = true →
              truthy_opt (get anchor "href") = true →
              resolved urljoin base_url (get_or_empty anchor "href").
Proof.
  intros result. split.
  - unfold get_text, result, _normalize_links.
    rewrite strings_of_update_attrs; [done|apply normalize_links_step_attrs].
  - intros anchor Hanchor Hname Hhref.
    apply update_descendants_descendants in Hanchor as (d & _ & Hcases);
      [|apply normalize_links_step_contents].
    destruct Hcases as [[_ Hf]|[Htag ->]]; [|by destruct d].
    set (d0 := update_descendants _ d) in *.
    destruct (named "a" d0 && truthy_opt (get d0 "href")) eqn:Hcond.
    + simplify_eq. unfold get_or_empty.
      destruct d0 as [|u name attrs cs]; [done|].
      cbn [with_attrs attrs_of get]. rewrite dict_get_set_eq. by eexists.
    + simplify_eq. by rewrite Hname, Hhref in Hcond.
Qed.

(** X9: Every image that [_normalize_images] leaves in the container has a
    source resolved against the base URL and none of the lazy-loading or
    source-set attributes. *)
Theorem normalize_images_settled (container img : node) :
  img ∈ descendants
          (_normalize_images float_of_str urljoin container base_url) →
  named "img" img = true →
  (∃ ref, get img "src" = Some (urljoin base_url ref))
  ∧ ∀ key, key ∈ redundant_attrs → get img key = None.
Proof.
  unfold _normalize_images. intros Himg Hname.
  apply update_descendants_descendants in Himg as (d & _ & Hcases);
    [|apply normalize_images_step_contents].
  destruct Hcases as [[_ Hf]|[Htag ->]]; [|by destruct d].
  set (d0 := update_descendants _ d) in *.
  destruct (named "img" d0) eqn:Hd0; [|by simplify_eq; congruence].
  unfold _normalize_img_tag in Hf.
  destruct (img_source float_of_str d0) as [src|]; [|done].
  cbn in Hf. simplify_eq.
  pose proof (named_is_tag _ _ Hd0) as Htag. split.
  - exists src. by rewrite get_normalized_img by done.
  - intros key Hkey. rewrite get_normalized_img by done.
    rewrite bool_decide_eq_true_2 by done.
    destruct (String.eqb_spec key "src") as [->|]; [|done].
    exfalso. unfold redundant_attrs in Hkey.
    by repeat (apply elem_of_cons in Hkey as [Hkey|Hkey]; [done|]);
      inversion Hkey.
Qed.

End LinksAndImages.

Lemma normalize_images_settled_witness :
  let img :=
    Tag (Parsed 12) "img"
      [("alt", "Inline"); ("src", "https://www.jw.org/images/inline.jpg")] [] in
  (∃ ref, get img "src" = Some (simple_urljoin "https://www.jw.org/en/" ref))
  ∧ ∀ key, key ∈ redundant_attrs → get img key = None.
Proof.
  intros img.
  apply (normalize_images_settled simple_float simple_urljoin
           "https://www.jw.org/en/"
           (Tag (Parsed 5) "main" []
              [Tag (Parsed 12) "img"
                 [("data-src", "/images/inline.jpg"); ("alt", "Inline")] []])).
  - vm_compute. apply list_elem_of_here.
  - reflexivity.
Defined.

(** ** The entries of the image list *)

Section ImageEntries.

Lemma image_alt_clean img a :
  image_alt img = Some a → a ≠ "" ∧ Py.strip a = a.
Proof.
  unfold image_alt. destruct (get img "alt") as [a0|]; [|done].
  destruct (Py.truthy (Py.strip a0)) eqn:Ha; [|done]. intros [= <-].
  split; [by apply truthy_spec|apply strip_idem].
Qed.

Lemma image_entry_clean img following image :
  image_entry img following = Some image →
  url image ≠ ""
  ∧ (∀ a, alt image = Some a → a ≠ "" ∧ Py.strip a = a)
  ∧ (∀ c, caption image = Some c → c ≠ "" ∧ Py.strip c = c).
Proof.
  unfold image_entry. destruct (get img "src") as [src|]; [|done].
  destruct (Py.truthy src) eqn:Hsrc; [|done]. cbn [negb].
  intros [= <-]. cbn [url alt caption].
  split; [by apply truthy_spec|]. split; [apply image_alt_clean|].
  intros c Hc. repeat case_match; simplify_eq.
  match goal with
  | H : _ && _ = true |- _ => apply andb_true_iff in H as [H _]
  end.
  split; [by apply truthy_spec|apply strip_get_text].
Qed.

Lemma images_below_entries (P : Image → Prop) n :
  (∀ img following image, image_entry img following = Some image → P image) →
  Forall P (images_below n).
Proof.
  intros HP. induction n as [s|u name attrs cs IH] using node_induction;
    [by constructor|].
  induction cs as [|c cs IHcs]; [by constructor|].
  inversion IH as [|? ? Hc Hcs]; subst. rewrite images_below_cons.
  repeat apply Forall_app_2; [|done|by apply IHcs].
  destruct (named "img" c); [|by constructor].
  destruct (image_entry c cs) as [image|] eqn:Hentry; [|by constructor].
  constructor; [by eapply HP|by constructor].
Qed.

(** X10: No entry of the image list carries an empty string: the URL is not
    empty, and the alternative text and the caption are absent or not empty
    and without white space at either end. *)
Theorem collect_images_clean (container : node) :
  Forall (λ image,
            url image ≠ ""
            ∧ (∀ a, alt image = Some a → a ≠ "" ∧ Py.strip a = a)
            ∧ (∀ c, caption image = Some c → c ≠ "" ∧ Py.strip c = c))
         (_collect_images container).
Proof. apply images_below_entries. apply image_entry_clean. Qed.

End ImageEntries.

(** ** No figure is left *)

Section NoFigureLeft.

Context (float_of_str : string → option pyfloat).
Context (urljoin : string → string → string).
Context (base_url : string).

Lemma named_normalize_figures name n result :
  _normalize_figures float_of_str urljoin n base_url = Return result →
  named name result = named name n.
Proof.
  intros Hroot%normalize_figures_root.
  destruct n; [by subst|]. by rewrite Hroot.
Qed.

Lemma flatten_figure_no_figure figure piece d c' :
  (∀ img, img ∈ descendants figure → named "img" img = true →
          contents_of img = []) →
  flatten_figure float_of_str urljoin base_url figure = Return piece →
  c' ∈ piece →
  d = c' ∨ d ∈ descendants c' →
  named "figure" d = false.
Proof.
  intros Hvoid [->|(img & src & Himg & _ & ->)]%flatten_Return;
    [by inversion 1|].
  intros ->%list_elem_of_singleton.
  apply find_Some in Himg as [Hname Hin].
  specialize (Hvoid img Hin Hname).
  destruct img as [|iu iname iattrs ics]; [done|]. cbn in Hvoid. subst ics.
  cbn in Hname. apply eqb_true_iff in Hname as ->.
  intros [->|Hd]; [done|]. by inversion Hd.
Qed.

(** X11: On a tree as the parser builds it, where an image has no contents,
    [_normalize_figures] leaves no figure in the container. *)
Theorem normalize_figures_none_left (container result d : node) :
  (∀ img, img ∈ descendants container → named "img" img = true →
          contents_of img = []) →
  _normalize_figures float_of_str urljoin container base_url = Return result →
  d ∈ descendants result →
  named "figure" d = false.
Proof.
  revert result d.
  induction container as [s|u name attrs cs IH] using node_induction;
    intros result d Hvoid Hresult; [injection Hresult as <-; by inversion 1|].
  pose proof (normalize_figures_root _ _ _ _ _ Hresult) as Hroot.
  cbn in Hroot. rewrite Hroot.
  intros (c' & Hc' & Hd)%descendants_Tag.
  destruct (normalize_figures_child _ _ _ _ _ _ _ _ _ Hresult Hc')
    as (c & Hc & Hcases).
  assert (∀ img, img ∈ descendants c → named "img" img = true →
                 contents_of img = []) as Hvoid'.
  { intros img Himg. apply Hvoid, descendants_Tag. eauto. }
  destruct Hcases as [(_ & piece & Hpiece & Hin)|[Hfig Hc0]].
  - by eapply flatten_figure_no_figure.
  - destruct Hd as [->|Hd];
      [by rewrite (named_normalize_figures _ _ _ Hc0)|].
    rewrite Forall_forall in IH. by apply (IH c Hc c').
Qed.

End NoFigureLeft.

Lemma normalize_figures_none_left_witness :
  _normalize_figures simple_float simple_urljoin nested_figure_example
    "https://www.jw.org/en/"
  = Return
      (Tag (Parsed 0) "main" []
         [Tag (Parsed 2) "img" [("src", "https://www.jw.org/a.jpg")] []])
  ∧ named "figure"
      (Tag (Parsed 2) "img" [("src", "https://www.jw.org/a.jpg")] []) = false.
Proof.
  split; [by vm_compute|].
  apply (normalize_figures_none_left simple_float simple_urljoin
           "https://www.jw.org/en/" nested_figure_example
           (Tag (Parsed 0) "main" []
              [Tag (Parsed 2) "img" [("src", "https://www.jw.org/a.jpg")] []])).
  - intros img Himg. vm_compute in Himg.
    repeat (apply elem_of_cons in Himg as [->|Himg]; [by vm_compute|]).
    by inversion Himg.
  - by vm_compute.
  - apply list_elem_of_here.
Defined.

(** ** Scores and the best URL *)

Section BestUrl.

Lemma size_score_bounds size : (0 ≤ size_score size ≤ 5)%Z.
Proof. unfold size_score. repeat case_match; lia. Qed.

(** X12: A score is between 0 and 5, and [_pick_best_image_url] gives nothing
    exactly for the empty list and otherwise one of the URLs it was
    given. *)
Theorem pick_best_image_url_total (urls : list string) :
  (∀ url', (0 ≤ _score_image_url url' ≤ 5)%Z)
  ∧ (_pick_best_image_url urls = None ↔ urls = [])
  ∧ (∀ best, _pick_best_image_url urls = Some best → best ∈ urls).
Proof.
  split; [|split].
  - intros url'. unfold _score_image_url.
    destruct (search_size url'); [apply size_score_bounds|lia].
  - split; [|by intros ->].
    destruct urls as [|u0 urls']; [done|]. unfold _pick_best_image_url.
    set (key := λ item : scored_url, (item.1.2, - item.1.1)%Z).
    set (scored := imap _ (u0 :: urls')).
    destruct (sort_on_nonempty key scored) as [m Hm]; [done|].
    by rewrite Hm.
  - apply pick_best_image_url_elem.
Qed.

End BestUrl.


(** ** The best candidate of a source set *)

Section Srcset.

Context (float_of_str : string → option pyfloat).

(** Merging and sorting look at the order only between the elements they
    are given. *)
Lemma list_merge_ext {A} (R R' : relation A) `{!∀ x y, Decision (R x y)}
    `{!∀ x y, Decision (R' x y)} (Q : A → Prop) l1 l2 :
  (∀ x y, Q x → Q y → (R x y ↔ R' x y)) →
  Forall Q l1 → Forall Q l2 →
  list_merge R l1 l2 = list_merge R' l1 l2.
Proof.
  intros Hagree. revert l2.
  induction l1 as [|x1 l1 IH1]; intros l2 H1 H2; [by destruct l2|].
  induction l2 as [|x2 l2 IH2]; [done|]. rewrite !list_merge_cons.
  inversion H1; inversion H2; subst.
  destruct (decide (R x1 x2)) as [HR|HR], (decide (R' x1 x2)) as [HR'|HR'].
  - f_equal. by apply IH1.
  - by apply Hagree in HR.
  - by apply Hagree in HR'.
  - f_equal. by apply IH2.
Qed.

Lemma list_merge_Forall {A} (R : relation A) `{!∀ x y, Decision (R x y)}
    (Q : A → Prop) l1 l2 :
  Forall Q l1 → Forall Q l2 → Forall Q (list_merge R l1 l2).
Proof.
  intros H1 H2. rewrite (merge_Permutation R l1 l2). by apply Forall_app_2.
Qed.

Lemma merge_sort_ext {A} (R R' : relation A) `{!∀ x y, Decision (R x y)}
    `{!∀ x y, Decision (R' x y)} (Q : A → Prop) l :
  (∀ x y, Q x → Q y → (R x y ↔ R' x y)) →
  Forall Q l →
  merge_sort R l = merge_sort R' l.
Proof.
  intros Hagree.
  set (within := Forall (λ run : option (list A),
                           from_option (Forall Q) True run)).
  assert (∀ st run, within st → Forall Q run →
            merge_list_to_stack R st run = merge_list_to_stack R' st run
            ∧ within (merge_list_to_stack R st run)) as Hpush.
  { induction st as [|[run'|] st IH]; intros run Hst Hrun;
      cbn [merge_list_to_stack].
    - split; [done|]. by repeat constructor.
    - inversion Hst as [|? ? Hrun' Hst']; subst. cbn in Hrun'.
      rewrite <- (list_merge_ext R R' Q) by done.
      destruct (IH (list_merge R run' run) Hst') as [-> ?];
        [by apply list_merge_Forall|].
      split; [done|]. by constructor.
    - inversion Hst; subst. split; [done|]. by constructor. }
  assert (∀ st, within st →
            merge_stack R st = merge_stack R' st
            ∧ Forall Q (merge_stack R st)) as Hflush.
  { induction st as [|[run|] st IH]; intros Hst; cbn [merge_stack].
    - by split.
    - inversion Hst as [|? ? Hrun Hst']; subst. cbn in Hrun.
      destruct (IH Hst') as [<- ?].
      split; [by apply (list_merge_ext R R' Q)|by apply list_merge_Forall].
    - inversion Hst; subst. by apply IH. }
  assert (∀ items st, within st → Forall Q items →
            merge_sort_aux R st items = merge_sort_aux R' st items) as Hsort.
  { induction items as [|x items IH]; intros st Hst Hitems;
      cbn [merge_sort_aux].
    - by apply Hflush.
    - inversion Hitems; subst.
      destruct (Hpush st [x]) as [<- ?]; [done|by repeat constructor|].
      by apply IH. }
  intros Hl. apply Hsort; [by constructor|done].
Qed.

(** The last element of a list sorted by a relation that is a total order
    on the elements of the list. *)
Lemma merge_sort_last {A} (R : relation A) `{!∀ x y, Decision (R x y)}
    (Q : A → Prop) (repair : A → A) (l : list A) :
  (∀ x, Q (repair x)) →
  (∀ x, Q x → repair x = x) →
  (∀ x y, Q x → Q y → R x y ∨ R y x) →
  (∀ x y z, Q x → Q y → Q z → R x y → R y z → R x z) →
  Forall Q l →
  match last (merge_sort R l) with
  | Some m => m ∈ l ∧ ∀ x, x ∈ l → x = m ∨ R x m
  | None => l = []
  end.
Proof.
  intros Hrepair Hfixed Htotal Htrans Hl.
  set (R' := λ x y, R (repair x) (repair y)).
  assert (∀ x y, Decision (R' x y)) as Hdec by (intros x y; apply _).
  assert (Total R') by (intros x y; by apply Htotal).
  assert (Transitive R') by (intros x y z; by apply Htrans).
  rewrite (merge_sort_ext R R' Q l); [|by intros x y Hx Hy; unfold R';
                                        rewrite !Hfixed by done|done].
  assert (∀ x y, x ∈ l → y ∈ l → R' x y → R x y) as Hback.
  { rewrite Forall_forall in Hl. intros x y Hx Hy. unfold R'.
    by rewrite !Hfixed by by apply Hl. }
  destruct (last (merge_sort R' l)) as [m|] eqn:Hlast.
  - assert (m ∈ l) as Hm.
    { rewrite <- (merge_sort_Permutation R' l). by apply last_Some_elem_of. }
    split; [done|]. intros x Hx.
    destruct (StronglySorted_last R' (merge_sort R' l) m) with (x := x)
      as [?|?]; [by apply StronglySorted_merge_sort|done| |by left|].
    + by rewrite (merge_sort_Permutation R' l).
    + right. by apply Hback.
  - apply last_None in Hlast. apply Permutation_nil_r. rewrite <- Hlast.
    by rewrite merge_sort_Permutation.
Qed.

(** On scores that are numbers the keys are totally ordered. *)
Lemma float_lt_spec a b :
  a ≠ NaN → b ≠ NaN →
  float_lt a b = true
  ↔ match a, b with
    | Finite p, Finite q => (p < q)%Q
    | NegInf, (Finite _ | PosInf) | Finite _, PosInf => True
    | _, _ => False
    end.
Proof.
  intros Ha Hb. destruct a as [p| | |], b as [q| | |]; try done;
    cbn [float_lt].
  rewrite negb_true_iff, <- not_true_iff_false, Qle_bool_iff.
  split; [apply Qnot_le_lt|apply Qlt_not_le].
Qed.

Lemma float_eq_spec a b :
  float_eq a b = true
  ↔ match a, b with
    | Finite p, Finite q => (p == q)%Q
    | PosInf, PosInf | NegInf, NegInf => True
    | _, _ => False
    end.
Proof.
  destruct a as [p| | |], b as [q| | |]; try done; cbn [float_eq].
  apply Qeq_bool_iff.
Qed.

Lemma srcset_key_le_spec a b :
  srcset_key_le a b
  ↔ float_lt a.1 b.1 = true ∨ (float_eq a.1 b.1 = true ∧ a.2 ≤ b.2).
Proof.
  unfold srcset_key_le.
  by rewrite orb_True, andb_True, !Is_true_true, Nat.leb_le.
Qed.

Lemma srcset_key_le_total a b :
  a.1 ≠ NaN → b.1 ≠ NaN → srcset_key_le a b ∨ srcset_key_le b a.
Proof.
  intros Ha Hb. rewrite !srcset_key_le_spec, !float_eq_spec.
  rewrite !float_lt_spec by done.
  destruct a as [[p| | |] i], b as [[q| | |] j]; cbn [fst snd] in *;
    try done; try tauto;
    try (destruct (Nat.le_ge_cases i j); tauto).
  destruct (Q_dec p q) as [[Hlt|Hgt]|Heq]; [tauto|tauto|].
  destruct (Nat.le_ge_cases i j); [left|right]; right; split;
    [done|done|by symmetry|done].
Qed.

Lemma srcset_key_le_trans a b c :
  a.1 ≠ NaN → b.1 ≠ NaN → c.1 ≠ NaN →
  srcset_key_le a b → srcset_key_le b c → srcset_key_le a c.
Proof.
  intros Ha Hb Hc. rewrite !srcset_key_le_spec, !float_eq_spec.
  rewrite !float_lt_spec by done.
  destruct a as [[p| | |] i], b as [[q| | |] j], c as [[r| | |] k];
    cbn [fst snd] in *; try done; try tauto; try (intuition lia).
  intros [Hab|[Hab Hab']] [Hbc|[Hbc Hbc']].
  - left. by eapply Qlt_trans.
  - left. by rewrite <- Hbc.
  - left. by rewrite Hab.
  - right. split; [by rewrite Hab|lia].
Qed.

Lemma srcset_candidate_of_index i part score j url' :
  srcset_candidate_of float_of_str i part = Some (score, j, url') → j = i.
Proof.
  unfold srcset_candidate_of. destruct (Py.split_ws _); [done|].
  by intros [= _ <- _].
Qed.

Lemma elem_of_srcset_candidates (parts : list string) score i url' :
  (score, i, url') ∈ omap id (imap (srcset_candidate_of float_of_str) parts)
  ↔ ∃ part, parts !! i = Some part
            ∧ srcset_candidate_of float_of_str i part = Some (score, i, url').
Proof.
  rewrite list_elem_of_omap. split.
  - intros (x & Hx & Hid). cbn in Hid. subst x.
    apply elem_of_lookup_imap in Hx as (j & part & Hcand & Hj).
    symmetry in Hcand.
    pose proof (srcset_candidate_of_index _ _ _ _ _ Hcand) as ->. eauto.
  - intros (part & Hi & Hcand). exists (Some (score, i, url')).
    split; [|done]. apply elem_of_lookup_imap. eauto.
Qed.

(** X13: Of a source set none of whose descriptors reads as [nan],
    [_best_src_from_srcset] gives the URL of the part with the greatest
    descriptor value, and of several such parts the last one; of any source
    set it gives nothing exactly when every part between the commas is
    blank. *)
Theorem best_src_from_srcset_greatest_latest (srcset : string) :
  let parts := split_on "," srcset in
  let candidate := srcset_candidate_of float_of_str in
  (_best_src_from_srcset float_of_str srcset = None
   ↔ ∀ i part, parts !! i = Some part → candidate i part = None)
  ∧ ((∀ i part score url',
        parts !! i = Some part → candidate i part = Some (score, i, url') →
        score ≠ NaN) →
     ∀ best, _best_src_from_srcset float_of_str srcset = Some best →
       ∃ i part score,
         parts !! i = Some part
         ∧ candidate i part = Some (score, i, best)
         ∧ ∀ j part' score' url',
             parts !! j = Some part' →
             candidate j part' = Some (score', j, url') →
             float_lt score score' = false
             ∧ (float_eq score' score = true → j ≤ i)).
Proof.
  intros parts candidate. unfold _best_src_from_srcset.
  fold parts. fold candidate.
  set (candidates := omap id (imap candidate parts)).
  set (R := λ a b : srcset_candidate,
              srcset_key_le (a.1.1, a.1.2) (b.1.1, b.1.2)).
  split.
  - destruct (last (merge_sort R candidates)) as [m|] eqn:Hlast; cbn.
    + split; [done|]. intros Hnone.
      assert (m ∈ candidates) as Hm.
      { rewrite <- (merge_sort_Permutation R candidates).
        by apply last_Some_elem_of. }
      destruct m as [[score i] url'].
      apply elem_of_srcset_candidates in Hm as (part & Hi & Hcand).
      specialize (Hnone i part Hi). unfold candidate in Hnone. congruence.
    + split; [|done]. intros _ i part Hi.
      destruct (candidate i part) as [[[score j] url']|] eqn:Hcand; [|done].
      pose proof (srcset_candidate_of_index _ _ _ _ _ Hcand) as ->.
      assert ((score, i, url') ∈ candidates) as Hin.
      { apply elem_of_srcset_candidates. eauto. }
      apply last_None in Hlast.
      rewrite <- (merge_sort_Permutation R candidates), Hlast in Hin.
      by inversion Hin.
  - intros Hnumbers.
    set (Q := λ c : srcset_candidate, c.1.1 ≠ NaN).
    set (repair := λ c : srcset_candidate,
                     (match c.1.1 with NaN => Finite 0 | s => s end,
                      c.1.2, c.2)).
    assert (Forall Q candidates) as Hall.
    { apply Forall_forall. intros [[score i] url'] Hin.
      apply elem_of_srcset_candidates in Hin as (part & Hi & Hcand).
      by eapply Hnumbers. }
    pose proof (merge_sort_last R Q repair candidates) as Hlast.
    destruct (last (merge_sort R candidates)) as [[[score i] best]|]; cbn;
      [|done].
    destruct Hlast as [Hin Hmax]; [| | | |done|].
    { intros [[[]]]; done. }
    { intros [[[]]]; done. }
    { intros x y Hx Hy. by apply srcset_key_le_total. }
    { intros x y z Hx Hy Hz. by apply srcset_key_le_trans. }
    pose proof Hin as Hscore. apply (proj1 (Forall_forall _ _) Hall) in Hscore.
    apply elem_of_srcset_candidates in Hin as (part & Hi & Hcand).
    intros ? [= <-]. exists i, part, score. split; [done|]. split; [done|].
    intros j part' score' url' Hj Hcand'.
    assert (score' ≠ NaN) as Hscore' by by eapply Hnumbers.
    unfold Q in Hscore. cbn in Hscore.
    destruct (float_lt score score') eqn:Hlt.
    + exfalso. destruct (Hmax (score', j, url')) as [E|HR].
      * apply elem_of_srcset_candidates. eauto.
      * simplify_eq. apply float_lt_spec in Hlt; [|done..].
        destruct score; try done. by apply Qlt_irrefl in Hlt.
      * apply srcset_key_le_spec in HR as [Hlt'|[Heq _]]; cbn in *.
        -- apply float_lt_spec in Hlt, Hlt'; [|done..].
           destruct score, score'; try done.
           by apply (Qlt_irrefl value), (Qlt_trans _ value0).
        -- apply float_lt_spec in Hlt; [|done..].
           apply float_eq_spec in Heq.
           destruct score, score'; try done.
           rewrite Heq in Hlt. by apply Qlt_irrefl in Hlt.
    + split; [done|]. intros Heq.
      destruct (Hmax (score', j, url')) as [E|HR].
      * apply elem_of_srcset_candidates. eauto.
      * by simplify_eq.
      * apply srcset_key_le_spec in HR as [Hlt'|[_ Hle]]; cbn in *; [|done].
        apply float_lt_spec in Hlt'; [|done..]. apply float_eq_spec in Heq.
        destruct score, score'; try done.
        rewrite Heq in Hlt'. by apply Qlt_irrefl in Hlt'.
Qed.

End Srcset.

Lemma best_src_from_srcset_greatest_latest_witness :
  _best_src_from_srcset simple_float "/a.jpg 2x, /b.jpg 10x, /c.jpg 10x,"
  = Some "/c.jpg"
  ∧ ∃ i part score,
      split_on "," "/a.jpg 2x, /b.jpg 10x, /c.jpg 10x," !! i = Some part
      ∧ srcset_candidate_of simple_float i part = Some (score, i, "/c.jpg").
Proof.
  split; [by vm_compute|].
  destruct (best_src_from_srcset_greatest_latest simple_float
              "/a.jpg 2x, /b.jpg 10x, /c.jpg 10x,") as [_ Hbest].
  destruct (Hbest) with (best := "/c.jpg")
    as (i & part & score & Hi & Hcand & _); [|by vm_compute|by eauto].
  intros i part score url' Hi Hcand.
  do 4 (destruct i as [|i];
        [vm_compute in Hi; injection Hi as <-; vm_compute in Hcand;
         by simplify_eq|]).
  by vm_compute in Hi.
Defined.


(** ** The rendered markdown *)

Section Rendered.

Lemma contains_unfold needle s :
  Py.contains needle s
  = String.prefix needle s
    || match s with
       | "" => false
       | String _ s' => Py.contains needle s'
       end.
Proof. by destruct s. Qed.

Lemma prefix_app needle s : String.prefix needle (needle +:+ s) = true.
Proof.
  induction needle as [|c needle IH]; [by destruct s|].
  rewrite app_cons. cbn [String.prefix]. by destruct (ascii_dec c c).
Qed.

Lemma prefix_refl needle : String.prefix needle needle = true.
Proof. rewrite <- (app_empty_r needle) at 2. apply prefix_app. Qed.

Lemma prefix_app_r needle a w :
  String.prefix needle a = true → String.prefix needle (a +:+ w) = true.
Proof.
  revert a. induction needle as [|c needle IH]; intros a; [by destruct a, w|].
  destruct a as [|d a]; [done|]. rewrite app_cons. cbn [String.prefix].
  destruct (ascii_dec c d); [apply IH|done].
Qed.

Lemma prefix_app_both a b c :
  String.prefix (a +:+ b) (a +:+ c) = String.prefix b c.
Proof.
  induction a as [|x a IH]; [done|]. rewrite !app_cons. cbn [String.prefix].
  by destruct (ascii_dec x x).
Qed.

Lemma contains_here needle s : Py.contains needle (needle +:+ s) = true.
Proof. by rewrite contains_unfold, prefix_app. Qed.

Lemma contains_app_l p needle s :
  Py.contains needle s = true → Py.contains needle (p +:+ s) = true.
Proof.
  intros Hs. induction p as [|c p IH]; [done|].
  rewrite app_cons. cbn [Py.contains]. by rewrite IH, orb_true_r.
Qed.

Lemma contains_app_r a w needle :
  Py.contains needle a = true → Py.contains needle (a +:+ w) = true.
Proof.
  induction a as [|c a IH].
  - cbn [Py.contains]. rewrite orb_false_r. intros H.
    rewrite contains_unfold. by rewrite (prefix_app_r _ "" w H).
  - rewrite app_cons. cbn [Py.contains]. intros [H|H]%orb_true_iff.
    + pose proof (prefix_app_r _ (String c a) w H) as H'.
      rewrite app_cons in H'. by rewrite H'.
    + by rewrite IH, orb_true_r.
Qed.

Lemma lstrip_suffix s : ∃ w, s = w +:+ Py.lstrip s.
Proof.
  induction s as [|c s [w IH]]; [by exists ""|]. cbn [Py.lstrip].
  destruct (Py.is_space c); [|by exists ""].
  exists (String c w). by rewrite app_cons, <- IH.
Qed.

Lemma rstrip_prefix s : ∃ w, s = Py.rstrip s +:+ w.
Proof.
  induction s as [|c s [w IH]]; [by exists ""|]. cbn [Py.rstrip].
  destruct (Py.rstrip s) as [|d r].
  - rewrite app_empty_l in IH. subst w.
    destruct (Py.is_space c); [by exists (String c s)|by exists s].
  - exists w. by rewrite app_cons, <- IH.
Qed.

Lemma contains_strip needle s :
  Py.contains needle s = false → Py.contains needle (Py.strip s) = false.
Proof.
  intros Hs. destruct (Py.contains needle (Py.strip s)) eqn:Hstrip; [|done].
  unfold Py.strip in Hstrip.
  destruct (rstrip_prefix (Py.lstrip s)) as [w Hw].
  destruct (lstrip_suffix s) as [v Hv].
  apply (contains_app_r _ w) in Hstrip. rewrite <- Hw in Hstrip.
  apply (contains_app_l v) in Hstrip. rewrite <- Hv in Hstrip. congruence.
Qed.

Lemma contains_run_after_char c rest p :
  c ≠ Py.LF → p ≤ 2 →
  Py.contains (Py.replicate_char 3 Py.LF) rest = false →
  Py.contains (Py.replicate_char 3 Py.LF)
              (Py.replicate_char p Py.LF +:+ String c rest) = false.
Proof.
  intros Hc Hp Hrest.
  assert (Py.contains (Py.replicate_char 3 Py.LF) (String c rest) = false)
    as Hcrest.
  { cbn [Py.contains Py.replicate_char String.prefix].
    destruct (ascii_dec Py.LF c) as [E|_]; [by symmetry in E|exact Hrest]. }
  destruct p as [|[|[|p]]]; [exact Hcrest| | |lia];
    cbn [Py.replicate_char]; rewrite ?app_cons, app_empty_l;
    cbn [Py.contains String.prefix];
    repeat destruct (ascii_dec _ _); try congruence;
    cbn [orb]; exact Hrest.
Qed.

Lemma flush_newlines_run p :
  ∃ q, q ≤ 2 ∧ flush_newlines p = Py.replicate_char q Py.LF.
Proof.
  unfold flush_newlines. destruct (3 <=? p) eqn:Hp.
  - by exists 2.
  - apply Nat.leb_gt in Hp. exists p. split; [lia|done].
Qed.

Lemma collapse_from_no_triple p s :
  Py.contains (Py.replicate_char 3 Py.LF) (collapse_newlines_from p s) = false.
Proof.
  revert p. induction s as [|c s IH]; intros p; cbn [collapse_newlines_from].
  - destruct (flush_newlines_run p) as (q & Hq & ->).
    by destruct q as [|[|[|q]]]; [| | |lia].
  - destruct (Ascii.eqb_spec c Py.LF) as [->|Hc]; [apply IH|].
    destruct (flush_newlines_run p) as (q & Hq & ->).
    by apply contains_run_after_char.
Qed.

(** X14: The markdown that [_html_to_markdown] returns has no white space at
    either end and nowhere three newlines in a row, whatever the renderer
    gave. *)
Theorem html_to_markdown_tidy (markdownify : node → string)
    (container : node) :
  let rendered := _html_to_markdown markdownify container in
  Py.strip rendered = rendered
  ∧ Py.contains (Py.replicate_char 3 Py.LF) rendered = false.
Proof.
  unfold _html_to_markdown. split; [apply strip_idem|].
  apply contains_strip, collapse_from_no_triple.
Qed.

Lemma image_md_alt (image : Image) :
  (if truthy_opt (alt image) then default "" (alt image) else "")
  = default "" (alt image).
Proof. destruct (alt image) as [[|c a]|]; done. Qed.

(** X15: The markdown with the fallback image always holds the reference to the
    image.  It is the reference alone when the markdown is blank; it has the
    reference behind the heading, after an empty line, when the first line
    that is not blank is a heading; and otherwise it opens with the
    reference, the markdown following after an empty line. *)
Theorem insert_fallback_image_placed (markdown : string) (image : Image) :
  let image_md :=
    "![" +:+ default "" (alt image) +:+ "](" +:+ url image +:+ ")" in
  let result := _insert_fallback_image markdown image in
  let lines := Py.splitlines markdown in
  Py.contains image_md result = true
  ∧ (Py.strip markdown = "" → result = image_md)
  ∧ (Py.strip markdown ≠ "" →
     match list_find nonblank lines with
     | Some (idx, line) =>
         if Py.startswith line "# " then
           Py.startswith result
             (Py.join Py.nl (take (idx + 1) lines)
              +:+ Py.nl +:+ Py.nl +:+ image_md) = true
         else result = image_md +:+ Py.nl +:+ Py.nl +:+ markdown
     | None => result = image_md +:+ Py.nl +:+ Py.nl +:+ markdown
     end).
Proof.
  intros image_md result lines. subst result. unfold _insert_fallback_image.
  rewrite image_md_alt. fold image_md. fold lines.
  destruct (Py.truthy (Py.strip markdown)) eqn:Hblank; cbn [negb].
  - apply truthy_spec in Hblank.
    assert (∀ rest, Py.contains image_md (image_md +:+ rest) = true) as Hhere
      by (intros; apply contains_here).
    destruct (list_find nonblank lines) as [[idx line]|];
      [|by rewrite Hhere].
    destruct (Py.startswith line "# "); [|by rewrite Hhere].
    set (head := Py.join Py.nl (take (idx + 1) lines)).
    set (tail := Py.strip (Py.join Py.nl (drop (idx + 1) lines))).
    unfold Py.startswith.
    destruct (Py.truthy tail).
    + split; [by do 3 apply contains_app_l|]. split; [done|]. intros _.
      rewrite !prefix_app_both. apply prefix_app.
    + split.
      * do 3 apply contains_app_l. rewrite <- (app_empty_r image_md) at 2.
        apply contains_here.
      * split; [done|]. intros _. apply prefix_refl.
  - split; [|split; [done|]].
    + rewrite <- (app_empty_r image_md) at 2. apply contains_here.
    + intros Hne. exfalso. apply Hne.
      unfold Py.truthy in Hblank. apply negb_false_iff in Hblank.
      by apply eqb_true_iff in Hblank.
Qed.

End Rendered.


(** ** The fallback image *)

Section FallbackImage.

Context (urljoin : string → string → string).
Context (json_loads : string → option json).

Lemma json_induction (P : json → Prop) :
  P JNull →
  (∀ b, P (JBool b)) →
  (∀ literal, P (JNumber literal)) →
  (∀ s, P (JString s)) →
  (∀ items, Forall P items → P (JArray items)) →
  (∀ members, Forall (λ member, P member.2) members → P (JObject members)) →
  ∀ j, P j.
Proof.
  intros HNull HBool HNumber HString HArray HObject. fix IH 1.
  intros [|b|literal|s|items|members]; [done..| |].
  - apply HArray.
    induction items as [|item items IHitems]; constructor;
      [apply IH|apply IHitems].
  - apply HObject.
    induction members as [|[key value] members IHmembers]; constructor;
      [apply IH|apply IHmembers].
Qed.

Lemma json_strings_member members member s :
  member ∈ members → s ∈ json_strings member.2 →
  s ∈ json_strings (JObject members).
Proof.
  intros Hmember Hs. cbn [json_strings].
  apply list_elem_of_In, in_flat_map. exists member.
  by rewrite <- !list_elem_of_In.
Qed.

Lemma json_strings_item items item s :
  item ∈ items → s ∈ json_strings item → s ∈ json_strings (JArray items).
Proof.
  intros Hitem Hs. cbn [json_strings].
  apply list_elem_of_In, in_flat_map. exists item.
  by rewrite <- !list_elem_of_In.
Qed.

Lemma json_get_elem members key value :
  json_get members key = Some value → (key, value) ∈ members.
Proof.
  induction members as [|[k v] members IH]; [done|]. cbn [json_get].
  destruct (String.eqb k key) eqn:Hk.
  - apply eqb_true_iff in Hk as ->. intros [= ->]. apply list_elem_of_here.
  - intros H. by apply list_elem_of_further, IH.
Qed.

Lemma url_member_strings j s : url_member j = Some s → s ∈ json_strings j.
Proof.
  destruct j as [| | | | |members]; try done. cbn [url_member].
  destruct (json_get members "url") as [[| | |s'| |]|] eqn:Hget; try done.
  intros [= ->]. eapply json_strings_member; [by apply json_get_elem|].
  apply list_elem_of_here.
Qed.

Lemma image_of_value_strings value s :
  image_of_value value = Some s → s ∈ json_strings value.
Proof.
  destruct value as [| | |s'|items|members]; try done; cbn [image_of_value].
  - intros [= ->]. apply list_elem_of_here.
  - intros (item & Hitem & Hs)%head_Some_elem_of%list_elem_of_omap.
    eapply json_strings_item; [done|].
    destruct item; try done; [|by apply url_member_strings].
    injection Hs as ->. apply list_elem_of_here.
  - apply url_member_strings.
Qed.

Lemma image_of_members_strings members s :
  image_of_members members = Some s → s ∈ json_strings (JObject members).
Proof.
  unfold image_of_members.
  destruct (json_get members "image" ≫= image_of_value) as [s'|] eqn:Himage.
  - intros [= ->].
    destruct (json_get members "image") as [value|] eqn:Hget; [|done].
    eapply json_strings_member; [by apply json_get_elem|].
    by apply image_of_value_strings.
  - destruct (json_get members "thumbnailUrl") as [value|] eqn:Hget; [|done].
    intros Hs. eapply json_strings_member; [by apply json_get_elem|].
    by apply image_of_value_strings.
Qed.

Lemma jsonld_image_value_strings payload url' :
  _extract_jsonld_image_value payload = Some url' →
  url' ∈ json_strings payload.
Proof.
  revert url'.
  induction payload as [|b|literal|s|items IH|members IH] using json_induction;
    intros url'; try done; cbn [_extract_jsonld_image_value].
  - intros Hscan.
    assert (∃ item, item ∈ items ∧ url' ∈ json_strings item)
      as (item & Hitem & Hurl).
    { revert Hscan. induction items as [|item items IHitems]; [done|].
      inversion IH as [|? ? Hhead Htail]; subst.
      destruct (truthy_opt (_extract_jsonld_image_value item)) eqn:Hfound.
      - intros Hurl. exists item. split; [apply list_elem_of_here|].
        by apply Hhead.
      - intros Hrest. destruct (IHitems Htail Hrest) as (item' & ? & ?).
        exists item'. split; [by apply list_elem_of_further|done]. }
    by eapply json_strings_item.
  - destruct (image_of_members members) as [s|] eqn:Hdirect.
    { intros [= ->]. by apply image_of_members_strings. }
    intros Hscan.
    assert (∃ member, member ∈ members ∧ url' ∈ json_strings member.2)
      as (member & Hmember & Hurl).
    { clear Hdirect. revert Hscan.
      induction members as [|[key nested] members IHmembers]; [done|].
      inversion IH as [|? ? Hhead Htail]; subst.
      destruct (truthy_opt (_extract_jsonld_image_value nested)) eqn:Hfound.
      - intros Hurl. exists (key, nested). split; [apply list_elem_of_here|].
        by apply Hhead.
      - intros Hrest. destruct (IHmembers Htail Hrest) as (member & ? & ?).
        exists member. split; [by apply list_elem_of_further|done]. }
    by eapply json_strings_member.
Qed.

Lemma truthy_opt_Some v : truthy_opt v = true → ∃ s, v = Some s ∧ s ≠ "".
Proof.
  destruct v as [s|]; [|done]. intros Hs%truthy_spec. by exists s.
Qed.

Lemma find_all_with_elem name key value n d :
  d ∈ find_all_with name key value n →
  d ∈ descendants n ∧ named name d = true ∧ get d key = Some value.
Proof.
  unfold find_all_with. rewrite list_elem_of_In, filter_In, <- list_elem_of_In.
  intros [[Hd Hname]%find_all_elem Hkey]. split; [done|]. split.
  - unfold named_any in Hname. cbn [existsb] in Hname.
    by rewrite orb_false_r in Hname.
  - destruct (get d key) as [v|]; [|done].
    by apply eqb_true_iff in Hkey as ->.
Qed.

(** X16: The image that [_extract_jsonld_image] finds is never the empty string,
    and it is a string of the data decoded from a script of the type
    [application/ld+json] of the document. *)
Theorem extract_jsonld_image_sound (soup : node) (image_url : string) :
  _extract_jsonld_image json_loads soup = Some image_url →
  image_url ≠ ""
  ∧ ∃ script text payload,
      script ∈ descendants soup
      ∧ named "script" script = true
      ∧ get script "type" = Some "application/ld+json"
      ∧ tag_string script = Some text
      ∧ json_loads text = Some payload
      ∧ image_url ∈ json_strings payload.
Proof.
  unfold _extract_jsonld_image.
  intros (script & Hscript & Hfound)%head_Some_elem_of%list_elem_of_omap.
  apply find_all_with_elem in Hscript as (Hd & Hname & Htype).
  destruct (tag_string script) as [text|] eqn:Htext; [|done].
  destruct (Py.truthy text); [|done].
  destruct (json_loads text) as [payload|] eqn:Hloads; [|done].
  destruct (truthy_opt (_extract_jsonld_image_value payload)) eqn:Htruthy;
    [|done].
  apply truthy_opt_Some in Htruthy as (s & Hs & Hne).
  rewrite Hs in Hfound. injection Hfound as <-. split; [done|].
  exists script, text, payload. repeat (split; [done|]).
  by apply jsonld_image_value_strings.
Qed.

Lemma best_cdn_image_plain urls image :
  best_cdn_image urls = Some image → alt image = None ∧ caption image = None.
Proof.
  unfold best_cdn_image. destruct urls; [done|].
  destruct (_pick_best_image_url _); [|done].
  destruct (Py.truthy _); [|done]. by intros [= <-].
Qed.

Lemma extract_image_link_Some soup href link_alt :
  _extract_image_link soup = (Some href, link_alt) →
  ∃ anchor,
    anchor ∈ descendants soup
    ∧ named "a" anchor = true
    ∧ get anchor "href" = Some href
    ∧ Py.startswith (get_text anchor) "Image:" = true
    ∧ link_alt
      = (let rest := Py.strip (drop_chars 6 (get_text anchor)) in
         if Py.truthy rest then Some rest else None).
Proof.
  unfold _extract_image_link.
  destruct (head _) as [found|] eqn:Hhead; [|done]. intros ->.
  apply head_Some_elem_of, list_elem_of_omap in Hhead
    as (anchor & [Hd Hname]%find_all_elem & Hfound).
  exists anchor. cbn beta zeta in Hfound.
  destruct (Py.truthy (get_text anchor)); [|done].
  destruct (Py.startswith (get_text anchor) "Image:"); [|done].
  destruct (truthy_opt (get anchor "href")); [|done].
  cbn [andb] in Hfound.
  unfold named_any in Hname. cbn [existsb] in Hname.
  rewrite orb_false_r in Hname. cbn zeta.
  repeat (split; [first [done|congruence]|]). congruence.
Qed.

Lemma fallback_image_texts html soup base_url image :
  _extract_fallback_image urljoin json_loads html soup base_url = Some image →
  caption image = None
  ∧ ∀ a, alt image = Some a → a ≠ "" ∧ Py.strip a = a.
Proof.
  unfold _extract_fallback_image.
  destruct (truthy_opt (_extract_meta_image soup)); [by intros [= <-]|].
  destruct (truthy_opt (_extract_jsonld_image json_loads soup));
    [by intros [= <-]|].
  destruct (_extract_image_link soup) as [link_url link_alt] eqn:Hlink.
  destruct (truthy_opt link_url) eqn:Hurl.
  - apply truthy_opt_Some in Hurl as (href & -> & _). intros [= <-].
    cbn [caption alt]. split; [done|]. intros a ->.
    apply extract_image_link_Some in Hlink as (anchor & _ & _ & _ & _ & Halt).
    cbn zeta in Halt.
    destruct (Py.truthy (Py.strip (drop_chars 6 (get_text anchor))))
      eqn:Hrest; [|done].
    injection Halt as ->. split; [by apply truthy_spec|apply strip_idem].
  - destruct (best_cdn_image (CMS_IMAGE_RE_findall html)) as [cms|] eqn:Hcms.
    + intros [= <-]. apply best_cdn_image_plain in Hcms as [Halt ?].
      split; [done|]. intros a. by rewrite Halt.
    + intros [Halt ?]%best_cdn_image_plain.
      split; [done|]. intros a. by rewrite Halt.
Qed.

(** X17: The fallback image never has a caption.  It has an alternative text only
    when it comes from a link whose text begins with [Image:]: the text is
    then what follows, stripped and not empty, and the URL is the target of
    that link resolved against the base URL. *)
Theorem extract_fallback_image_alt_from_link (html : string) (soup : node)
    (base_url : string) (image : Image) :
  _extract_fallback_image urljoin json_loads html soup base_url = Some image →
  caption image = None
  ∧ ∀ a, alt image = Some a →
      a ≠ "" ∧ Py.strip a = a
      ∧ ∃ anchor href,
          anchor ∈ descendants soup
          ∧ named "a" anchor = true
          ∧ get anchor "href" = Some href
          ∧ url image = urljoin base_url href
          ∧ Py.startswith (get_text anchor) "Image:" = true
          ∧ a = Py.strip (drop_chars 6 (get_text anchor)).
Proof.
  unfold _extract_fallback_image.
  destruct (truthy_opt (_extract_meta_image soup)); [by intros [= <-]|].
  destruct (truthy_opt (_extract_jsonld_image json_loads soup));
    [by intros [= <-]|].
  destruct (_extract_image_link soup) as [link_url link_alt] eqn:Hlink.
  destruct (truthy_opt link_url) eqn:Hurl.
  - apply truthy_opt_Some in Hurl as (href & -> & _). intros [= <-].
    cbn [caption alt url default]. split; [done|]. intros a ->.
    apply extract_image_link_Some
      in Hlink as (anchor & Hd & Hname & Hhref & Hstart & Halt).
    cbn zeta in Halt.
    destruct (Py.truthy (Py.strip (drop_chars 6 (get_text anchor))))
      eqn:Hrest; [|done].
    injection Halt as ->.
    split; [by apply truthy_spec|]. split; [apply strip_idem|].
    by exists anchor, href.
  - destruct (best_cdn_image (CMS_IMAGE_RE_findall html)) as [cms|] eqn:Hcms.
    + intros [= <-]. apply best_cdn_image_plain in Hcms as [Halt ?].
      split; [done|]. intros a. by rewrite Halt.
    + intros [Halt ?]%best_cdn_image_plain.
      split; [done|]. intros a. by rewrite Halt.
Qed.

End FallbackImage.

Lemma extract_jsonld_image_sound_witness :
  let json_loads := λ text : string,
    if String.eqb text "{}" then Some jsonld_example else None in
  "/img/a.jpg" ≠ ""
  ∧ ∃ script text payload,
      script ∈ descendants
                 (Tag (Parsed 0) "head" []
                    [Tag (Parsed 1) "script" [("type", "application/ld+json")]
                       [Text "{}"]])
      ∧ named "script" script = true
      ∧ get script "type" = Some "application/ld+json"
      ∧ tag_string script = Some text
      ∧ json_loads text = Some payload
      ∧ "/img/a.jpg" ∈ json_strings payload.
Proof.
  intros json_loads.
  apply (extract_jsonld_image_sound json_loads
           (Tag (Parsed 0) "head" []
              [Tag (Parsed 1) "script" [("type", "application/ld+json")]
                 [Text "{}"]])).
  reflexivity.
Defined.

Lemma extract_fallback_image_alt_from_link_witness :
  let image :=
    {| url := "https://www.jw.org/img/hero_xl.jpg";
       alt := Some "Hero image alt text";
       caption := None |} in
  _extract_fallback_image simple_urljoin (λ _, None) "" image_link_example
    "https://www.jw.org/en/" = Some image
  ∧ caption image = None
  ∧ ∀ a, alt image = Some a → a ≠ "" ∧ Py.strip a = a.
Proof.
  intros image. split; [by vm_compute|].
  destruct (extract_fallback_image_alt_from_link simple_urljoin (λ _, None) ""
              image_link_example "https://www.jw.org/en/" image)
    as [Hcaption Halt]; [by vm_compute|].
  split; [done|]. intros a Ha. destruct (Halt a Ha) as (? & ? & _). done.
Defined.


(** ** The result of the pipeline *)

Section PipelineResult.

Context (float_of_str : string → option pyfloat).
Context (urljoin : string → string → string).
Context (BeautifulSoup : string → node).
Context (markdownify : node → string).
Context (readability_summary : string → string).
Context (readability_title : string → option string).
Context (json_loads : string → option json).

#[local] Abbreviation extract_result :=
  (extract_from_html float_of_str urljoin BeautifulSoup markdownify
     readability_summary readability_title json_loads).
#[local] Abbreviation cleaned_of :=
  (cleaned_container float_of_str urljoin BeautifulSoup readability_summary
     readability_title).
#[local] Abbreviation fallback_image_of html base_url :=
  (_extract_fallback_image urljoin json_loads html (BeautifulSoup html)
     base_url).

Lemma cleaned_title html base_url container t :
  cleaned_of html base_url = Return (container, Some t) →
  t ≠ "" ∧ Py.strip t = t.
Proof.
  unfold cleaned_container.
  destruct (_select_container _) as [selected|];
    [|destruct (_readability_fallback _ _ _ _) as [selected fallback]];
    (destruct (_normalize_figures _ _ _ _); [|done]);
    cbn [bind]; intros [= _ Htitle]; by eapply extract_title_Some.
Qed.

(** X18: No text of the result is empty or has white space around it: the title,
    the alternative text and the caption of every image are absent, or not
    empty and stripped; and the result carries the base URL as its source. *)
Theorem extract_result_texts_clean (html base_url : string)
    (result : ExtractionResult) :
  extract_result html base_url = Return result →
  let clean (text : option string) :=
    ∀ t, text = Some t → t ≠ "" ∧ Py.strip t = t in
  clean (title result)
  ∧ Forall (λ image, clean (alt image) ∧ clean (caption image))
           (images result)
  ∧ source_url result = base_url.
Proof.
  intros (container & found & Hcleaned & ->)%extract_Return clean.
  cbn [title images source_url]. cbn zeta.
  assert (clean found) as Htitle.
  { intros t ->. by eapply cleaned_title. }
  split; [done|]. split; [|done].
  set (collected := _collect_images container).
  assert (Forall (λ image, clean (alt image) ∧ clean (caption image))
                 collected) as Hcollected.
  { eapply Forall_impl.
    - apply images_below_entries, image_entry_clean.
    - by intros image (_ & ? & ?). }
  unfold with_fallback_image.
  destruct collected as [|image0 collected']; [|done].
  destruct (fallback_image_of html base_url) as [image|] eqn:Hfallback;
    [|done].
  cbn [fst]. constructor; [|done].
  apply fallback_image_texts in Hfallback as [Hcaption Halt].
  destruct (truthy_opt (alt image)); cbn [negb alt caption].
  - split; [done|by rewrite Hcaption].
  - split; [done|by rewrite Hcaption].
Qed.

(** X19: When the container gives no image and a fallback image is found, the
    result lists one image, with the URL of the fallback, and its markdown
    holds the reference to that image, written with the alternative text
    listed.  [container] is what the clean-up leaves: the run returns when
    the clean-up does. *)
Theorem extract_fallback_reference_in_markdown (html base_url : string)
    (container : node) (title : option string) (fallback : Image) :
  cleaned_of html base_url = Return (container, title) →
  _collect_images container = [] →
  fallback_image_of html base_url = Some fallback →
  ∃ result image,
    extract_result html base_url = Return result
    ∧ images result = [image]
    ∧ url image = url fallback
    ∧ Py.contains
        ("![" +:+ default "" (alt image) +:+ "](" +:+ url image +:+ ")")
        (markdown result) = true.
Proof.
  intros Hcleaned Hcollected Hfallback.
  eexists _, _. split; [by apply extract_of_cleaned|].
  cbn [images markdown]. cbn zeta. rewrite Hcollected, Hfallback.
  unfold with_fallback_image. cbn [fst snd].
  split; [done|]. split; [by destruct (negb _)|].
  match goal with
  | |- Py.contains _ (_insert_fallback_image ?markdown ?image) = true =>
      generalize markdown; generalize image
  end.
  intros image rendered. unfold _insert_fallback_image.
  rewrite image_md_alt.
  set (image_md := "![" +:+ default "" (alt image) +:+ "](" +:+ url image
                   +:+ ")").
  assert (∀ rest, Py.contains image_md (image_md +:+ rest) = true) as Hhere
    by (intros; apply contains_here).
  assert (Py.contains image_md image_md = true) as Hself.
  { rewrite <- (app_empty_r image_md) at 2. apply contains_here. }
  destruct (negb _); [done|].
  destruct (list_find nonblank _) as [[idx line]|]; [|done].
  destruct (Py.startswith line "# "); [|done].
  destruct (Py.truthy _); by do 3 apply contains_app_l.
Qed.

End PipelineResult.

Lemma extract_result_texts_clean_witness :
  ∃ result,
    extract_example cdn_document_example (" " +:+ cdn_url_example +:+ " ")
      "https://www.jw.org/en/" = Return result
    ∧ title result = Some "Sample Title"
    ∧ (∀ t, title result = Some t → t ≠ "" ∧ Py.strip t = t)
    ∧ source_url result = "https://www.jw.org/en/".
Proof.
  destruct (extract_example cdn_document_example
              (" " +:+ cdn_url_example +:+ " ") "https://www.jw.org/en/")
    as [result|e] eqn:Hresult; [|by vm_compute in Hresult].
  exists result.
  destruct (extract_result_texts_clean simple_float simple_urljoin
              (λ _, cdn_document_example) simple_markdownify (λ _, "")
              (λ _, None) (λ _, None) (" " +:+ cdn_url_example +:+ " ")
              "https://www.jw.org/en/" result Hresult) as (Htitle & _ & Hsource).
  split; [done|]. split; [|done].
  vm_compute in Hresult. by injection Hresult as <-.
Defined.

Lemma extract_fallback_reference_in_markdown_witness :
  ∃ result image,
    extract_example cdn_document_example (" " +:+ cdn_url_example +:+ " ")
      "https://www.jw.org/en/" = Return result
    ∧ images result = [image]
    ∧ url image = cdn_url_example
    ∧ Py.contains
        ("![" +:+ default "" (alt image) +:+ "](" +:+ url image +:+ ")")
        (markdown result) = true.
Proof.
  apply (extract_fallback_reference_in_markdown simple_float simple_urljoin
           (λ _, cdn_document_example) simple_markdownify (λ _, "")
           (λ _, None) (λ _, None) (" " +:+ cdn_url_example +:+ " ")
           "https://www.jw.org/en/"
           (Tag (Parsed 5) "main" []
              [Tag (Parsed 6) "p" [] [Text "Body content."]])
           (Some "Sample Title")
           {| url := cdn_url_example; alt := None; caption := None |});
    by vm_compute.
Defined.


(** ** The image of the meta tags *)

Section MetaImage.

(** X20: What [_extract_meta_image] returns is the stripped [content], not empty
    before stripping, of a [meta] tag of the document that carries one of
    the five keys. *)
Theorem extract_meta_image_sound (soup : node) (image_url : string) :
  _extract_meta_image soup = Some image_url →
  Py.strip image_url = image_url
  ∧ ∃ attr key tag content,
      (attr, key) ∈ meta_keys
      ∧ tag ∈ descendants soup
      ∧ named "meta" tag = true
      ∧ get tag attr = Some key
      ∧ get tag "content" = Some content
      ∧ content ≠ ""
      ∧ image_url = Py.strip content.
Proof.
  unfold _extract_meta_image.
  intros ([attr key] & Hkey & Hfound)%head_Some_elem_of%list_elem_of_omap.
  destruct (head (find_all_with "meta" attr key soup)) as [tag|] eqn:Htag;
    [|done].
  apply head_Some_elem_of, find_all_with_elem in Htag as (Hd & Hname & Hattr).
  destruct (truthy_opt (get tag "content")) eqn:Hcontent; [|done].
  apply truthy_opt_Some in Hcontent as (content & Hget & Hne).
  unfold get_or_empty in Hfound. rewrite Hget in Hfound.
  injection Hfound as <-. split; [apply strip_idem|].
  by exists attr, key, tag, content.
Qed.

End MetaImage.

Lemma extract_meta_image_sound_witness :
  let soup :=
    Tag (Parsed 0) "head" []
      [Tag (Parsed 1) "meta" [("property", "og:image")] [];
       Tag (Parsed 2) "meta"
         [("name", "twitter:image"); ("content", " /img/card.jpg ")] []] in
  _extract_meta_image soup = Some "/img/card.jpg"
  ∧ Py.strip "/img/card.jpg" = "/img/card.jpg".
Proof.
  intros soup. split; [by vm_compute|].
  by destruct (extract_meta_image_sound soup "/img/card.jpg")
    as [? _]; [by vm_compute|].
Defined.

(** ** Headers *)

Section Headers.

Lemma remove_outer_headers_inside n : remove_outer_headers true n = n.
Proof.
  induction n as [s|u name attrs cs IH] using node_induction; [done|].
  cbn [remove_outer_headers orb]. f_equal.
  induction cs as [|c cs IHcs]; [done|].
  inversion IH as [|? ? Hc Hcs]; subst. cbn [omap list_omap].
  by rewrite andb_false_r, Hc, IHcs.
Qed.

Lemma remove_outer_headers_article inside n :
  named_any ["article"; "main"] n = true → remove_outer_headers inside n = n.
Proof.
  destruct n as [s|u name attrs cs]; [done|]. intros Hn.
  cbn [remove_outer_headers]. rewrite Hn, orb_true_r. f_equal.
  induction cs as [|c cs IHcs]; [done|]. cbn [omap list_omap].
  by rewrite andb_false_r, remove_outer_headers_inside, IHcs.
Qed.

Lemma named_remove_outer_headers inside name n :
  named name (remove_outer_headers inside n) = named name n.
Proof. by destruct n. Qed.

Lemma remove_outer_headers_left inside n header :
  header ∈ descendants (remove_outer_headers inside n) →
  named "header" header = true →
  inside = true
  ∨ named_any ["article"; "main"] n = true
  ∨ ∃ a, a ∈ descendants (remove_outer_headers inside n)
         ∧ named_any ["article"; "main"] a = true
         ∧ header ∈ descendants a.
Proof.
  revert inside. induction n as [s|u name attrs cs IH] using node_induction;
    intros inside; [by inversion 1|].
  cbn [remove_outer_headers].
  set (inside' := inside || named_any ["article"; "main"] (Tag u name attrs cs)).
  intros (c' & Hc' & Hheader)%descendants_Tag Hname.
  assert (inside' = true →
          inside = true ∨ named_any ["article"; "main"] (Tag u name attrs cs)
                          = true) as Hinside.
  { unfold inside'. intros [?|?]%orb_true_iff; [by left|by right]. }
  pose proof Hc' as Hchild.
  apply list_elem_of_omap in Hc' as (c & Hc & Hkeep).
  destruct (named "header" c && negb inside') eqn:Hgone; [done|].
  injection Hkeep as <-.
  assert (∀ e, e ∈ descendants (remove_outer_headers inside' c) →
               e ∈ descendants
                     (Tag u name attrs
                        (omap (λ c0, if named "header" c0 && negb inside'
                                     then None
                                     else Some (remove_outer_headers inside' c0))
                              cs))) as Hbelow.
  { intros e He. apply descendants_Tag. eauto. }
  destruct Hheader as [->|Hheader].
  - rewrite named_remove_outer_headers in Hname. rewrite Hname in Hgone.
    cbn [andb] in Hgone. apply negb_false_iff in Hgone.
    destruct (Hinside Hgone); [by left|by right; left].
  - rewrite Forall_forall in IH.
    destruct (IH c Hc inside' Hheader Hname) as [Hin|[Hc'|(a & Ha & Hna & Hh)]].
    + destruct (Hinside Hin); [by left|by right; left].
    + right. right. exists (remove_outer_headers inside' c).
      split; [apply descendants_Tag; eauto|].
      by rewrite named_any_remove_outer_headers.
    + right. right. exists a. split; [by apply Hbelow|done].
Qed.

(** X21: Of the [header]s, [_remove_unwanted_tags] leaves those in an [article]
    or a [main] and no other: on a tree whose root is an [article] or a
    [main] it removes the nine unwanted names and nothing else, and every
    [header] that it leaves anywhere lies in an [article] or a [main]. *)
Theorem remove_unwanted_tags_headers (soup : node) :
  let unwanted :=
    ["script"; "style"; "noscript"; "nav"; "footer"; "aside"; "svg"; "form";
     "button"] in
  (named_any ["article"; "main"] soup = true →
   _remove_unwanted_tags soup = prune (named_any unwanted) soup)
  ∧ ∀ header,
      header ∈ descendants (_remove_unwanted_tags soup) →
      named "header" header = true →
      named_any ["article"; "main"] soup = true
      ∨ ∃ a, a ∈ descendants (_remove_unwanted_tags soup)
             ∧ named_any ["article"; "main"] a = true
             ∧ header ∈ descendants a.
Proof.
  intros unwanted. unfold _remove_unwanted_tags. fold unwanted. split.
  - intros Hroot. apply remove_outer_headers_article.
    by rewrite named_any_prune.
  - intros header Hheader Hname.
    destruct (remove_outer_headers_left _ _ _ Hheader Hname)
      as [?|[Hroot|?]]; [done| |by right].
    left. by rewrite named_any_prune in Hroot.
Qed.

End Headers.

(** ** Long blocks *)

Section LongBlocks.

(** The length that [_strip_metadata_blocks] compares with 250. *)
#[local] Abbreviation normalized_length tag :=
  (String.length (Py.join " " (Py.split_ws (get_text tag)))).

Lemma prune_keeps_protected (protected : node → Prop) doomed n d :
  (∀ n d, d ∈ descendants n → protected d → protected n) →
  (∀ c, doomed c = true → ¬ protected c) →
  d ∈ descendants n → protected d →
  prune doomed d ∈ descendants (prune doomed n).
Proof.
  intros Hup Hsafe.
  induction n as [s|u name attrs cs IH] using node_induction;
    [by inversion 1|].
  intros (c & Hc & Hd)%descendants_Tag Hprotected.
  assert (protected c) as Hc'.
  { destruct Hd as [->|Hd]; [done|]. by eapply Hup. }
  assert (doomed c = false) as Hkeep.
  { destruct (doomed c) eqn:E; [|done]. by apply Hsafe in E. }
  cbn [prune]. apply descendants_Tag. exists (prune doomed c). split.
  - apply list_elem_of_omap. exists c. split; [done|].
    by rewrite Hkeep, andb_false_r.
  - destruct Hd as [->|Hd]; [by left|right].
    rewrite Forall_forall in IH. by apply IH.
Qed.

Lemma strings_of_Text s : strings_of (Text s) = [].
Proof. done. Qed.

Lemma strings_of_infix n d :
  d ∈ descendants n →
  ∃ before after, strings_of n = before ++ strings_of d ++ after.
Proof.
  induction n as [s|u name attrs cs IH] using node_induction;
    [by inversion 1|].
  intros (c & Hc & Hd)%descendants_Tag.
  induction cs as [|c0 cs IHcs]; [by inversion Hc|].
  inversion IH as [|? ? Hc0 Hcs]; subst. rewrite strings_of_cons.
  apply elem_of_cons in Hc as [->|Hc].
  - destruct Hd as [->|Hd].
    + destruct c0 as [s|u0 name0 attrs0 cs0].
      * exists [], ([s] ++ strings_of (Tag u name attrs cs)). done.
      * by exists [], (strings_of (Tag u name attrs cs)).
    + destruct c0 as [s|u0 name0 attrs0 cs0]; [by inversion Hd|].
      destruct (Hc0 Hd) as (before & after & ->).
      exists before, (after ++ strings_of (Tag u name attrs cs)).
      by rewrite <- !app_assoc.
  - destruct (IHcs Hcs Hc) as (before & after & ->).
    exists (match c0 with
            | Text s => [s]
            | Tag _ _ _ _ => strings_of c0
            end ++ before), after.
    by rewrite <- app_assoc.
Qed.

Lemma split_ws_nonspace c s :
  Py.is_space c = false → Py.split_ws (String c s) ≠ [].
Proof.
  intros Hc. cbn [Py.split_ws]. rewrite Hc.
  destruct s as [|c' s]; [done|]. destruct (Py.is_space c'); [done|].
  by destruct (Py.split_ws (String c' s)).
Qed.

Lemma split_ws_app a b :
  Py.split_ws (a +:+ String " " b) = Py.split_ws a ++ Py.split_ws b.
Proof.
  induction a as [|c a IH]; [done|].
  rewrite app_cons. cbn [Py.split_ws].
  destruct (Py.is_space c) eqn:Hc; [exact IH|].
  destruct a as [|c' a]; [done|].
  rewrite app_cons in *.
  destruct (Py.is_space c') eqn:Hc'; [by rewrite IH|].
  rewrite IH. pose proof (split_ws_nonspace c' a Hc') as Hne.
  by destruct (Py.split_ws (String c' a)).
Qed.

Lemma split_ws_empty : Py.split_ws "" = [].
Proof. done. Qed.

Lemma join_cons_nonempty sep x y ys :
  Py.join sep (x :: y :: ys) = x +:+ sep +:+ Py.join sep (y :: ys).
Proof. done. Qed.

Lemma split_ws_join_app (xs ys : list string) :
  Py.split_ws (Py.join " " (xs ++ ys))
  = Py.split_ws (Py.join " " xs) ++ Py.split_ws (Py.join " " ys).
Proof.
  induction xs as [|x xs IH]; [done|].
  destruct xs as [|x' xs].
  - destruct ys as [|y ys].
    + cbn [app]. change (Py.split_ws (Py.join " " [])) with (@nil string).
      by rewrite app_nil_r.
    + cbn [app]. rewrite join_cons_nonempty. apply split_ws_app.
  - cbn [app] in *. rewrite !join_cons_nonempty.
    change (x +:+ " " +:+ ?t) with (x +:+ String " " t).
    by rewrite !split_ws_app, IH, app_assoc.
Qed.

Lemma length_app_str (a b : string) :
  String.length (a +:+ b) = String.length a + String.length b.
Proof. induction a as [|c a IH]; [done|]. rewrite app_cons. cbn. by rewrite IH. Qed.

Lemma length_join_app_l sep (xs ys : list string) :
  String.length (Py.join sep xs) ≤ String.length (Py.join sep (xs ++ ys)).
Proof.
  induction xs as [|x xs IH]; [cbn; lia|].
  destruct xs as [|x' xs].
  - destruct ys as [|y ys]; [by rewrite app_nil_r|].
    cbn [app]. rewrite join_cons_nonempty, length_app_str. cbn. lia.
  - cbn [app] in *. rewrite !join_cons_nonempty, !length_app_str. lia.
Qed.

Lemma length_join_app_r sep (xs ys : list string) :
  String.length (Py.join sep ys) ≤ String.length (Py.join sep (xs ++ ys)).
Proof.
  induction xs as [|x xs IH]; [done|].
  destruct (xs ++ ys) as [|z zs] eqn:E.
  - apply app_eq_nil in E as [_ ->]. cbn. lia.
  - cbn [app]. rewrite E, join_cons_nonempty, !length_app_str. lia.
Qed.

Lemma get_text_words_infix n d :
  d ∈ descendants n →
  ∃ before after,
    Py.split_ws (get_text n)
    = before ++ Py.split_ws (get_text d) ++ after.
Proof.
  intros (before & after & Hstrings)%strings_of_infix.
  unfold get_text. rewrite Hstrings.
  rewrite !fmap_app, !List.filter_app, !split_ws_join_app. eauto.
Qed.

Lemma normalized_length_mono n d :
  d ∈ descendants n → normalized_length d ≤ normalized_length n.
Proof.
  intros (before & after & ->)%get_text_words_infix.
  etrans; [|apply length_join_app_r]. apply length_join_app_l.
Qed.

Lemma metadata_rules_short tag title :
  metadata_rules tag title = true → normalized_length tag ≤ 250.
Proof.
  unfold metadata_rules. cbn zeta.
  rewrite !orb_true_iff, !andb_true_iff, Nat.leb_le. tauto.
Qed.

(** X22: [_strip_metadata_blocks] never removes a block whose text, with its
    white space normalized, is longer than 250 characters, nor anything
    that holds such a block: the block is still in the container, itself
    stripped of the metadata within it. *)
Theorem strip_metadata_keeps_long_blocks (container block : node)
    (title : option string) (title_node : option ident) :
  block ∈ descendants container →
  250 < String.length (Py.join " " (Py.split_ws (get_text block))) →
  _strip_metadata_blocks block title title_node
  ∈ descendants (_strip_metadata_blocks container title title_node).
Proof.
  intros Hblock Hlong. unfold _strip_metadata_blocks.
  apply (prune_keeps_protected (λ tag, 250 < normalized_length tag));
    [| |done|done].
  - intros n d Hd Hn. pose proof (normalized_length_mono n d Hd). lia.
  - intros c Hc. unfold is_metadata_block in Hc.
    apply andb_true_iff in Hc as [_ Hrules].
    apply metadata_rules_short in Hrules. lia.
Qed.

End LongBlocks.

Lemma strip_metadata_keeps_long_blocks_witness :
  let block :=
    Tag (Parsed 1) "div" [("class", "publication-info")]
      [Tag (Parsed 2) "p" [] [Text (Py.replicate_char 251 "a")];
       Tag (Parsed 3) "p" [] [Text "THE WATCHTOWER"]] in
  let container := Tag (Parsed 0) "main" [] [block] in
  _strip_metadata_blocks block None None
  ∈ descendants (_strip_metadata_blocks container None None).
Proof.
  intros block container.
  apply (strip_metadata_keeps_long_blocks container block None None).
  - apply list_elem_of_here.
  - apply Nat.ltb_lt. by vm_compute.
Defined.


(** ** Images with a source *)

Section SourcedImages.

Context (float_of_str : string → option pyfloat).
Context (urljoin : string → string → string).
Context (base_url : string).

Lemma img_source_direct img :
  truthy_opt (or_else (get img "data-src") (get img "src")) = true →
  img_source float_of_str img = or_else (get img "data-src") (get img "src").
Proof. unfold img_source. cbn zeta. intros Hsrc. by rewrite !Hsrc. Qed.

(** X23: An image with a [data-src] or a [src] that is not empty is never
    removed by [_normalize_img_tag]: its [src] becomes the [data-src], or
    failing that the [src], resolved against the base URL, which is also the
    value returned; the lazy-loading and source-set attributes go, and every
    other attribute stays as it was. *)
Theorem normalize_img_tag_keeps_sourced (img : node) :
  is_tag img = true →
  truthy_opt (get img "data-src") = true ∨ truthy_opt (get img "src") = true →
  ∃ img' src,
    _normalize_img_tag float_of_str urljoin img base_url
    = Some (img', urljoin base_url src)
    ∧ Some src = (if truthy_opt (get img "data-src")
                  then get img "data-src" else get img "src")
    ∧ get img' "src" = Some (urljoin base_url src)
    ∧ (∀ key, key ∈ redundant_attrs → get img' key = None)
    ∧ ∀ key, key ≠ "src" → key ∉ redundant_attrs →
             get img' key = get img key.
Proof.
  intros Htag Hsourced.
  assert (truthy_opt (or_else (get img "data-src") (get img "src")) = true)
    as Hdirect.
  { unfold or_else.
    destruct (truthy_opt (get img "data-src")) eqn:Hdata; [done|].
    by destruct Hsourced. }
  unfold _normalize_img_tag. rewrite (img_source_direct img Hdirect).
  apply truthy_opt_Some in Hdirect as (src & Hsrc & _). rewrite Hsrc.
  exists (normalized_img img (urljoin base_url src)), src.
  split; [done|]. split; [by rewrite <- Hsrc|].
  split; [by rewrite get_normalized_img|]. split.
  - intros key Hkey. rewrite get_normalized_img by done.
    destruct (String.eqb_spec key "src") as [->|_].
    + exfalso. unfold redundant_attrs in Hkey.
      by repeat (apply elem_of_cons in Hkey as [Hkey|Hkey]; [done|]);
        inversion Hkey.
    + by rewrite bool_decide_eq_true_2.
  - intros key Hne Hkey. rewrite get_normalized_img by done.
    rewrite (proj2 (eqb_false_iff key "src")) by done.
    by rewrite bool_decide_eq_false_2.
Qed.

End SourcedImages.

Lemma normalize_img_tag_keeps_sourced_witness :
  let img :=
    Tag (Parsed 12) "img"
      [("data-src", "/images/inline.jpg"); ("src", "/images/blank.gif");
       ("srcset", "/images/small.jpg 1x"); ("alt", "Inline")] [] in
  _normalize_img_tag simple_float simple_urljoin img "https://www.jw.org/en/"
  = Some (Tag (Parsed 12) "img"
            [("src", "https://www.jw.org/images/inline.jpg");
             ("alt", "Inline")] [],
          "https://www.jw.org/images/inline.jpg")
  ∧ ∃ img' src,
      _normalize_img_tag simple_float simple_urljoin img
        "https://www.jw.org/en/"
      = Some (img', simple_urljoin "https://www.jw.org/en/" src)
      ∧ get img' "alt" = get img "alt".
Proof.
  intros img. split; [by vm_compute|].
  destruct (normalize_img_tag_keeps_sourced simple_float simple_urljoin
              "https://www.jw.org/en/" img)
    as (img' & src & Hresult & _ & _ & _ & Hkept);
    [done|by left|].
  exists img', src. split; [done|]. apply Hkept; [done|].
  unfold redundant_attrs. intros Hkey.
  by repeat (apply elem_of_cons in Hkey as [Hkey|Hkey]; [done|]);
    inversion Hkey.
Defined.


(** ** Labelled controls *)

Section LabelledControls.

Lemma get_prune doomed n key : get (prune doomed n) key = get n key.
Proof. by destruct n. Qed.

Lemma attr_contains_prune doomed n attr needles :
  _attr_contains (prune doomed n) attr needles = _attr_contains n attr needles.
Proof. unfold _attr_contains. by rewrite get_prune. Qed.

Lemma prune_gone (doomed : node → bool) n d :
  (∀ f e, doomed (prune f e) = doomed e) →
  (∀ s, doomed (Text s) = false) →
  d ∈ descendants (prune doomed n) → doomed d = false.
Proof.
  intros Hstable HText (d0 & Hd0 & -> & Hnot)%prune_descendants.
  rewrite Hstable. destruct d0; [apply HText|]. by apply Hnot.
Qed.

Lemma prune_none (property : node → bool) doomed n :
  (∀ f e, property (prune f e) = property e) →
  (∀ d, d ∈ descendants n → property d = false) →
  ∀ d, d ∈ descendants (prune doomed n) → property d = false.
Proof.
  intros Hstable Hnone d' (d & Hd & -> & _)%prune_descendants.
  rewrite Hstable. by apply Hnone.
Qed.

(** X24: After [_strip_player_controls] no tag of the container has an
    [aria-label] or a [title] in which, letter case apart, [play], [audio]
    or [video] occurs. *)
Theorem strip_player_controls_no_labelled (container d : node) :
  d ∈ descendants (_strip_player_controls container) →
  _attr_contains d "aria-label" control_needles = false
  ∧ _attr_contains d "title" control_needles = false.
Proof.
  unfold _strip_player_controls. intros Hd. split.
  - revert d Hd.
    do 3 (apply (prune_none (λ tag, _attr_contains tag "aria-label" _));
          [intros; apply attr_contains_prune|]).
    intros d. apply (prune_gone (λ tag, _attr_contains tag "aria-label" _));
      [intros; apply attr_contains_prune|done].
  - revert d Hd.
    do 2 (apply (prune_none (λ tag, _attr_contains tag "title" _));
          [intros; apply attr_contains_prune|]).
    intros d. apply (prune_gone (λ tag, _attr_contains tag "title" _));
      [intros; apply attr_contains_prune|done].
Qed.

End LabelledControls.

Lemma strip_player_controls_no_labelled_witness :
  let container :=
    Tag (Parsed 0) "main" []
      [Tag (Parsed 1) "a" [("aria-label", "Play Audio")] [Text "Listen"];
       Tag (Parsed 2) "p" [("title", "Body")] [Text "Body content."]] in
  _strip_player_controls container
  = Tag (Parsed 0) "main" []
      [Tag (Parsed 2) "p" [("title", "Body")] [Text "Body content."]]
  ∧ _attr_contains
      (Tag (Parsed 2) "p" [("title", "Body")] [Text "Body content."])
      "aria-label" control_needles = false
  ∧ _attr_contains
      (Tag (Parsed 2) "p" [("title", "Body")] [Text "Body content."])
      "title" control_needles = false.
Proof.
  intros container. split; [by vm_compute|].
  apply (strip_player_controls_no_labelled container).
  vm_compute. apply list_elem_of_here.
Defined.


(** ** The container that is rendered *)

Section RenderedContainer.

Context (float_of_str : string → option pyfloat).
Context (urljoin : string → string → string).
Context (BeautifulSoup : string → node).
Context (readability_summary : string → string).
Context (readability_title : string → option string).

#[local] Abbreviation cleaned_tree html base_url :=
  (cleaned_container float_of_str urljoin BeautifulSoup readability_summary
     readability_title html base_url).

Lemma named_any_ext names a b :
  (∀ name, named name a = named name b) →
  named_any names a = named_any names b.
Proof.
  intros Hnamed. unfold named_any.
  induction names as [|x names IH]; [done|]. cbn [existsb].
  by rewrite Hnamed, IH.
Qed.

Lemma named_update_descendants f name n :
  named name (update_descendants f n) = named name n.
Proof. by destruct n. Qed.

Lemma named_with_attrs name n attrs :
  named name (with_attrs n attrs) = named name n.
Proof. by destruct n. Qed.

(** An update that keeps names and contents brings no name into the tree. *)
Lemma update_descendants_none names f n :
  (∀ c c', f c = Some c' → descendants c' = descendants c) →
  (∀ c c' name, f c = Some c' → named name c' = named name c) →
  (∀ d, d ∈ descendants n → named_any names d = false) →
  ∀ d, d ∈ descendants (update_descendants f n) → named_any names d = false.
Proof.
  intros Hcontents Hnames Hnone d' Hd'.
  apply update_descendants_descendants in Hd' as (d & Hd & Hcases); [|done].
  destruct Hcases as [[_ Hf]|[_ ->]]; [|by apply Hnone].
  rewrite <- (Hnone d Hd). apply named_any_ext. intros name.
  by rewrite (Hnames _ _ name Hf), named_update_descendants.
Qed.

Lemma normalize_links_none names n base_url :
  (∀ d, d ∈ descendants n → named_any names d = false) →
  ∀ d, d ∈ descendants (_normalize_links urljoin n base_url) →
       named_any names d = false.
Proof.
  apply update_descendants_none.
  - intros c c'. apply normalize_links_step_contents.
  - intros c c' name.
    destruct (named "a" c && _); intros [= <-]; [|done].
    apply named_with_attrs.
Qed.

Lemma normalize_images_none names n base_url :
  (∀ d, d ∈ descendants n → named_any names d = false) →
  ∀ d, d ∈ descendants (_normalize_images float_of_str urljoin n base_url) →
       named_any names d = false.
Proof.
  apply update_descendants_none.
  - intros c c'. apply normalize_images_step_contents.
  - intros c c' name. destruct (named "img" c); [|by intros [= <-]].
    unfold _normalize_img_tag. destruct (img_source _ c); [|done].
    intros [= <-]. apply normalized_img_named.
Qed.

(** What a figure leaves in its place has the names of the figure's
    tags. *)
Lemma flatten_figure_none names figure base_url piece c' d :
  (∀ e, e ∈ descendants figure → named_any names e = false) →
  flatten_figure float_of_str urljoin base_url figure = Return piece →
  c' ∈ piece →
  d = c' ∨ d ∈ descendants c' →
  named_any names d = false.
Proof.
  intros Hnone [->|(img & src & Himg & _ & ->)]%flatten_Return;
    [by inversion 1|].
  intros ->%list_elem_of_singleton.
  apply find_Some in Himg as [_ Hin].
  intros [->|Hd].
  - rewrite <- (Hnone img Hin). apply named_any_ext. intros name.
    apply normalized_img_named.
  - unfold normalized_img in Hd. rewrite descendants_with_attrs in Hd.
    apply Hnone. by eapply descendants_trans.
Qed.

Lemma normalize_figures_none names n base_url result :
  _normalize_figures float_of_str urljoin n base_url = Return result →
  (∀ d, d ∈ descendants n → named_any names d = false) →
  ∀ d, d ∈ descendants result → named_any names d = false.
Proof.
  revert result.
  induction n as [s|u name attrs cs IH] using node_induction;
    intros result Hresult Hnone d; [injection Hresult as <-; by inversion 1|].
  pose proof (normalize_figures_root _ _ _ _ _ Hresult) as Hroot.
  cbn in Hroot. rewrite Hroot.
  intros (c' & Hc' & Hd)%descendants_Tag.
  destruct (normalize_figures_child _ _ _ _ _ _ _ _ _ Hresult Hc')
    as (c & Hc & Hcases).
  assert (∀ e, e ∈ descendants c → named_any names e = false) as Hbelow.
  { intros e He. apply Hnone, descendants_Tag. eauto. }
  destruct Hcases as [(_ & piece & Hpiece & Hin)|[_ Hc0]].
  - by eapply flatten_figure_none.
  - destruct Hd as [->|Hd].
    + rewrite <- (Hnone c) by (apply descendants_Tag; eauto).
      apply named_any_ext. intros name'.
      by eapply named_normalize_figures.
    + rewrite Forall_forall in IH. by apply (IH c Hc c').
Qed.

Lemma select_container_below soup container :
  _select_container soup = Some container → container ∈ descendants soup.
Proof.
  unfold _select_container.
  destruct (find "article" soup) as [article|] eqn:Harticle.
  { intros [= <-]. by apply find_Some in Harticle as [_ ?]. }
  destruct (find "main" soup) as [main|] eqn:Hmain.
  { intros [= <-]. by apply find_Some in Hmain as [_ ?]. }
  destruct (foldl select_step (None, 0) (find_all ["div"] soup))
    as [best len] eqn:Hfold.
  apply select_step_fold in Hfold as (_ & _ & Hbest).
  destruct Hbest as [[-> ->]|(d & -> & Hd & _)]; [done|].
  destruct (MIN_TEXT_LEN <=? len); [|done]. intros [= <-].
  by apply find_all_elem in Hd as [? _].
Qed.

(** The passes that follow the choice of the container, one after the
    other. *)
Lemma cleaned_container_passes html base_url cleaned found :
  cleaned_tree html base_url = Return (cleaned, found) →
  ∃ container title title_node normalized,
    _normalize_figures float_of_str urljoin
      (_normalize_links urljoin
         (_strip_metadata_blocks (_strip_player_controls container)
            title title_node)
         base_url)
      base_url
    = Return normalized
    ∧ cleaned = _normalize_images float_of_str urljoin normalized base_url
    ∧ ∀ selected,
        _select_container (_remove_unwanted_tags (BeautifulSoup html))
        = Some selected →
        container = selected.
Proof.
  unfold cleaned_container.
  destruct (_select_container _) as [selected|].
  - destruct (_normalize_figures _ _ _ _) as [normalized|] eqn:Hfigures;
      [|done].
    cbn [bind]. intros [= <- _]. eexists _, _, _, _.
    split; [exact Hfigures|]. split; [done|]. by intros ? [= <-].
  - destruct (_readability_fallback _ _ _ _) as [container fallback].
    destruct (_normalize_figures _ _ _ _) as [normalized|] eqn:Hfigures;
      [|done].
    cbn [bind]. intros [= <- _]. eexists _, _, _, _.
    split; [exact Hfigures|]. split; [done|]. by intros ? [=].
Qed.

(** X25: The container from which the markdown is rendered holds no [audio],
    [video], [source] or [track]: what [_strip_player_controls] removes,
    no later pass brings back.  When the container was selected from the
    document, it holds none of the names that [_remove_unwanted_tags]
    removes either; the container of the readability fallback is not passed
    through [_remove_unwanted_tags]. *)
Theorem cleaned_container_free_of_chrome (html base_url : string)
    (container : node) (found : option string) :
  cleaned_tree html base_url = Return (container, found) →
  let unwanted :=
    ["script"; "style"; "noscript"; "nav"; "footer"; "aside"; "svg"; "form";
     "button"] in
  (∀ d, d ∈ descendants container →
        named_any ["audio"; "video"; "source"; "track"] d = false)
  ∧ (is_Some (_select_container (_remove_unwanted_tags (BeautifulSoup html))) →
     ∀ d, d ∈ descendants container → named_any unwanted d = false).
Proof.
  intros Hcleaned unwanted.
  destruct (cleaned_container_passes html base_url container found Hcleaned)
    as (container0 & title & title_node & normalized & Hfigures & ->
        & Hselected).
  split.
  - apply normalize_images_none.
    apply (normalize_figures_none _ _ _ _ Hfigures).
    apply normalize_links_none. unfold _strip_metadata_blocks.
    apply prune_none_named. unfold _strip_player_controls.
    do 4 apply prune_none_named. intros d. apply prune_named_gone.
  - intros [selected Hsome].
    pose proof (Hselected selected Hsome) as ->.
    apply select_container_below in Hsome.
    apply normalize_images_none.
    apply (normalize_figures_none _ _ _ _ Hfigures).
    apply normalize_links_none. unfold _strip_metadata_blocks.
    apply prune_none_named. unfold _strip_player_controls.
    do 5 apply prune_none_named. intros d Hd.
    assert (d ∈ descendants (_remove_unwanted_tags (BeautifulSoup html)))
      as Hbelow by (by eapply descendants_trans).
    unfold _remove_unwanted_tags in Hbelow.
    apply remove_outer_headers_descendants
      in Hbelow as (d0 & inside & Hd0 & ->).
    rewrite named_any_remove_outer_headers. by eapply prune_named_gone.
Qed.

End RenderedContainer.

Lemma cleaned_container_free_of_chrome_witness :
  let container :=
    Tag (Parsed 8) "article" []
      [Tag (Parsed 9) "header" [] [Text "Lead"];
       Tag (Parsed 11) "p" [] [Text "Body."]] in
  cleaned_container simple_float simple_urljoin (λ _, chrome_example)
    (λ _, "") (λ _, None) "" "https://www.jw.org/en/"
  = Return (container, None)
  ∧ ∀ d, d ∈ descendants container →
         named_any ["audio"; "video"; "source"; "track"] d = false.
Proof.
  intros container. split; [by vm_compute|].
  by destruct (cleaned_container_free_of_chrome simple_float simple_urljoin
                 (λ _, chrome_example) (λ _, "") (λ _, None) ""
                 "https://www.jw.org/en/" container None) as [? _];
    [by vm_compute|].
Defined.
